(** * Relay pool manager and per-destination connection optimizer

    A shallow embedding of [src/proxy/proxy-manager.ts] and
    [src/proxy/quantum-proxy-manager.ts], with the properties of the
    outbound-connection layer proved about it.

    Conventions of the embedding.
    - JavaScript strings are Rocq strings; a character stands for one code
      unit below 256, which covers the text of relay lists.
    - Millisecond readings of [Date.now()] and their differences are [Z].
    - The adaptive timeout is computed as the source computes it, in
      IEEE-754 binary64 ([Float64], over the Standard Library's
      [spec_float]).  The quality metrics of the optimizer (means, scores)
      are exact rationals [Q], with [Math.round] as [Qfloor (x + 1/2)]; what
      is proved of them are bounds and constants that the rounding of
      binary64 does not move.
    - A [Map] is a [gmap]; [m.get(k) || 0] is [default 0 (m !! k)].
    - Whatever the network, the clock, the file system or [Math.random]
      decides is read from an oracle record; an operation takes the oracle
      and the manager state and returns its result with the new state.
    - A [throw] is the [Throws] completion. *)

From Stdlib Require Import Ascii String QArith Qround Lqa Permutation Sorted.
From Stdlib Require Import SpecFloat.
From stdpp Require Import gmap strings list pretty.

Local Open Scope string_scope.
Local Open Scope Z_scope.
Local Open Scope list_scope.

(** ** JavaScript values shared by both managers *)

Module JS.

Inductive Error : Type :=
| TypeError (message : string)
| PlainError (message : string)
| NetworkError (code message : string).

Inductive Completion (A : Type) : Type :=
| Returns (value : A)
| Throws (error : Error).
Arguments Returns {A} value.
Arguments Throws {A} error.

Definition truthy (s : string) : bool :=
  match s with "" => false | _ => true end.

(** [a || b] on strings. *)
Definition or_else (a b : string) : string := if truthy a then a else b.

(** White space of [String.prototype.trim] and of [parseInt], among the code
    units below 256: TAB, LF, VT, FF, CR, SP and NBSP. *)
Definition isWhiteSpace (c : ascii) : bool :=
  match c with
  | "009" | "010" | "011" | "012" | "013" | " " | "160" => true
  | _ => false
  end%char.

Fixpoint trimStart (s : string) : string :=
  match s with
  | String c s' => if isWhiteSpace c then trimStart s' else s
  | "" => ""
  end.

Definition trim (s : string) : string :=
  String.rev (trimStart (String.rev (trimStart s))).

Fixpoint startsWith (pre s : string) : bool :=
  match pre, s with
  | "", _ => true
  | String a pre', String b s' => if decide (a = b) then startsWith pre' s' else false
  | String _ _, "" => false
  end.

Fixpoint includes (sub s : string) : bool :=
  startsWith sub s ||
  match s with
  | String _ s' => includes sub s'
  | "" => false
  end.

(** [s.split(sep)] for a separator of one character. *)
Fixpoint split (sep : ascii) (s : string) : list string :=
  match s with
  | "" => [""]
  | String c s' =>
      if decide (c = sep) then "" :: split sep s'
      else match split sep s' with
           | part :: parts => String c part :: parts
           | [] => [String c ""]
           end
  end.

(** [s.replace(":", "")]: the first occurrence only. *)
Fixpoint removeFirst (x : ascii) (s : string) : string :=
  match s with
  | "" => ""
  | String c s' => if decide (c = x) then s' else String c (removeFirst x s')
  end.

Definition digitValue (radix : Z) (c : ascii) : option Z :=
  let n := Z.of_N (N_of_ascii c) in
  let v := if (48 <=? n) && (n <=? 57) then Some (n - 48)
           else if (97 <=? n) && (n <=? 122) then Some (n - 87)
           else if (65 <=? n) && (n <=? 90) then Some (n - 55)
           else None in
  match v with
  | Some d => if d <? radix then Some d else None
  | None => None
  end.

(** The longest prefix of digits, read left to right; [None] while no digit
    has been seen. *)
Fixpoint scanDigits (radix : Z) (acc : option Z) (s : string) : option Z :=
  match s with
  | "" => acc
  | String c s' =>
      match digitValue radix c with
      | Some d => scanDigits radix (Some (default 0 acc * radix + d)) s'
      | None => acc
      end
  end.

(** [Number.parseInt(s)] without a radix; [None] is NaN.  The mathematical
    value is kept exact (the source only compares it with 1 and 65535, which
    rounding to a double does not change). *)
Definition parseInt (s : string) : option Z :=
  let s1 := trimStart s in
  let '(sign, s2) :=
    match s1 with
    | String "-" r => (-1, r)
    | String "+" r => (1, r)
    | _ => (1, s1)
    end in
  let '(radix, s3) :=
    match s2 with
    | String "0" (String "x" r) => (16, r)
    | String "0" (String "X" r) => (16, r)
    | _ => (10, s2)
    end in
  (fun n => sign * n) <$> scanDigits radix None s3.

(** A method body over the fields [St] of its object: it reads and writes
    the fields and either returns or throws; what it wrote before a throw
    stays written. *)
Definition M (St A : Type) : Type := St -> Completion A * St.

Global Instance M_ret {St} : MRet (M St) := fun A (a : A) s => (Returns a, s).
Global Instance M_bind {St} : MBind (M St) :=
  fun A B (k : A -> M St B) (m : M St A) s =>
    match m s with
    | (Returns a, s') => k a s'
    | (Throws e, s') => (Throws e, s')
    end.

Definition throw {St A : Type} (e : Error) : M St A := fun s => (Throws e, s).

(** [try { body } catch (error) { handler }] *)
Definition tryCatch {St A : Type} (body : M St A) (handler : Error -> M St A)
  : M St A :=
  fun s =>
    match body s with
    | (Returns a, s') => (Returns a, s')
    | (Throws e, s') => handler e s'
    end.

Definition get {St : Type} : M St St := fun s => (Returns s, s).
Definition modify {St : Type} (f : St -> St) : M St unit :=
  fun s => (Returns tt, f s).

Definition after {St A : Type} (m : M St A) (s : St) : St := snd (m s).
Definition result {St A : Type} (m : M St A) (s : St) : Completion A := fst (m s).

(** [Array.prototype.sort(cmp)] for a consistent comparator: stable, an
    element stays before the later ones it compares equal to. *)
Fixpoint insertSorted {A : Type} (cmp : A -> A -> Z) (x : A) (l : list A)
  : list A :=
  match l with
  | [] => [x]
  | y :: l' => if cmp x y <=? 0 then x :: l else y :: insertSorted cmp x l'
  end.

Definition sort {A : Type} (cmp : A -> A -> Z) (l : list A) : list A :=
  foldr (insertSorted cmp) [] l.

(** What comes back from the network for one GET: a response with its
    status (and whether [response.data] is truthy), or a transport failure
    with axios' [error.code] and [error.message]. *)
Inductive Reply : Type :=
| HttpReply (status : Z) (dataTruthy : bool)
| NetFailure (code message : string).

Record Response : Type := mkResponse { status : Z; data : bool }.

(** axios settles a response by [validateStatus]: a refused status rejects
    with [ERR_BAD_REQUEST] (4xx) or [ERR_BAD_RESPONSE] (5xx). *)
Definition axiosGet (validateStatus : Z -> bool) (r : Reply)
  : Completion Response :=
  match r with
  | HttpReply st d =>
      if validateStatus st then Returns (mkResponse st d)
      else Throws (NetworkError
                     (if st / 100 =? 4 then "ERR_BAD_REQUEST"
                      else if st / 100 =? 5 then "ERR_BAD_RESPONSE" else "")
                     ("Request failed with status code " +:+ pretty st))
  | NetFailure c m => Throws (NetworkError c m)
  end.

(** axios' default [validateStatus]. *)
Definition status2xx (st : Z) : bool := (200 <=? st) && (st <? 300).

(** [Math.round]: the nearest integer, halves towards plus infinity. *)
Definition round (x : Q) : Z := Qfloor (x + (1 # 2)).

Definition Qmax (a b : Q) : Q := if Qlt_le_dec a b then b else a.
Definition Qmin (a b : Q) : Q := if Qlt_le_dec a b then a else b.

End JS.
Export JS.

(** ** JavaScript numbers in IEEE-754 binary64 *)

Module Float64.

(** A Number: a binary64 value, NaN and the infinities included. *)
Definition Number : Type := spec_float.

Definition prec : Z := 53.
Definition emax : Z := 1024.

(** The Number nearest to an integer (the integer itself up to 2^53). *)
Definition ofZ (z : Z) : Number := binary_normalize prec emax z 0 false.

(** [x * y] and [x / y], rounded to nearest, ties to even. *)
Definition mul (x y : Number) : Number := SFmul prec emax x y.
Definition div (x y : Number) : Number := SFdiv prec emax x y.

Definition isNaN (x : Number) : bool :=
  match x with
  | S754_nan => true
  | _ => false
  end.

Definition isNegative (x : Number) : bool :=
  match x with
  | S754_zero s | S754_infinity s | S754_finite s _ _ => s
  | S754_nan => false
  end.

(** [Math.max(x, y)] and [Math.min(x, y)]: NaN when an argument is NaN;
    +0 is larger than -0. *)
Definition max (x y : Number) : Number :=
  match SFcompare x y with
  | None => S754_nan
  | Some Lt => y
  | Some Gt => x
  | Some Eq => if isNegative x then y else x
  end.

Definition min (x y : Number) : Number :=
  match SFcompare x y with
  | None => S754_nan
  | Some Lt => x
  | Some Gt => y
  | Some Eq => if isNegative x then x else y
  end.

(** [Math.round(x)]: the integer nearest to [x], a tie going towards plus
    infinity; NaN, the infinities, the zeros and the integers are returned
    as they are, and a result of zero keeps the sign of [x].  A finite
    Number of a negative exponent [-k] is [m / 2^k] up to its sign, so the
    result is the floor of [(2 m + 2^k) / 2^(k+1)]. *)
Definition round (x : Number) : Number :=
  match x with
  | S754_finite s m (Zneg k) =>
      let n := (Z.shiftl (if s then Zneg m else Zpos m) 1 + Z.pow_pos 2 k)
               / Z.pow_pos 2 (Pos.succ k) in
      if n =? 0 then S754_zero s else ofZ n
  | _ => x
  end.

(** [x <= y] *)
Definition leb (x y : Number) : bool := SFleb x y.

(** [x === y] on Numbers *)
Definition eqb (x y : Number) : bool := SFeqb x y.

End Float64.

(** ** The relay pool manager ([ProxyManager]) *)

Module ProxyManager.

(** [ProxyInfo]; the protocol is whatever string reaches the field (the
    source casts [url.protocol] to the union type without a check). *)
Record ProxyInfo : Type := mkProxy {
  host : string;
  port : Z;
  protocol : string;
  responseTime : option Z
}.

Global Instance ProxyInfo_eq_dec : EqDecision ProxyInfo.
Proof. solve_decision. Defined.

(** The three getters of a WHATWG [URL] object that [parseProxy] reads. *)
Record URL : Type := mkURL {
  url_protocol : string;
  url_hostname : string;
  url_port : string
}.

Inductive Level : Type := Debug | Info | Success | Warn | LogError.

Definition LogEntry : Type := Level * string.

Definition errorText (e : Error) : string :=
  match e with
  | TypeError m => "TypeError: " +:+ m
  | PlainError m => "Error: " +:+ m
  | NetworkError _ m => "Error: " +:+ m
  end.

Definition upperChar (c : ascii) : ascii :=
  let n := N_of_ascii c in
  if ((97 <=? n) && (n <=? 122))%N then ascii_of_N (n - 32) else c.

Fixpoint toUpperCase (s : string) : string :=
  match s with
  | "" => ""
  | String c s' => String (upperChar c) (toUpperCase s')
  end.

(** [`${p.host}:${p.port}`], the key of a relay. *)
Definition proxyKey (p : ProxyInfo) : string :=
  host p +:+ ":" +:+ pretty (port p).

(** What [fs.existsSync] and [fs.readFileSync] find at the configured path. *)
Inductive FileRead : Type :=
| FileMissing
| FileUnreadable (e : Error)
| FileContent (content : string).

Section Loader.

(** [new URL(s)] of the platform: the parsed URL, or the exception it
    raises on a string that is no URL. *)
Variable newURL : string -> Completion URL.

Definition parseProxy (proxyString protocol : string)
  : Completion (option ProxyInfo) :=
  let chosen : Completion (option (string * list string)) :=
    if includes "://" proxyString then
      match newURL proxyString with
      | Returns url =>
          Returns (Some (removeFirst ":" (url_protocol url),
                         [url_hostname url; url_port url]))
      | Throws e => Throws e
      end
    else
      let parts := JS.split ":" proxyString in
      if decide (length parts = 2%nat) then Returns (Some (protocol, parts))
      else Returns None in
  match chosen with
  | Throws e => Throws e
  | Returns None => Returns None
  | Returns (Some (protocol, parts)) =>
      let host := default "" (parts !! 0%nat) in
      match parseInt (default "" (parts !! 1%nat)) with
      | None => Returns None
      | Some port =>
          if negb (truthy host) || (port <? 1) || (65535 <? port)
          then Returns None
          else Returns (Some (mkProxy host port protocol None))
      end
  end.

(** The body of [for (const line of lines)]: the pool built so far, and the
    exception that left the loop, if one did. *)
Fixpoint parseLines (protocol : string) (lines : list string)
    (proxies : list ProxyInfo) : list ProxyInfo * option Error :=
  match lines with
  | [] => (proxies, None)
  | line :: rest =>
      match parseProxy (trim line) protocol with
      | Throws e => (proxies, Some e)
      | Returns None => parseLines protocol rest proxies
      | Returns (Some proxy) => parseLines protocol rest (proxies ++ [proxy])
      end
  end.

(** [content.split("\n").filter((line) => line.trim())] *)
Definition contentLines (content : string) : list string :=
  filter (fun line => truthy (trim line) = true) (JS.split "010"%char content).

Definition loadProxiesFromFile (filePath : string) (file : FileRead)
    (protocol : string) : list ProxyInfo * list LogEntry :=
  match file with
  | FileMissing => ([], [(Warn, "Proxy file not found: " +:+ filePath)])
  | FileUnreadable e =>
      ([], [(LogError, "Error loading proxies from file: " +:+ errorText e)])
  | FileContent content =>
      match parseLines protocol (contentLines content) [] with
      | (proxies, None) =>
          (proxies,
           [(Info, "Loaded " +:+ pretty (length proxies) +:+ " " +:+
                   toUpperCase protocol +:+ " proxies from file: " +:+ filePath)])
      | (proxies, Some e) =>
          (proxies,
           [(LogError, "Error loading proxies from file: " +:+ errorText e)])
      end
  end.

(** [axios.get(url, { timeout: 10000 })] of a list source: the text body, or
    the rejection. *)
Definition loadProxiesFromUrl (url : string) (fetched : Completion string)
    (protocol : string) : list ProxyInfo * list LogEntry :=
  let fetching :=
    (Info, "Fetching " +:+ toUpperCase protocol +:+ " proxies from: " +:+ url) in
  let failed e :=
    (LogError, "Error loading " +:+ protocol +:+ " proxies from URL " +:+ url
               +:+ ": " +:+ errorText e) in
  match fetched with
  | Throws e => ([], [fetching; failed e])
  | Returns data =>
      match parseLines protocol (contentLines data) [] with
      | (proxies, None) =>
          (proxies,
           [fetching;
            (Info, "Loaded " +:+ pretty (length proxies) +:+ " " +:+
                   toUpperCase protocol +:+ " proxies from URL")])
      | (proxies, Some e) => (proxies, [fetching; failed e])
      end
  end.

End Loader.

(** The fields of [ProxyManagerOptions] that decide what the manager does
    (after the constructor has merged the defaults). *)
Record Options : Type := mkOptions {
  proxyType : Z;
  proxyFile : string;
  socks5Urls : list string;
  socks4Urls : list string;
  testCount : Z
}.

(** Everything outside the manager.  The [n]-th question the manager asks
    gets the [n]-th answer; [shuffled n] is the order in which
    [sort(() => 0.5 - Math.random())] leaves the array. *)
Record World : Type := mkWorld {
  newURL : string -> Completion URL;
  fileRead : FileRead;
  fetchList : string -> Completion string;
  shuffled : nat -> list ProxyInfo -> list ProxyInfo;
  shuffled_perm : forall n l, Permutation (shuffled n l) l;
  replyTo : nat -> ProxyInfo -> Reply;
  elapsed : nat -> Z;
  tcpConnects : nat -> ProxyInfo -> bool
}.

(** The private fields that the methods below read or write, the number of
    questions asked of the world so far, and the lines written to the logger.
    The handle of the keep-alive timer is left out: a tick of the timer is
    the call [performAggressiveKeepAlivePing]. *)
Record State : Type := mkState {
  proxies : list ProxyInfo;
  bestProxy : option ProxyInfo;
  currentProxy : option ProxyInfo;
  proxyHealthScores : gmap string Z;
  options : Options;
  asked : nat;
  logged : list LogEntry
}.

Definition withProxies (ps : list ProxyInfo) (s : State) : State :=
  mkState ps (bestProxy s) (currentProxy s) (proxyHealthScores s)
          (options s) (asked s) (logged s).
Definition withBestProxy (p : option ProxyInfo) (s : State) : State :=
  mkState (proxies s) p (currentProxy s) (proxyHealthScores s)
          (options s) (asked s) (logged s).
Definition withCurrentProxy (p : option ProxyInfo) (s : State) : State :=
  mkState (proxies s) (bestProxy s) p (proxyHealthScores s)
          (options s) (asked s) (logged s).
Definition withScores (m : gmap string Z) (s : State) : State :=
  mkState (proxies s) (bestProxy s) (currentProxy s) m
          (options s) (asked s) (logged s).
Definition withAsked (n : nat) (s : State) : State :=
  mkState (proxies s) (bestProxy s) (currentProxy s) (proxyHealthScores s)
          (options s) n (logged s).
Definition withLogged (l : list LogEntry) (s : State) : State :=
  mkState (proxies s) (bestProxy s) (currentProxy s) (proxyHealthScores s)
          (options s) (asked s) l.

(** A method of the manager. *)
Abbreviation Method := (M State).

Definition logger (l : Level) (message : string) : Method unit :=
  modify (fun s => withLogged (logged s ++ [(l, message)]) s).

(** Takes the number of the next question and counts it. *)
Definition ask : Method nat :=
  fun s => (Returns (asked s), withAsked (S (asked s)) s).

(** [this.proxyHealthScores.get(key) || 0] *)
Definition scoreOf (m : gmap string Z) (key : string) : Z := default 0 (m !! key).

Definition setScore (key : string) (f : Z -> Z) : Method unit :=
  modify (fun s =>
    withScores (<[key := f (scoreOf (proxyHealthScores s) key)]>
                  (proxyHealthScores s)) s).

Definition logAll (entries : list LogEntry) : Method unit :=
  modify (fun s => withLogged (logged s ++ entries) s).

Definition getProxyTypeName (proxyType : Z) : string :=
  if proxyType =? 1 then "HTTP"
  else if proxyType =? 2 then "HTTPS"
  else if proxyType =? 3 then "SOCKS4"
  else if proxyType =? 4 then "SOCKS5"
  else "Unknown".

Fixpoint loadProxiesFromUrls (w : World) (urls : list string)
    (protocol : string) (allProxies : list ProxyInfo) : Method (list ProxyInfo) :=
  match urls with
  | [] => mret allProxies
  | url :: rest =>
      let '(found, entries) :=
        loadProxiesFromUrl (newURL w) url (fetchList w url) protocol in
      logAll entries;;
      loadProxiesFromUrls w rest protocol (allProxies ++ found)
  end.

Definition loadProxies (w : World) : Method unit :=
  s ← get;
  let o := options s in
  allProxies ←
    (if (proxyType o =? 1) || (proxyType o =? 2) then
       if truthy (proxyFile o) then
         let '(found, entries) :=
           loadProxiesFromFile (newURL w) (proxyFile o) (fileRead w)
             (if proxyType o =? 2 then "https" else "http") in
         logAll entries;; mret found
       else mret []
     else if proxyType o =? 3 then loadProxiesFromUrls w (socks4Urls o) "socks4" []
     else if proxyType o =? 4 then loadProxiesFromUrls w (socks5Urls o) "socks5" []
     else mret []);
  modify (withProxies allProxies);;
  logger Debug ("Loaded " +:+ pretty (length allProxies) +:+ " " +:+
                getProxyTypeName (proxyType o) +:+ " proxies").

(** One relay-mediated GET of the test endpoint, timed.  Both wirings (SOCKS
    agent, plain relay) ask the same question of the network. *)
Definition pingProxy (w : World) (proxy : ProxyInfo) : Method Z :=
  n ← ask;
  let failed :=
    logger LogError ("Proxy " +:+ proxyKey proxy +:+ " failed " +:+
                     protocol proxy +:+ " test");;
    mret (-1) in
  tryCatch
    (match axiosGet status2xx (replyTo w n proxy) with
     | Returns response =>
         let responseTime := elapsed w n in
         if (status response =? 200) && data response then mret responseTime
         else failed
     | Throws e => throw e
     end)
    (fun error =>
       let errorMsg :=
         match error with
         | NetworkError code message =>
             or_else code (or_else message "Unknown error")
         | TypeError message | PlainError message =>
             or_else message "Unknown error"
         end in
       logger Warn (proxyKey proxy +:+ " failed with " +:+ protocol proxy +:+
                    ": " +:+ errorMsg);;
       failed).

Definition withResponseTime (proxy : ProxyInfo) (responseTime : Z) : ProxyInfo :=
  mkProxy (host proxy) (port proxy) (protocol proxy) (Some responseTime).

Fixpoint probeEach (w : World) (testProxies results : list ProxyInfo)
  : Method (list ProxyInfo) :=
  match testProxies with
  | [] => mret results
  | proxy :: rest =>
      responseTime ← pingProxy w proxy;
      probeEach w rest
        (if 0 <? responseTime
         then results ++ [withResponseTime proxy responseTime]
         else results)
  end.

Definition byResponseTime (a b : ProxyInfo) : Z :=
  default 0 (responseTime a) - default 0 (responseTime b).

Definition findBestProxy (w : World) : Method unit :=
  s ← get;
  if decide (length (proxies s) = 0%nat) then mret tt
  else
    logger Debug "Testing proxies for speed...";;
    n ← ask;
    let shuffled := shuffled w n (proxies s) in
    let testCount :=
      Z.min (testCount (options s)) (Z.of_nat (length (proxies s))) in
    let testProxies := take (Z.to_nat testCount) shuffled in
    logger Debug ("Testing " +:+ pretty testCount +:+ " proxies for speed");;
    results ← probeEach w testProxies [];
    match JS.sort byResponseTime results with
    | best :: _ =>
        modify (withBestProxy (Some best));;
        logger Info ("Best proxy selected: " +:+ proxyKey best +:+ " (" +:+
                     pretty (default 0 (responseTime best)) +:+ "ms)")
    | [] => logger LogError "No working proxies found"
    end.

Definition getWorkingProxy (w : World) : Method (option ProxyInfo) :=
  s ← get;
  if decide (length (proxies s) = 0%nat) then
    logger Warn "No proxies available";;
    mret None
  else
    (match bestProxy s with Some _ => mret tt | None => findBestProxy w end);;
    s ← get;
    match bestProxy s with
    | Some best =>
        logger Info ("Using best proxy: " +:+ proxyKey best);;
        modify (withCurrentProxy (Some best));;
        mret (Some best)
    | None =>
        logger Warn "Using fallback proxy (testing failed)";;
        match proxies s !! 0%nat with
        | Some fallback =>
            logger Info ("Using fallback proxy: " +:+ proxyKey fallback);;
            modify (withCurrentProxy (Some fallback));;
            mret (Some fallback)
        | None => throw (TypeError "Cannot read properties of undefined")
        end
    end.

Definition getCurrentProxy : Method (option ProxyInfo) :=
  s ← get; mret (currentProxy s).

(** The comparator of the candidate ranking: health score descending, then
    [responseTime || 99999] ascending. *)
Definition byHealth (scores : gmap string Z) (a b : ProxyInfo) : Z :=
  let scoreA := scoreOf scores (proxyKey a) in
  let scoreB := scoreOf scores (proxyKey b) in
  let latency p :=
    match responseTime p with
    | Some t => if t =? 0 then 99999 else t
    | None => 99999
    end in
  if decide (scoreA = scoreB) then latency a - latency b else scoreB - scoreA.

Fixpoint tryCandidates (w : World) (candidates : list ProxyInfo)
  : Method (option ProxyInfo) :=
  match candidates with
  | [] =>
      logger LogError "Could not find a working proxy to switch to";;
      mret None
  | candidateProxy :: rest =>
      s ← get;
      let key := proxyKey candidateProxy in
      logger Info ("Testing candidate proxy: " +:+ key +:+ " (health: " +:+
                   pretty (scoreOf (proxyHealthScores s) key) +:+ ")");;
      responseTime ← pingProxy w candidateProxy;
      if (0 <? responseTime) && (responseTime <? 8000) then
        setScore key (fun score => score + 10);;
        modify (withCurrentProxy (Some candidateProxy));;
        logger Success ("Switched to healthy proxy: " +:+ key +:+ " (" +:+
                        pretty responseTime +:+ "ms)");;
        mret (Some candidateProxy)
      else
        setScore key (fun score => Z.max 0 (score - 5));;
        tryCandidates w rest
  end.

Definition switchToNextProxy (w : World) : Method (option ProxyInfo) :=
  s ← get;
  if decide (length (proxies s) = 0%nat) then
    logger Warn "No proxies available to switch to";;
    mret None
  else
    let currentKey := proxyKey <$> currentProxy s in
    let availableProxies :=
      filter (fun p => Some (proxyKey p) ≠ currentKey) (proxies s) in
    if decide (length availableProxies = 0%nat) then
      logger Warn "No alternative proxies available";;
      mret None
    else
      let sortedProxies :=
        JS.sort (byHealth (proxyHealthScores s)) availableProxies in
      tryCandidates w (take 3 sortedProxies).

Definition monitorConnectionHealth (w : World) : Method bool :=
  s ← get;
  match currentProxy s with
  | None => mret true
  | Some proxy =>
      tryCatch
        (responseTime ← pingProxy w proxy;
         let isHealthy := (0 <? responseTime) && (responseTime <? 30000) in
         (if isHealthy && (10000 <? responseTime)
          then logger Warn ("Proxy response slow (" +:+ pretty responseTime +:+
                            "ms), maintaining connection...")
          else mret tt);;
         mret isHealthy)
        (fun _ => mret false)
  end.

(** [Math.max(1, Math.min(3, responseTime / 2000))] *)
Definition adaptiveMultiplier (responseTime : Z) : Float64.Number :=
  Float64.max (Float64.ofZ 1)
    (Float64.min (Float64.ofZ 3)
       (Float64.div (Float64.ofZ responseTime) (Float64.ofZ 2000))).

Definition getConnectionAdaptiveTimeout (w : World)
    (baseTimeout : Float64.Number) : Method Float64.Number :=
  s ← get;
  match currentProxy s with
  | None => mret baseTimeout
  | Some proxy =>
      returned ←
        tryCatch
          (responseTime ← pingProxy w proxy;
           if 0 <? responseTime then
             mret (Some (Float64.round
                           (Float64.mul baseTimeout
                              (adaptiveMultiplier responseTime))))
           else mret None)
          (fun _ => mret (Some (Float64.mul baseTimeout (Float64.ofZ 2))));
      match returned with
      | Some timeout => mret timeout
      | None => mret baseTimeout
      end
  end.

Definition getProxyHealthStats : Method (gmap string Z) :=
  s ← get; mret (proxyHealthScores s).

(** [net.createConnection] to the current relay, given 1500 ms. *)
Definition testTcpConnectivity (w : World) : Method bool :=
  s ← get;
  match currentProxy s with
  | None => throw (TypeError "Cannot read properties of null (reading 'host')")
  | Some proxy => n ← ask; mret (tcpConnects w n proxy)
  end.

Definition testHttpConnectivity (w : World) : Method bool :=
  tryCatch
    (s ← get;
     match currentProxy s with
     | None =>
         throw (TypeError "Cannot read properties of null (reading 'protocol')")
     | Some proxy =>
         n ← ask;
         match axiosGet (fun st => st <? 400) (replyTo w n proxy) with
         | Throws e => throw e
         | Returns response =>
             let success := status response <? 400 in
             let key := proxyKey proxy in
             (if success then setScore key (fun score => score + 1)
              else setScore key (fun score => Z.max 0 (score - 2)));;
             mret success
         end
     end)
    (fun _ =>
       s ← get;
       match currentProxy s with
       | None =>
           throw (TypeError "Cannot read properties of null (reading 'host')")
       | Some proxy =>
           setScore (proxyKey proxy) (fun score => Z.max 0 (score - 3));;
           mret false
       end).

Inductive KeepAlive : Type := healthy | tcp_lost | http_failed.

Definition performAggressiveKeepAlivePing (w : World) : Method KeepAlive :=
  s ← get;
  match currentProxy s with
  | None => mret healthy
  | Some _ =>
      tryCatch
        (tcpConnected ← testTcpConnectivity w;
         if negb tcpConnected then mret tcp_lost
         else
           httpWorking ← testHttpConnectivity w;
           if negb httpWorking then mret http_failed else mret healthy)
        (fun _ => mret http_failed)
  end.

Fixpoint pings (w : World) (count : nat) : Method unit :=
  match count with
  | O => mret tt
  | S count' =>
      tryCatch (performAggressiveKeepAlivePing w;; mret tt) (fun _ => mret tt);;
      pings w count'
  end.

(** The five pings of the burst are started together and joined with
    [Promise.allSettled]; they are run here one after the other, which is one
    of the orders in which their steps can complete.  No step suspends
    between reading a score and writing it. *)
Definition warmUpConnection (w : World) : Method unit :=
  s ← get;
  match currentProxy s with
  | None => mret tt
  | Some _ =>
      logger Info "Warming up proxy connection for maximum speed...";;
      tryCatch
        (pings w 5;;
         logger Success "Proxy connection warmed up and stabilized")
        (fun _ =>
           logger Warn "Connection warm-up completed with some issues (normal)")
  end.

(** The calls the source does not await ([switchToNextProxy],
    [warmUpConnection]) are run to their end in place. *)
Definition validateAndWarmUpProxy (w : World) : Method unit :=
  s ← get;
  match currentProxy s with
  | None => mret tt
  | Some _ =>
      logger Info "Validating and warming up proxy connection...";;
      tryCatch
        (tcpOk ← testTcpConnectivity w;
         if negb tcpOk then
           logger LogError "Proxy validation failed - TCP connection rejected";;
           switchToNextProxy w;;
           mret tt
         else
           httpOk ← testHttpConnectivity w;
           (if negb httpOk
            then logger Warn
                   "Proxy validation warning - HTTP test failed but TCP works"
            else mret tt);;
           logger Success "Proxy validation successful";;
           warmUpConnection w)
        (fun error =>
           logger LogError ("Proxy validation error: " +:+ errorText error);;
           switchToNextProxy w;;
           mret tt)
  end.

Definition setCurrentProxy (w : World) (proxy : ProxyInfo) : Method unit :=
  modify (withCurrentProxy (Some proxy));;
  logger Info ("Current proxy set to: " +:+ proxyKey proxy +:+ " (" +:+
               protocol proxy +:+ ")");;
  validateAndWarmUpProxy w.

Inductive Quality : Type := excellent | good | poor | critical.

Definition getConnectionQuality (w : World) : Method Quality :=
  s ← get;
  match currentProxy s with
  | None => mret excellent
  | Some proxy =>
      tryCatch
        (responseTime ← pingProxy w proxy;
         if responseTime <? 2000 then mret excellent
         else if responseTime <? 5000 then mret good
         else if responseTime <? 10000 then mret poor
         else mret critical)
        (fun _ => mret critical)
  end.

Definition monitorConnectionSpeed (w : World) : Method bool :=
  s ← get;
  match currentProxy s with
  | None => mret true
  | Some proxy =>
      responseTime ← pingProxy w proxy;
      if responseTime <? 0 then
        logger LogError "Current proxy is not responding";;
        mret false
      else if 5000 <? responseTime then
        logger Warn ("Current proxy is slow (" +:+ pretty responseTime +:+
                     "ms), considering switch...");;
        mret false
      else mret true
  end.

(** The state the constructor leaves, before [loadProxies] has filled the
    pool. *)
Definition construct (o : Options) : State :=
  mkState [] None None ∅ o 0 [].

(** The calls that can reach a manager, the private steps that timers and
    un-awaited calls run included.  [TryCandidates] is the loop of
    [switchToNextProxy] taken up again on the candidates it has left, so that
    a run can put other calls between two of its probes. *)
Inductive Call : Type :=
| LoadProxies
| GetWorkingProxy
| SwitchToNextProxy
| MonitorConnectionHealth
| GetConnectionAdaptiveTimeout (baseTimeout : Float64.Number)
| SetCurrentProxy (proxy : ProxyInfo)
| ValidateAndWarmUpProxy
| WarmUpConnection
| KeepAlivePing
| TestTcpConnectivity
| TestHttpConnectivity
| GetConnectionQuality
| MonitorConnectionSpeed
| TryCandidates (candidates : list ProxyInfo).

Definition perform (w : World) (c : Call) (s : State) : State :=
  match c with
  | LoadProxies => after (loadProxies w) s
  | GetWorkingProxy => after (getWorkingProxy w) s
  | SwitchToNextProxy => after (switchToNextProxy w) s
  | MonitorConnectionHealth => after (monitorConnectionHealth w) s
  | GetConnectionAdaptiveTimeout b => after (getConnectionAdaptiveTimeout w b) s
  | SetCurrentProxy p => after (setCurrentProxy w p) s
  | ValidateAndWarmUpProxy => after (validateAndWarmUpProxy w) s
  | WarmUpConnection => after (warmUpConnection w) s
  | KeepAlivePing => after (performAggressiveKeepAlivePing w) s
  | TestTcpConnectivity => after (testTcpConnectivity w) s
  | TestHttpConnectivity => after (testHttpConnectivity w) s
  | GetConnectionQuality => after (getConnectionQuality w) s
  | MonitorConnectionSpeed => after (monitorConnectionSpeed w) s
  | TryCandidates candidates => after (tryCandidates w candidates) s
  end.

Definition performAll (w : World) (calls : list Call) (s : State) : State :=
  foldl (fun s c => perform w c s) s calls.

End ProxyManager.

(** ** The per-destination optimizer ([QuantumProxyManager]) *)

Module QuantumProxyManager.

Record QuantumProxyConfig : Type := mkConfig {
  host : string;
  port : Z;
  protocol : string;
  username : option string;
  password : option string
}.

Record ConnectionMetrics : Type := mkMetrics {
  latency : Q;
  jitter : Q;
  packetLoss : Q;
  bandwidth : Q;
  lastTested : Z;
  stability : Z
}.

(** What [establishSecureConnection] of the security collaborator resolves
    to, as far as this manager reads it. *)
Record SecurityMetrics : Type := mkSecurity {
  securityScore : Z;
  vulnerabilities : list string;
  recommendations : list string
}.

(** A client made by [axios.create]: which call made it, and the
    [validateStatus] it was configured with. *)
Inductive Client : Type :=
| SecureOptimized (created : nat)
| Optimized (created : nat).

Definition validateStatus (c : Client) : Z -> bool :=
  match c with
  | SecureOptimized _ => fun st => st <? 400
  | Optimized _ => status2xx
  end.

Record SmartConnection : Type := mkConnection {
  proxy : QuantumProxyConfig;
  metrics : ConnectionMetrics;
  axiosInstance : Client;
  lastUsed : Z;
  connectionPool : list Client;
  securityMetrics : option SecurityMetrics
}.

Record DnsEntry : Type := mkDns { ip : string; expires : Z }.

(** What the manager asks of the outside, in the order it asks. *)
Inductive Question : Type :=
| DateNow
| DnsLookup (domain : string)
| EstablishSecureConnection (host : string) (port : Z)
| Connect (host : string) (port : Z)
| Get (client : Client) (url : string).

(** The answers; the number is the place of the question among all the
    questions asked.  [connected] is the time the TCP connect took, or [None]
    on an error or the timeout. *)
Record World : Type := mkWorld {
  now : nat -> Z;
  lookedUp : nat -> Completion string;
  audited : nat -> Completion SecurityMetrics;
  connected : nat -> option Z;
  replied : nat -> Client -> string -> Reply
}.

Inductive Level : Type := Debug | Info | Success | Warn | LogError.

(** The fields.  A [SmartConnection] is an object shared between
    [connections] and [currentConnection]: both hold its index in [heap].
    [connections] keeps the insertion order of the [Map]. *)
Record State : Type := mkState {
  targetDomain : string;
  heap : list SmartConnection;
  connections : list (string * nat);
  currentConnection : option nat;
  connectionPoolSize : nat;
  dnsCache : gmap string DnsEntry;
  dnsCacheTTL : Z;
  clients : nat;
  questions : list Question;
  logged : list (Level * string)
}.

Definition withHeap (h : list SmartConnection) (s : State) : State :=
  mkState (targetDomain s) h (connections s) (currentConnection s)
          (connectionPoolSize s) (dnsCache s) (dnsCacheTTL s) (clients s)
          (questions s) (logged s).
Definition withConnections (c : list (string * nat)) (s : State) : State :=
  mkState (targetDomain s) (heap s) c (currentConnection s)
          (connectionPoolSize s) (dnsCache s) (dnsCacheTTL s) (clients s)
          (questions s) (logged s).
Definition withCurrentConnection (c : option nat) (s : State) : State :=
  mkState (targetDomain s) (heap s) (connections s) c
          (connectionPoolSize s) (dnsCache s) (dnsCacheTTL s) (clients s)
          (questions s) (logged s).
Definition withDnsCache (d : gmap string DnsEntry) (s : State) : State :=
  mkState (targetDomain s) (heap s) (connections s) (currentConnection s)
          (connectionPoolSize s) d (dnsCacheTTL s) (clients s)
          (questions s) (logged s).
Definition withClients (n : nat) (s : State) : State :=
  mkState (targetDomain s) (heap s) (connections s) (currentConnection s)
          (connectionPoolSize s) (dnsCache s) (dnsCacheTTL s) n
          (questions s) (logged s).
Definition withQuestions (q : list Question) (s : State) : State :=
  mkState (targetDomain s) (heap s) (connections s) (currentConnection s)
          (connectionPoolSize s) (dnsCache s) (dnsCacheTTL s) (clients s)
          q (logged s).
Definition withLogged (l : list (Level * string)) (s : State) : State :=
  mkState (targetDomain s) (heap s) (connections s) (currentConnection s)
          (connectionPoolSize s) (dnsCache s) (dnsCacheTTL s) (clients s)
          (questions s) l.

Abbreviation Method := (M State).

(** [new QuantumProxyManager(targetDomain)] *)
Definition construct (targetDomain : string) : State :=
  mkState targetDomain [] [] None 3 ∅ 300000 0 [] [].

Definition logger (l : Level) (message : string) : Method unit :=
  modify (fun s => withLogged (logged s ++ [(l, message)]) s).

(** Records the question and gives its number. *)
Definition ask (q : Question) : Method nat :=
  fun s => (Returns (length (questions s)),
            withQuestions (questions s ++ [q]) s).

Definition dateNow (w : World) : Method Z :=
  n ← ask DateNow; mret (now w n).

Definition dnsLookup (w : World) (domain : string) : Method string :=
  n ← ask (DnsLookup domain);
  match lookedUp w n with
  | Returns address => mret address
  | Throws e => throw e
  end.

(** [client.get(url, ...)] *)
Definition clientGet (w : World) (client : Client) (url : string)
  : Method Response :=
  n ← ask (Get client url);
  match axiosGet (validateStatus client) (replied w n client url) with
  | Returns response => mret response
  | Throws e => throw e
  end.

Definition quantumDNSResolve (w : World) (domain : string) : Method string :=
  s ← get;
  let cached := dnsCache s !! domain in
  fresh ←
    match cached with
    | Some entry => t ← dateNow w; mret (t <? expires entry)
    | None => mret false
    end;
  match cached, fresh with
  | Some entry, true => mret (ip entry)
  | _, _ =>
      tryCatch
        (address ← dnsLookup w domain;
         t ← dateNow w;
         modify (fun s =>
           withDnsCache (<[domain := mkDns address (t + dnsCacheTTL s)]>
                           (dnsCache s)) s);;
         mret address)
        (fun error =>
           match cached with
           | Some entry =>
               logger Warn ("DNS lookup failed, using cached IP: " +:+ ip entry);;
               mret (ip entry)
           | None => throw error
           end)
  end.

(** [net.createConnection] with a 5000 ms timeout, resolved by
    [handshakeTime < 3000] on connect and by [false] otherwise. *)
Definition simulateThreeWayHandshake (w : World) (proxy : QuantumProxyConfig)
  : Method bool :=
  n ← ask (Connect (host proxy) (port proxy));
  match connected w n with
  | Some handshakeTime => mret (handshakeTime <? 3000)
  | None => mret false
  end.

Definition testTCPHandshake (w : World) (proxy : QuantumProxyConfig)
  : Method bool :=
  simulateThreeWayHandshake w proxy.

Definition createOptimizedAxiosInstance : Method Client :=
  s ← get;
  modify (withClients (S (clients s)));;
  mret (Optimized (clients s)).

Definition createSecureOptimizedAxiosInstance : Method Client :=
  s ← get;
  modify (withClients (S (clients s)));;
  mret (SecureOptimized (clients s)).

Definition testHTTPConnectivity (w : World) (proxy : QuantumProxyConfig)
  : Method bool :=
  tryCatch
    (instance ← createOptimizedAxiosInstance;
     response ← clientGet w instance "http://httpbin.org/get";
     mret (status response =? 200))
    (fun _ => mret false).

Fixpoint sumAbsDiffs (previous : Z) (rest : list Z) : Z :=
  match rest with
  | [] => 0
  | x :: rest' => Z.abs (x - previous) + sumAbsDiffs x rest'
  end.

Definition calculateJitter (samples : list Z) : Q :=
  match samples with
  | first :: (_ :: _) as rest =>
      (inject_Z (sumAbsDiffs first rest)
       / inject_Z (Z.of_nat (length samples) - 1))%Q
  | _ => 0%Q
  end.

(** The [for] loop of the measurement: a timed request per round, the time
    kept when the request succeeded. *)
Fixpoint sampleHttp (w : World) (proxy : QuantumProxyConfig) (rounds : nat)
    (httpSamples : list Z) : Method (list Z) :=
  match rounds with
  | O => mret httpSamples
  | S rounds' =>
      start ← dateNow w;
      success ← testHTTPConnectivity w proxy;
      finish ← dateNow w;
      let time := finish - start in
      sampleHttp w proxy rounds'
        (if (success : bool) then httpSamples ++ [time] else httpSamples)
  end.

(** The three sub-scores and their rounded mean. *)
Definition stabilityScore (latency jitter packetLoss : Q) : Z :=
  let latencyScore := Qmax 0 (100 - latency / 10) in
  let jitterScore := Qmax 0 (100 - jitter * 10) in
  let lossScore := (100 - packetLoss)%Q in
  round ((latencyScore + jitterScore + lossScore) / 3).

Definition withStability (n : Z) (m : ConnectionMetrics) : ConnectionMetrics :=
  mkMetrics (latency m) (jitter m) (packetLoss m) (bandwidth m) (lastTested m) n.

Definition measureConnectionQuality (w : World) (proxy : QuantumProxyConfig)
  : Method ConnectionMetrics :=
  t ← dateNow w;
  let metrics := mkMetrics 0 0 0 0 t 0 in
  tryCatch
    (tcpStart ← dateNow w;
     tcpSuccess ← testTCPHandshake w proxy;
     tcpEnd ← dateNow w;
     if negb tcpSuccess then mret (withStability 0 metrics)
     else
       httpSamples ← sampleHttp w proxy 5 [];
       if decide (length httpSamples = 0%nat)
       then mret (withStability 10 metrics)
       else
         let latency :=
           (inject_Z (foldr Z.add 0%Z httpSamples)
            / inject_Z (Z.of_nat (length httpSamples)))%Q in
         let jitter := calculateJitter httpSamples in
         let packetLoss :=
           ((5 - inject_Z (Z.of_nat (length httpSamples))) / 5 * 100)%Q in
         mret (mkMetrics latency jitter packetLoss 0 t
                 (stabilityScore latency jitter packetLoss)))
    (fun _ => mret (withStability 0 metrics)).

Fixpoint createConnectionPool_loop (w : World) (proxy : QuantumProxyConfig)
    (remaining : nat) (pool : list Client) : Method (list Client) :=
  match remaining with
  | O => mret pool
  | S remaining' =>
      instance ← createOptimizedAxiosInstance;
      pool' ←
        tryCatch
          (clientGet w instance "http://httpbin.org/status/200";;
           mret (pool ++ [instance]))
          (fun _ => mret pool);
      createConnectionPool_loop w proxy remaining' pool'
  end.

Definition createConnectionPool (w : World) (proxy : QuantumProxyConfig)
    (poolSize : nat) : Method (list Client) :=
  pool ← createConnectionPool_loop w proxy poolSize [];
  logger Debug ("Created connection pool with " +:+ pretty (length pool) +:+
                "/" +:+ pretty poolSize +:+ " instances");;
  mret pool.

Definition testChunkedRequests (w : World) (connection : SmartConnection)
  : Method bool :=
  tryCatch
    (response ← clientGet w (axiosInstance connection)
                   "http://httpbin.org/stream/5";
     mret (status response =? 200))
    (fun _ => mret false).

(** One request of the seeding: how its promise settles. *)
Definition settled (w : World) (client : Client) (url : string)
  : Method (Completion Response) :=
  tryCatch (response ← clientGet w client url; mret (Returns response))
           (fun e => mret (Throws e)).

Definition fulfilled200 (r : Completion Response) : bool :=
  match r with
  | Returns response => status response =? 200
  | Throws _ => false
  end.

Definition performConnectionSeeding (w : World) (connection : SmartConnection)
  : Method bool :=
  tryCatch
    (r1 ← settled w (axiosInstance connection) "http://httpbin.org/status/200";
     r2 ← settled w (axiosInstance connection) "http://httpbin.org/json";
     r3 ← settled w (axiosInstance connection) "http://httpbin.org/headers";
     let successCount := length (filter (fun r => fulfilled200 r = true) [r1; r2; r3]) in
     mret (bool_decide (2 ≤ successCount)%nat))
    (fun _ => mret false).

Definition performQuantumConnectivityTest (w : World)
    (connection : SmartConnection) : Method bool :=
  tryCatch
    (handshakeSuccess ← simulateThreeWayHandshake w (proxy connection);
     if negb handshakeSuccess then mret false
     else
       chunkedSuccess ← testChunkedRequests w connection;
       if negb chunkedSuccess then mret false
       else
         seedingSuccess ← performConnectionSeeding w connection;
         if negb seedingSuccess then mret false else mret true)
    (fun _ => mret false).

(** [Map.prototype.set]: a key already present keeps its place. *)
Fixpoint mapSet {V : Type} (key : string) (v : V) (m : list (string * V))
  : list (string * V) :=
  match m with
  | [] => [(key, v)]
  | (k, x) :: m' =>
      if decide (k = key) then (k, v) :: m' else (k, x) :: mapSet key v m'
  end.

Fixpoint join (sep : string) (l : list string) : string :=
  match l with
  | [] => ""
  | [x] => x
  | x :: l' => x +:+ sep +:+ join sep l'
  end.

Definition establishSecureConnection (w : World) (host : string) (port : Z)
  : Method SecurityMetrics :=
  n ← ask (EstablishSecureConnection host port);
  match audited w n with
  | Returns securityMetrics => mret securityMetrics
  | Throws e => throw e
  end.

Definition errorText (e : Error) : string :=
  match e with
  | TypeError m => "TypeError: " +:+ m
  | PlainError m => "Error: " +:+ m
  | NetworkError _ m => "Error: " +:+ m
  end.

(** The connection object is built before the acceptance test; it enters
    [heap] where the source first stores a reference to it in a field. *)
Definition initializeQuantumConnection (w : World)
    (proxyConfig : QuantumProxyConfig) : Method bool :=
  let connectionKey :=
    protocol proxyConfig +:+ "://" +:+ host proxyConfig +:+ ":" +:+
    pretty (port proxyConfig) in
  tryCatch
    (logger Debug ("Initializing quantum connection for " +:+ connectionKey);;
     s ← get;
     quantumDNSResolve w (targetDomain s);;
     logger Debug "Performing security assessment...";;
     securityMetrics ←
       establishSecureConnection w (host proxyConfig) (port proxyConfig);
     (if securityScore securityMetrics <? 60 then
        logger Warn ("Proxy security score too low (" +:+
                     pretty (securityScore securityMetrics) +:+ "/100)");;
        logger Debug ("Security issues: " +:+
                      join ", " (vulnerabilities securityMetrics))
      else mret tt);;
     metrics ← measureConnectionQuality w proxyConfig;
     axiosInstance ← createSecureOptimizedAxiosInstance;
     lastUsed ← dateNow w;
     s ← get;
     connectionPool ← createConnectionPool w proxyConfig (connectionPoolSize s);
     let connection :=
       mkConnection proxyConfig metrics axiosInstance lastUsed connectionPool
                    (Some securityMetrics) in
     quantumTest ← performQuantumConnectivityTest w connection;
     if negb quantumTest then
       logger LogError ("Quantum connection test failed for " +:+ connectionKey);;
       mret false
     else
       modify (fun s =>
         let ref := length (heap s) in
         withCurrentConnection (Some ref)
           (withConnections (mapSet connectionKey ref (connections s))
              (withHeap (heap s ++ [connection]) s)));;
       logger Success ("Quantum connection established: stability " +:+
                       pretty (stability metrics) +:+ "/100");;
       mret true)
    (fun error =>
       logger LogError ("Quantum connection initialization failed: " +:+
                        errorText error);;
       mret false).

Definition dangling {A : Type} : Method A :=
  throw (TypeError "Cannot read properties of undefined").

Definition withLastUsed (t : Z) (c : SmartConnection) : SmartConnection :=
  mkConnection (proxy c) (metrics c) (axiosInstance c) t (connectionPool c)
               (securityMetrics c).
Definition withConnectionPool (p : list Client) (c : SmartConnection)
  : SmartConnection :=
  mkConnection (proxy c) (metrics c) (axiosInstance c) (lastUsed c) p
               (securityMetrics c).

Definition getOptimizedConnection (w : World) : Method (option Client) :=
  s ← get;
  match currentConnection s with
  | None => mret None
  | Some ref =>
      match heap s !! ref with
      | None => dangling
      | Some current =>
          t ← dateNow w;
          let current := withLastUsed t current in
          match connectionPool current with
          | connection :: rest =>
              modify (fun s =>
                withHeap (<[ref := withConnectionPool (rest ++ [connection])
                                     current]> (heap s)) s);;
              mret (Some connection)
          | [] =>
              modify (fun s => withHeap (<[ref := current]> (heap s)) s);;
              mret (Some (axiosInstance current))
          end
      end
  end.

(** The scan of [connections.values()]: the first connection of the highest
    stability. *)
Fixpoint bestOf (h : list SmartConnection) (entries : list (string * nat))
    (bestConnection : option nat) (bestScore : Z) : option nat * Z :=
  match entries with
  | [] => (bestConnection, bestScore)
  | (_, ref) :: rest =>
      match h !! ref with
      | Some connection =>
          if bestScore <? stability (metrics connection)
          then bestOf h rest (Some ref) (stability (metrics connection))
          else bestOf h rest bestConnection bestScore
      | None => bestOf h rest bestConnection bestScore
      end
  end.

Definition switchToBestProxy : Method bool :=
  s ← get;
  if decide (length (connections s) = 0%nat) then mret false
  else
    let '(bestConnection, bestScore) := bestOf (heap s) (connections s) None (-1) in
    match bestConnection with
    | Some ref =>
        if decide (Some ref ≠ currentConnection s) then
          modify (withCurrentConnection (Some ref));;
          logger Info ("Switched to best proxy: stability " +:+
                       pretty bestScore +:+ "/100");;
          mret true
        else mret false
    | None => mret false
    end.

Definition getConnectionMetrics : Method (option ConnectionMetrics) :=
  s ← get;
  mret (ref ← currentConnection s; metrics <$> heap s !! ref).

Definition getSecurityMetrics : Method (option SecurityMetrics) :=
  s ← get;
  mret (ref ← currentConnection s; c ← heap s !! ref; securityMetrics c).

Record AuditReport : Type := mkReport {
  score : Z;
  reportedVulnerabilities : list string;
  reportedRecommendations : list string;
  riskLevel : string
}.

Definition performSecurityAudit : Method AuditReport :=
  s ← get;
  match currentConnection s with
  | None => throw (PlainError "No active connection to audit")
  | Some ref =>
      match heap s !! ref with
      | None => dangling
      | Some current =>
          match securityMetrics current with
          | None => throw (PlainError "No security metrics available")
          | Some metrics =>
              let riskLevel :=
                if 80 <=? securityScore metrics then "LOW"
                else if 60 <=? securityScore metrics then "MEDIUM"
                else if 40 <=? securityScore metrics then "HIGH"
                else "CRITICAL" in
              mret (mkReport (securityScore metrics) (vulnerabilities metrics)
                             (recommendations metrics) riskLevel)
          end
      end
  end.

(** [clearSecurityCaches] of the collaborator touches none of these fields. *)
Definition cleanup : Method unit :=
  modify (withDnsCache ∅);;
  modify (withConnections []);;
  modify (withCurrentConnection None);;
  logger Debug "Quantum proxy manager cleaned up".

End QuantumProxyManager.

(** * Statements about method bodies *)

Module Hoare.

(** [wp m Q s]: run from [s], the body [m] completes with a result and a
    final state that satisfy [Q]. *)
Definition wp {St A : Type} (m : M St A) (Q : Completion A -> St -> Prop)
    (s : St) : Prop :=
  Q (result m s) (after m s).

(** [keeps R m]: whatever [m] does, the state it leaves is [R]-related to
    the one it started from. *)
Definition keeps {St A : Type} (R : St -> St -> Prop) (m : M St A) : Prop :=
  forall s, R s (after m s).

End Hoare.

(** * Specification vocabulary *)

Module Spec.
Import ProxyManager.

(** [c] occurs in [s]. *)
Fixpoint occurs (c : ascii) (s : string) : bool :=
  match s with
  | "" => false
  | String a s' => if decide (a = c) then true else occurs c s'
  end.

Definition isDecimalDigit (c : ascii) : bool :=
  let n := N_of_ascii c in ((48 <=? n) && (n <=? 57))%N.

(** A numeric port field: decimal digits, at least one. *)
Fixpoint allDecimalDigits (s : string) : bool :=
  match s with
  | "" => true
  | String c s' => isDecimalDigit c && allDecimalDigits s'
  end.

Definition isNumeric (s : string) : bool :=
  truthy s && allDecimalDigits s.

(** The malformed lines of the bare [host:port] form, as the parser tells
    them apart: no colon at all; a port field in which [parseInt] finds no
    number; a port number outside 1..65535. *)
Inductive Malformed (line : string) : Prop :=
| MissingColon :
    occurs ":" line = false -> Malformed line
| PortNotANumber (h f : string) :
    includes "://" line = false ->
    JS.split ":" line = [h; f] ->
    parseInt f = None ->
    Malformed line
| PortOutOfRange (h f : string) (n : Z) :
    includes "://" line = false ->
    JS.split ":" line = [h; f] ->
    parseInt f = Some n ->
    n < 1 \/ 65535 < n ->
    Malformed line.

(** The text of a line break. *)
Definition newline : string := String "010" "".

(** What [pingProxy] gives back for the question asked [n]-th about
    [proxy]: the measured time on a 200 with a body, the sentinel -1 on
    anything else. *)
Definition probeSucceeds (w : World) (n : nat) (proxy : ProxyInfo) : bool :=
  match axiosGet status2xx (replyTo w n proxy) with
  | Returns response => (status response =? 200) && data response
  | Throws _ => false
  end.

Definition probeAnswer (w : World) (n : nat) (proxy : ProxyInfo) : Z :=
  if probeSucceeds w n proxy then elapsed w n else -1.

(** [s'] differs from [s] in the log and in the count of questions at
    most. *)
Definition sameFields (s s' : State) : Prop :=
  proxies s' = proxies s /\ bestProxy s' = bestProxy s /\
  currentProxy s' = currentProxy s /\
  proxyHealthScores s' = proxyHealthScores s /\ options s' = options s.

(** Every probe of the world fails. *)
Definition allProbesFail (w : World) : Prop :=
  forall n proxy, probeAnswer w n proxy <= 0.

(** The ways a stored health score is rewritten. *)
Inductive Delta : Type := Plus10 | Minus5 | Plus1 | Minus2 | Minus3.

Definition applyDelta (d : Delta) (score : Z) : Z :=
  match d with
  | Plus10 => score + 10
  | Minus5 => Z.max 0 (score - 5)
  | Plus1 => score + 1
  | Minus2 => Z.max 0 (score - 2)
  | Minus3 => Z.max 0 (score - 3)
  end.

Definition adjust (d : Delta) (key : string) (scores : gmap string Z)
  : gmap string Z :=
  <[key := applyDelta d (scoreOf scores key)]> scores.

(** [Adjusted allowed m m']: [m'] comes from [m] by rewriting one score
    after the other, each time by a delta that is [allowed]. *)
Inductive Adjusted (allowed : Delta -> Prop)
  : gmap string Z -> gmap string Z -> Prop :=
| adjusted_refl (m : gmap string Z) : Adjusted allowed m m
| adjusted_step (m m' : gmap string Z) (d : Delta) (key : string) :
    allowed d -> Adjusted allowed (adjust d key m) m' ->
    Adjusted allowed m m'.

Definition adjusts (allowed : Delta -> Prop) (s s' : State) : Prop :=
  Adjusted allowed (proxyHealthScores s) (proxyHealthScores s').

Definition anyDelta (d : Delta) : Prop := True.
Definition switchDelta (d : Delta) : Prop := d = Plus10 \/ d = Minus5.
Definition httpDelta (d : Delta) : Prop := d = Plus1 \/ d = Minus2 \/ d = Minus3.

(** No stored score is negative. *)
Definition scoresNonNegative (scores : gmap string Z) : Prop :=
  forall key score, scores !! key = Some score -> 0 <= score.

(** The deltas the specification lists. *)
Definition listedDelta (change : Z) : Prop :=
  change = 10 \/ change = -5 \/ change = -2 \/ change = -3.

End Spec.


(** * Specification vocabulary of the optimizer *)

Module QuantumSpec.
Import QuantumProxyManager.

(** Nothing was registered between [s] and [s']: the same connection
    objects, the same [connections], the same current connection. *)
Definition sameRegistry (s s' : State) : Prop :=
  heap s' = heap s /\ connections s' = connections s /\
  currentConnection s' = currentConnection s.

(** Between [s] and [s'] nothing was registered and questions were asked
    at most. *)
Definition quiet (s s' : State) : Prop :=
  sameRegistry s s' /\ (length (questions s) <= length (questions s'))%nat.

(** No TCP handshake with the relay completes within 3000 ms. *)
Definition handshakeFails (w : World) : Prop :=
  forall n, match connected w n with
            | Some handshakeTime => 3000 <= handshakeTime
            | None => True
            end.

(** [Date.now()] does not run backwards. *)
Definition clockMonotone (w : World) : Prop :=
  forall i j : nat, (i <= j)%nat -> now w i <= now w j.

(** The [n]-th question, a TCP connect, completes within 3000 ms. *)
Definition handshakes (w : World) (n : nat) : bool :=
  match connected w n with
  | Some handshakeTime => handshakeTime <? 3000
  | None => false
  end.

(** The [n]-th question, the request of a sample through the client made
    [c]-th, is answered with a 200. *)
Definition sampleOk (w : World) (n c : nat) : bool :=
  match axiosGet (validateStatus (Optimized c))
          (replied w n (Optimized c) "http://httpbin.org/get") with
  | Returns response => status response =? 200
  | Throws _ => false
  end.

(** The samples of [rounds] rounds that start at question [n] with the
    client made [c]-th: a round reads the clock, asks its request and reads
    the clock again; the difference of the readings is kept when the request
    succeeded. *)
Fixpoint sampled (w : World) (n c rounds : nat) : list Z :=
  match rounds with
  | O => []
  | S rounds' =>
      (if sampleOk w (S n) c then [now w (S (S n)) - now w n] else [])
      ++ sampled w (S (S (S n))) (S c) rounds'
  end.

(** The samples of a measurement that starts in [s]: four questions are
    asked before the first of its five rounds. *)
Definition measured (w : World) (s : State) : list Z :=
  sampled w (length (questions s) + 4) (clients s) 5.

End QuantumSpec.

Module QuantumScenario.
Import QuantumProxyManager.

Definition relay : QuantumProxyConfig :=
  mkConfig "10.0.0.1" 1080 "socks5" None None.

Definition statusEndpoint : string := "http://httpbin.org/status/200".

(** A network on which the name resolves, the audit scores 90, the relay
    connects in 120 ms and every request is answered with a 200, except that
    the endpoint [/status/200] is down; the clock advances 40 ms per
    question. *)
Definition statusDown : World :=
  mkWorld (fun n => Z.of_nat n * 40)
          (fun _ => Returns "203.0.113.7")
          (fun _ => Returns (mkSecurity 90 [] []))
          (fun _ => Some 120)
          (fun _ _ url =>
             if decide (url = statusEndpoint)
             then NetFailure "ECONNRESET" "socket hang up"
             else HttpReply 200 true).

Definition notFound : Error :=
  NetworkError "ENOTFOUND" "getaddrinfo ENOTFOUND act.playcfl.com".

(** The same network with no name service. *)
Definition noNames : World :=
  mkWorld (now statusDown)
          (fun _ => Throws notFound)
          (audited statusDown) (connected statusDown) (replied statusDown).

(** Everything answers. *)
Definition allUp : World :=
  mkWorld (now statusDown) (lookedUp statusDown) (audited statusDown)
          (connected statusDown) (fun _ _ _ => HttpReply 200 true).

(** The relay refuses the TCP connection. *)
Definition relayDown : World :=
  mkWorld (now statusDown) (lookedUp statusDown) (audited statusDown)
          (fun _ => None) (replied statusDown).

(** The relay connects, and every request through it fails. *)
Definition requestsFail : World :=
  mkWorld (now statusDown) (lookedUp statusDown) (audited statusDown)
          (connected statusDown)
          (fun _ _ _ => NetFailure "ECONNRESET" "socket hang up").

(** The clock reads 5000 at every question and there is no name service. *)
Definition lateNoNames : World :=
  mkWorld (fun _ => 5000) (lookedUp noNames) (audited statusDown)
          (connected statusDown) (replied statusDown).

(** Everything answers, and the wall clock is set back by ten seconds
    after the fifth question: it reads 10000 + 40 n up to there and 40 n
    from the sixth on. *)
Definition clockSetBack : World :=
  mkWorld (fun n => if (n <=? 4)%nat then 10000 + Z.of_nat n * 40
                    else Z.of_nat n * 40)
          (lookedUp statusDown) (audited statusDown) (connected statusDown)
          (fun _ _ _ => HttpReply 200 true).

Definition fresh : State := construct "act.playcfl.com".

(** A manager whose current connection carries an audit snapshot of score
    72. *)
Definition audited72 : State :=
  withCurrentConnection (Some 0%nat)
    (withConnections [("socks5://10.0.0.1:1080", 0%nat)]
       (withHeap
          [mkConnection relay (mkMetrics 0 0 0 0 0 97) (SecureOptimized 0) 0 []
             (Some (mkSecurity 72 ["weak cipher"] ["rotate certificate"]))]
          fresh)).

(** A manager that resolved the target name to an address good until
    clock reading 1000. *)
Definition cachedUntil1000 : State :=
  withDnsCache {[ "act.playcfl.com" := mkDns "203.0.113.7" 1000 ]} fresh.

End QuantumScenario.

(** * Concrete pools and worlds *)

Module Scenario.
Import ProxyManager.

(** A platform on which no string is a URL. *)
Definition noURL : string -> Completion URL :=
  fun _ => Throws (TypeError "Invalid URL").

Definition relayA : ProxyInfo := mkProxy "10.0.0.1" 8080 "socks5" None.
Definition relayB : ProxyInfo := mkProxy "10.0.0.2" 1080 "socks5" None.

Definition defaults : Options :=
  mkOptions 4 ""
    ["https://raw.githubusercontent.com/TheSpeedX/SOCKS-List/master/socks5.txt"]
    ["https://raw.githubusercontent.com/TheSpeedX/SOCKS-List/master/socks4.txt"]
    5.

(** A world that leaves arrays in their order and accepts every TCP
    connection; the replies and the timings are given. *)
Definition world (reply : nat -> ProxyInfo -> Reply) (time : nat -> Z) : World :=
  mkWorld noURL FileMissing
    (fun _ => Throws (NetworkError "ENOTFOUND" "getaddrinfo ENOTFOUND"))
    (fun _ l => l) (fun _ l => Permutation_refl l)
    reply time (fun _ _ => true).

(** Every request is refused. *)
Definition deadWorld : World :=
  world (fun _ _ => NetFailure "ECONNREFUSED" "connect ECONNREFUSED")
        (fun _ => 12).

(** Every request is answered with a 200 and a body after [ms]
    milliseconds. *)
Definition liveWorld (ms : Z) : World :=
  world (fun _ _ => HttpReply 200 true) (fun _ => ms).

Definition twoRelays : State := withProxies [relayA; relayB] (construct defaults).

Definition onRelayA : State := withCurrentProxy (Some relayA) twoRelays.

(** [relayA] is current and has the score 1. *)
Definition scoredOne : State :=
  withScores {[ "10.0.0.1:8080" := 1 ]} onRelayA.

(** Requests through [relayB] are answered after 200 ms, the others are
    refused. *)
Definition onlyRelayBAnswers : World :=
  world (fun _ proxy =>
           if decide (host proxy = "10.0.0.2") then HttpReply 200 true
           else NetFailure "ECONNREFUSED" "connect ECONNREFUSED")
        (fun _ => 200).

(** The two relays, in a manager that tests one relay per selection. *)
Definition testsOne : State :=
  withProxies [relayA; relayB] (construct (mkOptions 4 "" [] [] 1)).

End Scenario.
(** * Further vocabulary for the relay pool *)

Module PoolSpec.
Import ProxyManager Spec.

(** What the parser lets into the pool: a host that is not empty and a port
    of 1..65535. *)
Definition validRelay (p : ProxyInfo) : Prop :=
  host p ≠ "" /\ 1 <= port p <= 65535.

(** The descriptors [findBestProxy] keeps of the relays it tests: the
    relays probed from question [n] on whose probe took a positive time, each
    with that time, in the order of the probes. *)
Fixpoint probed (w : World) (n : nat) (tested : list ProxyInfo)
  : list ProxyInfo :=
  match tested with
  | [] => []
  | p :: rest =>
      (if 0 <? probeAnswer w n p
       then [withResponseTime p (probeAnswer w n p)]
       else [])
      ++ probed w (S n) rest
  end.

(** The relays [findBestProxy] tests from the state [s]. *)
Definition tested (w : World) (s : State) : list ProxyInfo :=
  take (Z.to_nat (Z.min (testCount (options s))
                        (Z.of_nat (length (proxies s)))))
       (shuffled w (asked s) (proxies s)).

(** [a.responseTime || 99999] *)
Definition rankLatency (p : ProxyInfo) : Z :=
  match responseTime p with
  | Some t => if t =? 0 then 99999 else t
  | None => 99999
  end.

(** [a] is ranked no later than [b] among the candidates of a switch: a
    higher health score, or the same score and a latency that is not
    higher. *)
Definition ranksBefore (scores : gmap string Z) (a b : ProxyInfo) : Prop :=
  scoreOf scores (proxyKey b) < scoreOf scores (proxyKey a) \/
  (scoreOf scores (proxyKey a) = scoreOf scores (proxyKey b) /\
   rankLatency a <= rankLatency b).

(** [s'] has the pool, the best relay, the current relay and the options
    of [s]: scores, log and questions may differ. *)
Definition sameSelection (s s' : State) : Prop :=
  proxies s' = proxies s /\ bestProxy s' = bestProxy s /\
  currentProxy s' = currentProxy s /\ options s' = options s.

(** The answer of the HTTP-level check to a reply. *)
Definition httpOk (r : Reply) : bool :=
  match r with
  | HttpReply st _ => st <? 400
  | NetFailure _ _ => false
  end.

End PoolSpec.

(** * Vocabulary for the rewrites of health scores *)

Module ScoreSpec.
Import ProxyManager Spec PoolSpec.

(** The scores after the rewrites of [trace], made one after the other:
    each replaces the score stored under its key (0 when none is stored) by
    its delta of that score. *)
Definition applyAll (trace : list (string * Delta)) (scores : gmap string Z)
  : gmap string Z :=
  foldl (fun m r => adjust r.2 r.1 m) scores trace.

(** The candidates of a switch from [s]: the three best ranked relays of
    the pool whose key is not the key of the current relay. *)
Definition candidates (s : State) : list ProxyInfo :=
  take 3
    (JS.sort (byHealth (proxyHealthScores s))
       (filter (fun p => Some (proxyKey p) ≠ proxyKey <$> currentProxy s)
          (proxies s))).

(** The rewrites of a switch that probes [candidates] from question [n]
    on: 5 off the score of each candidate whose probe is rejected, until a
    probe is accepted (a positive time below 8000 ms), which adds 10 to the
    score of its candidate and ends the switch. *)
Fixpoint switchTrace (w : World) (n : nat) (candidates : list ProxyInfo)
  : list (string * Delta) :=
  match candidates with
  | [] => []
  | candidate :: rest =>
      if (0 <? probeAnswer w n candidate) && (probeAnswer w n candidate <? 8000)
      then [(proxyKey candidate, Plus10)]
      else (proxyKey candidate, Minus5) :: switchTrace w (S n) rest
  end.

(** The rewrite of an HTTP-level check of [proxy] asked as question [n]. *)
Definition httpTrace (w : World) (n : nat) (proxy : ProxyInfo)
  : list (string * Delta) :=
  [(proxyKey proxy, if httpOk (replyTo w n proxy) then Plus1 else Minus3)].

(** The deltas that are ever applied. *)
Definition appliedDelta (d : Delta) : Prop :=
  d = Plus10 \/ d = Minus5 \/ d = Plus1 \/ d = Minus3.

(** Between [s] and [s'] the scores were rewritten by applied deltas only,
    not more often than questions were asked. *)
Definition rewrites (s s' : State) : Prop :=
  (asked s <= asked s')%nat /\
  exists trace,
    (length trace <= asked s' - asked s)%nat /\
    Forall (fun r => appliedDelta r.2) trace /\
    proxyHealthScores s' = applyAll trace (proxyHealthScores s).

End ScoreSpec.

(** * Further vocabulary for the optimizer *)

Module RegistrySpec.
Import QuantumProxyManager QuantumSpec.

(** [n] calls of [getOptimizedConnection] one after the other, with what
    they returned. *)
Fixpoint handOut (w : World) (n : nat) : Method (list (option Client)) :=
  match n with
  | O => mret []
  | S n' =>
      c ← getOptimizedConnection w;
      cs ← handOut w n';
      mret (c :: cs)
  end.

(** The key under which [initializeQuantumConnection] registers a relay. *)
Definition connectionKey (proxyConfig : QuantumProxyConfig) : string :=
  protocol proxyConfig +:+ "://" +:+ host proxyConfig +:+ ":" +:+
  pretty (port proxyConfig).

(** The registry is well formed: no key is registered twice, every
    registered reference and the current one point to a connection object,
    the current connection is a registered one, and every connection object
    carries an audit snapshot. *)
Definition wellFormed (s : State) : Prop :=
  NoDup (connections s).*1 /\
  Forall (fun entry => is_Some (heap s !! entry.2)) (connections s) /\
  (forall ref, currentConnection s = Some ref -> ref ∈ (connections s).*2) /\
  Forall (fun connection => is_Some (securityMetrics connection)) (heap s).

(** The public methods that read or write the registry. *)
Inductive Call : Type :=
| InitializeQuantumConnection (proxyConfig : QuantumProxyConfig)
| GetOptimizedConnection
| SwitchToBestProxy
| GetConnectionMetrics
| GetSecurityMetrics
| PerformSecurityAudit
| Cleanup.

Definition perform (w : World) (c : Call) (s : State) : State :=
  match c with
  | InitializeQuantumConnection proxyConfig =>
      after (initializeQuantumConnection w proxyConfig) s
  | GetOptimizedConnection => after (getOptimizedConnection w) s
  | SwitchToBestProxy => after switchToBestProxy s
  | GetConnectionMetrics => after getConnectionMetrics s
  | GetSecurityMetrics => after getSecurityMetrics s
  | PerformSecurityAudit => after performSecurityAudit s
  | Cleanup => after cleanup s
  end.

Definition performAll (w : World) (calls : list Call) (s : State) : State :=
  foldl (fun s c => perform w c s) s calls.

(** How a call of [initializeQuantumConnection] from [s] may end: with
    [false] and nothing registered, or with [true] and a new connection
    object for the relay, which carries an audit snapshot, is registered
    under the key of the relay and is current. *)
Definition registers (proxyConfig : QuantumProxyConfig) (s : State)
    (c : Completion bool) (s' : State) : Prop :=
  (c = Returns false /\ quiet s s') \/
  (c = Returns true /\
   exists connection,
     proxy connection = proxyConfig /\
     is_Some (securityMetrics connection) /\
     heap s' = heap s ++ [connection] /\
     connections s'
     = mapSet (connectionKey proxyConfig) (length (heap s)) (connections s) /\
     currentConnection s' = Some (length (heap s))).

(** The clients [createConnectionPool] keeps: of the [n] clients it
    creates from the client number [c] on, while asking from the question
    number [q] on, those whose request to the status endpoint was answered
    with a status of 200..299. *)
Fixpoint validated (w : World) (q c : nat) (n : nat) : list Client :=
  match n with
  | O => []
  | S n' =>
      match axiosGet status2xx
              (replied w q (Optimized c) "http://httpbin.org/status/200") with
      | Returns _ => [Optimized c]
      | Throws _ => []
      end ++ validated w (S q) (S c) n'
  end.

(** The request asked as question [n] through [client] is answered with
    the status 200. *)
Definition answers200 (w : World) (n : nat) (client : Client) (url : string)
  : bool :=
  fulfilled200 (axiosGet (validateStatus client) (replied w n client url)).

(** The three stages of the acceptance test, asked from question [n] on: a
    handshake in less than 3000 ms, the streamed request answered with 200,
    and two at least of the three seeding requests answered with 200. *)
Definition handshakeStage (w : World) (n : nat) : bool :=
  match connected w n with
  | Some handshakeTime => handshakeTime <? 3000
  | None => false
  end.

Definition chunkedStage (w : World) (n : nat) (connection : SmartConnection)
  : bool :=
  answers200 w (S n) (axiosInstance connection) "http://httpbin.org/stream/5".

Definition seedingStage (w : World) (n : nat) (connection : SmartConnection)
  : bool :=
  bool_decide
    (2 <= length
            (filter (fun answered => answered = true)
               [answers200 w (S (S n)) (axiosInstance connection)
                  "http://httpbin.org/status/200";
                answers200 w (S (S (S n))) (axiosInstance connection)
                  "http://httpbin.org/json";
                answers200 w (S (S (S (S n)))) (axiosInstance connection)
                  "http://httpbin.org/headers"]))%nat.

(** The stability of the connection object a reference points to. *)
Definition stabilityAt (s : State) (ref : nat) : option Z :=
  stability ∘ metrics <$> heap s !! ref.

End RegistrySpec.

Module RegistryScenario.
Import QuantumProxyManager QuantumScenario.

Definition relay2 : QuantumProxyConfig :=
  mkConfig "10.0.0.2" 1080 "socks5" None None.

(** A manager whose current connection has a pool of three clients. *)
Definition pooled : State :=
  withCurrentConnection (Some 0%nat)
    (withConnections [("socks5://10.0.0.1:1080", 0%nat)]
       (withHeap
          [mkConnection relay (mkMetrics 0 0 0 0 0 97) (SecureOptimized 0) 0
             [Optimized 1; Optimized 2; Optimized 3]
             (Some (mkSecurity 90 [] []))]
          fresh)).

(** Two registered connections, of stability 60 and 85; the first is
    current. *)
Definition twoRegistered : State :=
  withCurrentConnection (Some 0%nat)
    (withConnections [("socks5://10.0.0.1:1080", 0%nat);
                      ("socks5://10.0.0.2:1080", 1%nat)]
       (withHeap
          [mkConnection relay (mkMetrics 0 0 0 0 0 60) (SecureOptimized 0) 0 []
             (Some (mkSecurity 90 [] []));
           mkConnection relay2 (mkMetrics 0 0 0 0 0 85) (SecureOptimized 1) 0 []
             (Some (mkSecurity 90 [] []))]
          fresh)).

End RegistryScenario.

(** * The keep-alive timers *)

(** The two managers start and stop an interval timer of the platform with
    the same discipline but for one step.  [running] holds the handles of
    the timers of a manager that tick, [created] counts the handles the
    platform gave out; the manager keeps one handle in its field
    [keepAliveInterval].  A tick of the timer is the call
    [performAggressiveKeepAlivePing]; the lines written to the logger are
    left out. *)
Module KeepAliveTimers.

Record Timers : Type := mkTimers {
  keepAliveInterval : option nat;
  running : list nat;
  created : nat
}.

Definition withKeepAliveInterval (h : option nat) (t : Timers) : Timers :=
  mkTimers h (running t) (created t).

(** [setInterval(callback, ms)]: a new handle, whose timer ticks. *)
Definition setInterval (t : Timers) : nat * Timers :=
  (created t,
   mkTimers (keepAliveInterval t) (running t ++ [created t]) (S (created t))).

(** [clearInterval(handle)] *)
Definition clearInterval (handle : nat) (t : Timers) : Timers :=
  mkTimers (keepAliveInterval t) (filter (fun h => h ≠ handle) (running t))
           (created t).

Definition construct : Timers := mkTimers None [] 0.

(** [ProxyManager.startKeepAlive] *)
Definition startKeepAlive (keepAliveEnabled : bool) (t : Timers) : Timers :=
  if negb keepAliveEnabled || bool_decide (is_Some (keepAliveInterval t))
  then t
  else
    let '(handle, t) := setInterval t in
    withKeepAliveInterval (Some handle) t.

(** [stopKeepAlive], the same text in both managers. *)
Definition stopKeepAlive (t : Timers) : Timers :=
  match keepAliveInterval t with
  | Some handle => withKeepAliveInterval None (clearInterval handle t)
  | None => t
  end.

(** [QuantumProxyManager.startKeepAlive] *)
Definition quantumStartKeepAlive (t : Timers) : Timers :=
  let t :=
    match keepAliveInterval t with
    | Some handle => clearInterval handle t
    | None => t
    end in
  let '(handle, t) := setInterval t in
  withKeepAliveInterval (Some handle) t.

Inductive Call : Type := StartKeepAlive | StopKeepAlive.

Definition perform (keepAliveEnabled : bool) (t : Timers) (c : Call) : Timers :=
  match c with
  | StartKeepAlive => startKeepAlive keepAliveEnabled t
  | StopKeepAlive => stopKeepAlive t
  end.

Definition quantumPerform (t : Timers) (c : Call) : Timers :=
  match c with
  | StartKeepAlive => quantumStartKeepAlive t
  | StopKeepAlive => stopKeepAlive t
  end.

(** The timer that ticks is the one whose handle the manager holds, and
    there is no other. *)
Definition oneTimer (t : Timers) : Prop :=
  running t = option_list (keepAliveInterval t) /\
  match keepAliveInterval t with
  | Some handle => (handle < created t)%nat
  | None => True
  end.

End KeepAliveTimers.

(** * Facts about the JavaScript primitives *)

Module JSFacts.
Import Spec.

Lemma startsWith_occurs (c : ascii) (pre s : string) :
  occurs c s = false -> startsWith (String c pre) s = false.
Proof.
  destruct s as [|a s]; simpl; [done|].
  destruct (decide (a = c)) as [->|Hne]; [done|].
  intros _. destruct (decide (c = a)); [congruence|done].
Qed.

Lemma includes_occurs (c : ascii) (pre s : string) :
  occurs c s = false -> includes (String c pre) s = false.
Proof.
  induction s as [|a s IH]; intros Hs.
  - done.
  - cbn [includes]. rewrite (startsWith_occurs _ _ _ Hs).
    simpl in Hs. destruct (decide (a = c)); [done|]. by apply IH.
Qed.

Lemma occurs_app (c : ascii) (a b : string) :
  occurs c (a +:+ b) = occurs c a || occurs c b.
Proof.
  induction a as [|x a IH]; simpl; [done|].
  destruct (decide (x = c)); [done|]. apply IH.
Qed.

Lemma split_nonempty (sep : ascii) (s : string) : JS.split sep s ≠ [].
Proof.
  induction s as [|c s IH]; simpl; [done|].
  destruct (decide (c = sep)); [done|]. by destruct (JS.split sep s).
Qed.

Lemma split_occurs (sep : ascii) (s : string) :
  occurs sep s = false -> JS.split sep s = [s].
Proof.
  induction s as [|c s IH]; simpl; [done|].
  destruct (decide (c = sep)); [done|]. intros Hs. by rewrite IH.
Qed.

Lemma split_app (sep : ascii) (a b : string) :
  JS.split sep (a +:+ String sep b) = JS.split sep a ++ JS.split sep b.
Proof.
  induction a as [|c a IH]; simpl.
  - by destruct (decide (sep = sep)).
  - destruct (decide (c = sep)); [by rewrite IH|].
    rewrite IH. pose proof (split_nonempty sep a).
    by destruct (JS.split sep a).
Qed.

(** A line whose only colon separates a colon-free host from a colon-free
    port field is not taken for a URL and splits in two. *)
Lemma includes_scheme_host_port (h f : string) :
  occurs ":" h = false -> occurs ":" f = false ->
  startsWith "//" f = false ->
  includes "://" (h +:+ String ":" f) = false.
Proof.
  intros Hh Hf Hslash. induction h as [|c h IH]; simpl in *.
  - rewrite Hslash. simpl. by apply includes_occurs.
  - destruct (decide (c = ":"%char)); [done|].
    destruct (decide (":"%char = c)); [congruence|]. simpl. by apply IH.
Qed.

Lemma split_host_port (h f : string) :
  occurs ":" h = false -> occurs ":" f = false ->
  JS.split ":" (h +:+ String ":" f) = [h; f].
Proof.
  intros Hh Hf. by rewrite split_app, !split_occurs.
Qed.

Lemma digitValue_decimal (c : ascii) :
  isDecimalDigit c = true ->
  digitValue 10 c = Some (Z.of_N (N_of_ascii c) - 48).
Proof.
  unfold isDecimalDigit, digitValue. intros H.
  apply andb_true_iff in H as [H1 H2].
  apply N.leb_le in H1. apply N.leb_le in H2.
  assert ((48 <=? Z.of_N (N_of_ascii c)) = true) as -> by (apply Z.leb_le; lia).
  assert ((Z.of_N (N_of_ascii c) <=? 57) = true) as -> by (apply Z.leb_le; lia).
  simpl. assert ((Z.of_N (N_of_ascii c) - 48 <? 10) = true) as ->; [|done].
  apply Z.ltb_lt. lia.
Qed.

Lemma decimalDigit_plain (c : ascii) :
  isDecimalDigit c = true ->
  isWhiteSpace c = false /\ c ≠ "-"%char /\ c ≠ "+"%char /\
  c ≠ "x"%char /\ c ≠ "X"%char /\ c ≠ ":"%char /\ c ≠ "/"%char.
Proof.
  destruct c as [[] [] [] [] [] [] [] []]; vm_compute; intros; try done;
    repeat split; congruence.
Qed.

(** On a numeric text [parseInt] is the plain decimal reading. *)
Lemma parseInt_numeric (s : string) :
  isNumeric s = true -> parseInt s = scanDigits 10 None s.
Proof.
  destruct s as [|c s]; [done|]. intros Hcs.
  assert (isDecimalDigit c && allDecimalDigits s = true) as Hc by exact Hcs.
  clear Hcs.
  transitivity ((fun n => 1 * n) <$> scanDigits 10 None (String c s)).
  - unfold parseInt.
    destruct c as [[] [] [] [] [] [] [] []]; try discriminate Hc; try reflexivity.
    destruct s as [|d s]; [reflexivity|]. simpl in Hc.
    apply andb_true_iff in Hc as [Hd _].
    destruct d as [[] [] [] [] [] [] [] []]; try discriminate Hd; reflexivity.
  - generalize (scanDigits 10 None (String c s)).
    intros [n|]; cbn; [f_equal; lia|done].
Qed.

Lemma pretty_N_char_digit (x : N) :
  (x < 10)%N ->
  isDecimalDigit (pretty_N_char x) = true /\
  Z.of_N (N_of_ascii (pretty_N_char x)) - 48 = Z.of_N x.
Proof.
  intros Hx.
  assert (x = 0 \/ x = 1 \/ x = 2 \/ x = 3 \/ x = 4 \/ x = 5 \/ x = 6 \/
          x = 7 \/ x = 8 \/ x = 9)%N as H by lia.
  destruct H as [->|[->|[->|[->|[->|[->|[->|[->|[->| ->]]]]]]]]]; by vm_compute.
Qed.

Lemma pretty_N_go_digits (x : N) (s : string) :
  allDecimalDigits s = true -> allDecimalDigits (pretty_N_go x s) = true.
Proof.
  revert s. induction (N.lt_wf_0 x) as [x _ IH]; intros s Hs.
  destruct (decide (x = 0%N)) as [->|Hx]; [by rewrite pretty_N_go_0|].
  rewrite pretty_N_go_step by lia.
  apply IH; [apply N.div_lt; lia|]. simpl. rewrite Hs, andb_true_r.
  apply pretty_N_char_digit, N.mod_lt. lia.
Qed.

Lemma scanDigits_pretty_N_go (x : N) (s : string) :
  (0 < x)%N ->
  scanDigits 10 None (pretty_N_go x s) = scanDigits 10 (Some (Z.of_N x)) s.
Proof.
  revert s. induction (N.lt_wf_0 x) as [x _ IH]; intros s Hx.
  rewrite pretty_N_go_step by done.
  assert (x `mod` 10 < 10)%N as Hm by (apply N.mod_lt; lia).
  destruct (pretty_N_char_digit _ Hm) as [Hd Hv].
  assert (Z.of_N x = Z.of_N (x `div` 10) * 10 + Z.of_N (x `mod` 10)) as Hx10.
  { assert (forall q r : N, x = (10 * q + r)%N ->
              Z.of_N x = Z.of_N q * 10 + Z.of_N r) as Hqr by (intros; lia).
    apply Hqr, N.div_mod. lia. }
  destruct (decide (x `div` 10 = 0)%N) as [Hq|Hq].
  - rewrite Hq, pretty_N_go_0. cbn [scanDigits].
    rewrite (digitValue_decimal _ Hd), Hv. simpl. rewrite Hx10, Hq. done.
  - rewrite IH; [|apply N.div_lt; lia|lia]. cbn [scanDigits].
    rewrite (digitValue_decimal _ Hd), Hv. simpl. by rewrite Hx10.
Qed.

Lemma pretty_N_go_nonempty (x : N) (s : string) :
  (0 < x)%N -> pretty_N_go x s ≠ "".
Proof.
  revert s. induction (N.lt_wf_0 x) as [x _ IH]; intros s Hx.
  rewrite pretty_N_go_step by done.
  destruct (decide (x `div` 10 = 0)%N) as [Hq|Hq].
  - by rewrite Hq, pretty_N_go_0.
  - apply IH; [apply N.div_lt; lia|by apply N.neq_0_lt_0].
Qed.

(** The decimal text of a positive port is numeric and reads back. *)
Lemma pretty_port_numeric (p : Z) : 0 < p -> isNumeric (pretty p) = true.
Proof.
  destruct p as [|p|p]; try lia. intros _.
  unfold pretty, pretty_Z, pretty, pretty_positive, pretty, pretty_N.
  destruct (decide (N.pos p = 0%N)); [done|].
  unfold isNumeric. rewrite pretty_N_go_digits by done.
  pose proof (pretty_N_go_nonempty (N.pos p) "") as Hne.
  destruct (pretty_N_go (N.pos p) ""); [by destruct Hne; [lia|]|done].
Qed.

Lemma parseInt_pretty (p : Z) : 0 < p -> parseInt (pretty p) = Some p.
Proof.
  intros Hp. rewrite parseInt_numeric by by apply pretty_port_numeric.
  destruct p as [|p|p]; try lia.
  unfold pretty, pretty_Z, pretty, pretty_positive, pretty, pretty_N.
  destruct (decide (N.pos p = 0%N)); [done|].
  by rewrite scanDigits_pretty_N_go by lia.
Qed.

Lemma numeric_plain (s : string) :
  allDecimalDigits s = true ->
  occurs ":" s = false /\ startsWith "//" s = false.
Proof.
  induction s as [|c s IH]; simpl; [done|].
  intros [Hc Hs]%andb_true_iff.
  destruct (decimalDigit_plain c Hc) as (_ & _ & _ & _ & _ & Hcolon & Hslash).
  destruct (decide (c = ":"%char)); [done|].
  destruct (decide ("/"%char = c)); [congruence|]. split; [by apply IH|done].
Qed.

End JSFacts.

(** * Facts about binary64 numbers *)

Module FloatFacts.
Import Float64.

Lemma shr_1_nonneg (mrs : shr_record) :
  0 <= shr_m mrs -> 0 <= shr_m (shr_1 mrs).
Proof. destruct mrs as [[|[p|p|]|[p|p|]] r s]; simpl; lia. Qed.

Lemma iter_shr_1_nonneg (n : positive) (mrs : shr_record) :
  0 <= shr_m mrs -> 0 <= shr_m (SpecFloat.iter_pos shr_1 n mrs).
Proof.
  revert mrs. induction n as [n IH|n IH|]; intros mrs H; simpl.
  - apply IH, IH, shr_1_nonneg, H.
  - apply IH, IH, H.
  - apply shr_1_nonneg, H.
Qed.

Lemma shr_nonneg (mrs : shr_record) (e n : Z) :
  0 <= shr_m mrs -> 0 <= shr_m (shr mrs e n).1.
Proof.
  intros H. unfold shr. destruct n; simpl; [done| |done].
  by apply iter_shr_1_nonneg.
Qed.

Lemma shr_fexp_nonneg (m e : Z) (l : location) :
  0 <= m -> 0 <= shr_m (shr_fexp prec emax m e l).1.
Proof.
  intros H. unfold shr_fexp. apply shr_nonneg.
  by destruct l as [|[| |]].
Qed.

(** Rounding a mantissa that is not negative gives no NaN. *)
Lemma binary_round_aux_not_nan (sx : bool) (mx ex : Z) (lx : location) :
  0 <= mx -> isNaN (binary_round_aux prec emax sx mx ex lx) = false.
Proof.
  intros H. unfold binary_round_aux.
  pose proof (shr_fexp_nonneg mx ex lx H) as H1.
  destruct (shr_fexp prec emax mx ex lx) as [mrs' e']. simpl in H1.
  assert (0 <= round_nearest_even (shr_m mrs') (loc_of_shr_record mrs')) as H2.
  { unfold round_nearest_even.
    destruct (loc_of_shr_record mrs') as [|[| |]]; [done| |done|lia].
    destruct (Z.even _); lia. }
  pose proof (shr_fexp_nonneg _ e' loc_Exact H2) as H3.
  destruct (shr_fexp prec emax _ e' loc_Exact) as [mrs'' e'']. simpl in H3.
  destruct (shr_m mrs'') as [|m|m]; [done| |lia].
  by destruct (e'' <=? _).
Qed.

Lemma ofZ_not_nan (z : Z) : isNaN (ofZ z) = false.
Proof.
  unfold ofZ, binary_normalize. destruct z as [|p|p]; [done| |];
    unfold binary_round;
    destruct (shl_align _ _ _) as [mz ez];
    by apply binary_round_aux_not_nan.
Qed.

(** The quotient of a Number that is not NaN by a finite Number that is not
    zero is not NaN. *)
Lemma div_not_nan (x : Number) (sy : bool) (my : positive) (ey : Z) :
  isNaN x = false -> isNaN (div x (S754_finite sy my ey)) = false.
Proof.
  intros Hx. destruct x as [sx|sx| |sx mx ex]; [done|done|done|].
  unfold div, SFdiv, SFdiv_core_binary.
  set (m' := match _ with Zpos _ => _ | Z0 => _ | Zneg _ => _ end).
  assert (0 <= m') as Hm'.
  { subst m'. destruct (_ - _ - _) as [|s|s]; [lia| |lia].
    apply Z.shiftl_nonneg. lia. }
  pose proof (Z_div_mod m' (Zpos my) ltac:(lia)) as Hdiv.
  destruct (Z.div_eucl m' (Z.pos my)) as [q r].
  apply binary_round_aux_not_nan. nia.
Qed.

Lemma SFcompare_antisym (x y : Number) :
  SFcompare y x = CompOpp <$> SFcompare x y.
Proof.
  destruct x as [sx|sx| |sx mx ex], y as [sy|sy| |sy my ey]; simpl;
    try reflexivity;
    try (destruct sx; reflexivity); try (destruct sy; reflexivity);
    try (destruct sx, sy; reflexivity).
  pose proof (Pos.compare_cont_antisym mx my Eq) as Hm. simpl in Hm.
  f_equal. rewrite (Z.compare_antisym ex ey).
  destruct sx, sy; try reflexivity;
    destruct (ex ?= ey); simpl; try reflexivity.
  - by rewrite <- Hm.
  - by rewrite Hm.
Qed.

(** [Math.max(1, Math.min(3, y))] of a [y] that is not NaN lies between 1
    and 3. *)
Lemma clamp_between (y : Number) :
  isNaN y = false ->
  leb (ofZ 1) (max (ofZ 1) (min (ofZ 3) y)) = true /\
  leb (max (ofZ 1) (min (ofZ 3) y)) (ofZ 3) = true.
Proof.
  intros Hy. unfold leb.
  assert (exists c, SFcompare (ofZ 3) y = Some c) as [c Hc].
  { destruct y; try done; by eexists. }
  pose proof (SFcompare_antisym (ofZ 3) y) as Hanti. rewrite Hc in Hanti.
  assert (min (ofZ 3) y = ofZ 3 \/
          (min (ofZ 3) y = y /\ SFleb y (ofZ 3) = true)) as Hmin.
  { unfold min. rewrite Hc. destruct c.
    - right. split; [done|]. unfold SFleb. by rewrite Hanti.
    - by left.
    - right. split; [done|]. unfold SFleb. by rewrite Hanti. }
  destruct Hmin as [->|[-> Hle]]; [by vm_compute|].
  assert (exists d, SFcompare (ofZ 1) y = Some d) as [d Hd].
  { destruct y; try done; by eexists. }
  unfold max. rewrite Hd. destruct d.
  - change (isNegative (ofZ 1)) with false. cbn iota. by vm_compute.
  - split; [|done]. unfold SFleb. by rewrite Hd.
  - by vm_compute.
Qed.

End FloatFacts.

(** * Reasoning about method bodies *)

Module MethodFacts.
Export Hoare.

Section Methods.

Context {St : Type}.

Lemma wp_ret {A : Type} (a : A) (Q : Completion A -> St -> Prop) (s : St) :
  Q (Returns a) s -> wp (mret a) Q s.
Proof. done. Qed.

Lemma wp_throw {A : Type} (e : Error) (Q : Completion A -> St -> Prop) (s : St) :
  Q (Throws e) s -> wp (throw e) Q s.
Proof. done. Qed.

Lemma wp_get (Q : Completion St -> St -> Prop) (s : St) :
  Q (Returns s) s -> wp get Q s.
Proof. done. Qed.

Lemma wp_modify (f : St -> St) (Q : Completion unit -> St -> Prop) (s : St) :
  Q (Returns tt) (f s) -> wp (modify f) Q s.
Proof. done. Qed.

Lemma wp_bind {A B : Type} (m : M St A) (k : A -> M St B)
    (Q : Completion B -> St -> Prop) (s : St) :
  wp m (fun r s1 =>
          match r with
          | Returns a => wp (k a) Q s1
          | Throws e => Q (Throws e) s1
          end) s ->
  wp (m ≫= k) Q s.
Proof.
  unfold wp, result, after, mbind, M_bind.
  by destruct (m s) as [[a|e] s1].
Qed.

Lemma wp_tryCatch {A : Type} (body : M St A) (handler : Error -> M St A)
    (Q : Completion A -> St -> Prop) (s : St) :
  wp body (fun r s1 =>
             match r with
             | Returns a => Q (Returns a) s1
             | Throws e => wp (handler e) Q s1
             end) s ->
  wp (tryCatch body handler) Q s.
Proof.
  unfold wp, result, after, tryCatch.
  by destruct (body s) as [[a|e] s1].
Qed.

(** A body wrapped in a handler that returns does not throw. *)
Lemma tryCatch_returns {A : Type} (body : M St A) (a0 : A) (s : St) :
  exists a, result (tryCatch body (fun _ => mret a0)) s = Returns a.
Proof.
  unfold result, tryCatch. destruct (body s) as [[a|e] s1]; simpl; eauto.
Qed.

Lemma wp_mono {A : Type} (m : M St A) (Q Q' : Completion A -> St -> Prop)
    (s : St) :
  wp m Q s -> (forall r s', Q r s' -> Q' r s') -> wp m Q' s.
Proof. unfold wp. auto. Qed.

Lemma wp_keeps {A : Type} (R : St -> St -> Prop) (m : M St A)
    (Q : Completion A -> St -> Prop) (s : St) :
  keeps R m -> (forall r s', R s s' -> Q r s') -> wp m Q s.
Proof. unfold wp, keeps. auto. Qed.

Section Keeps.

Context (R : St -> St -> Prop) `{!PreOrder R}.

Lemma keeps_ret {A : Type} (a : A) : keeps R (mret a).
Proof. intros s. apply reflexivity. Qed.

Lemma keeps_throw {A : Type} (e : Error) : keeps R (throw (A:=A) e).
Proof. intros s. apply reflexivity. Qed.

Lemma keeps_get : keeps R get.
Proof. intros s. apply reflexivity. Qed.

Lemma keeps_modify (f : St -> St) : (forall s, R s (f s)) -> keeps R (modify f).
Proof. intros H s. apply H. Qed.

Lemma keeps_bind {A B : Type} (m : M St A) (k : A -> M St B) :
  keeps R m -> (forall a, keeps R (k a)) -> keeps R (m ≫= k).
Proof.
  intros Hm Hk s. specialize (Hm s). revert Hm.
  unfold after, mbind, M_bind. destruct (m s) as [[a|e] s1]; simpl; [|done].
  intros Hs1. etransitivity; [exact Hs1|]. apply Hk.
Qed.

Lemma keeps_tryCatch {A : Type} (body : M St A) (handler : Error -> M St A) :
  keeps R body -> (forall e, keeps R (handler e)) ->
  keeps R (tryCatch body handler).
Proof.
  intros Hm Hk s. specialize (Hm s). revert Hm.
  unfold after, tryCatch. destruct (body s) as [[a|e] s1]; simpl; [done|].
  intros Hs1. etransitivity; [exact Hs1|]. apply Hk.
Qed.

End Keeps.

End Methods.

(** One step through a goal [wp m Q s] along the structure of [m]. *)
Ltac wp_step :=
  first
    [ apply wp_bind
    | apply wp_tryCatch
    | apply wp_ret
    | apply wp_throw
    | apply wp_get
    | apply wp_modify ];
  cbn beta iota.

(** Takes a goal [keeps R m] apart along the structure of [m]; [leaf] is
    tried first, on the calls and the assignments of [m]. *)
Ltac keeps_with leaf :=
  repeat first
    [ solve [leaf]
    | solve [apply keeps_ret; apply _]
    | solve [apply keeps_throw; apply _]
    | solve [apply keeps_get; apply _]
    | apply keeps_bind; [apply _| |intros ?]
    | apply keeps_tryCatch; [apply _| |intros ?]
    | match goal with
      | |- keeps _ (match ?x with _ => _ end) => destruct x
      | |- keeps _ (let (_, _) := ?x in _) => destruct x
      end ].

Ltac keeps_structure := keeps_with fail.

End MethodFacts.

(** * The relay list parser and loader *)

Module LoaderFacts.
Import ProxyManager Spec JSFacts.

Section Parser.

Variable newURL : string -> Completion URL.

Lemma parseProxy_host_port (h : string) (p : Z) (proto : string) :
  h ≠ "" -> occurs ":" h = false -> 1 <= p <= 65535 ->
  parseProxy newURL (h +:+ ":" +:+ pretty p) proto
  = Returns (Some (mkProxy h p proto None)).
Proof.
  intros Hh Hcolon Hp.
  assert (isNumeric (pretty p) = true) as Hnum by (apply pretty_port_numeric; lia).
  apply andb_true_iff in Hnum as [_ Hdigits].
  destruct (numeric_plain _ Hdigits) as [Hf Hslash].
  change (h +:+ ":" +:+ pretty p) with (h +:+ String ":" (pretty p)).
  unfold parseProxy.
  rewrite includes_scheme_host_port, split_host_port by done.
  cbn [length decide]. destruct (decide (2%nat = 2%nat)); [|done].
  cbn [lookup list_lookup default from_option id].
  rewrite parseInt_pretty by lia. cbn [default from_option id].
  assert (truthy h = true) as -> by by destruct h.
  assert ((p <? 1) = false) as -> by (apply Z.ltb_ge; lia).
  assert ((65535 <? p) = false) as -> by (apply Z.ltb_ge; lia).
  done.
Qed.

Lemma parseProxy_malformed (line proto : string) :
  Malformed line -> parseProxy newURL line proto = Returns None.
Proof.
  intros [Hcolon | h f Hurl Hsplit Hnan | h f n Hurl Hsplit Hn Hrange];
    unfold parseProxy.
  - rewrite includes_occurs, split_occurs by done. done.
  - rewrite Hurl, Hsplit. cbn [length].
    destruct (decide (2%nat = 2%nat)); [|done].
    cbn [lookup list_lookup default from_option id]. by rewrite Hnan.
  - rewrite Hurl, Hsplit. cbn [length].
    destruct (decide (2%nat = 2%nat)); [|done].
    cbn [lookup list_lookup default from_option id]. rewrite Hn.
    destruct (truthy h); [|done]. cbn [negb orb].
    destruct Hrange.
    + assert ((n <? 1) = true) as -> by (apply Z.ltb_lt; lia). done.
    + assert ((65535 <? n) = true) as -> by (apply Z.ltb_lt; lia).
      by rewrite orb_true_r.
Qed.

Lemma parseLines_app (proto : string) (l1 l2 : list string)
    (acc : list ProxyInfo) :
  parseLines newURL proto (l1 ++ l2) acc
  = match parseLines newURL proto l1 acc with
    | (found, None) => parseLines newURL proto l2 found
    | stopped => stopped
    end.
Proof.
  revert acc. induction l1 as [|line l1 IH]; intros acc; simpl; [done|].
  destruct (parseProxy newURL (trim line) proto) as [[p|]|e]; auto.
Qed.

(** A line the parser rejects leaves the loop as it found it. *)
Lemma parseLines_skip (proto : string) (before after : list string)
    (bad : string) (acc : list ProxyInfo) :
  parseProxy newURL (trim bad) proto = Returns None ->
  parseLines newURL proto (before ++ bad :: after) acc
  = parseLines newURL proto (before ++ after) acc.
Proof.
  intros Hbad. rewrite !parseLines_app.
  destruct (parseLines newURL proto before acc) as [found [e|]]; [done|].
  simpl. by rewrite Hbad.
Qed.

Lemma contentLines_skip (proto : string) (before bad after : string)
    (acc : list ProxyInfo) :
  occurs "010" bad = false ->
  parseProxy newURL (trim bad) proto = Returns None ->
  parseLines newURL proto
    (contentLines (before +:+ String "010" (bad +:+ String "010" after))) acc
  = parseLines newURL proto
      (contentLines (before +:+ String "010" after)) acc.
Proof.
  intros Hline Hbad. unfold contentLines.
  rewrite !split_app, (split_occurs _ bad Hline), !filter_app.
  rewrite filter_cons. case_decide.
  - rewrite filter_nil. by apply parseLines_skip.
  - by rewrite filter_nil.
Qed.

(** A line the parser raises on ends the loop: the lines after it are not
    read. *)
Lemma parseLines_throw (proto : string) (before after : list string)
    (bad : string) (e : Error) :
  parseProxy newURL (trim bad) proto = Throws e ->
  (forall line, line ∈ before ->
     exists r, parseProxy newURL (trim line) proto = Returns r) ->
  exists found,
    parseLines newURL proto (before ++ bad :: after) [] = (found, Some e) /\
    parseLines newURL proto before [] = (found, None).
Proof.
  intros Hbad. generalize (@nil ProxyInfo) as acc.
  induction before as [|line before IH]; intros acc Hok; simpl.
  - rewrite Hbad. by exists acc.
  - destruct (Hok line) as [r Hr]; [set_solver|]. rewrite Hr.
    destruct r; apply IH; intros; apply Hok; set_solver.
Qed.

End Parser.

End LoaderFacts.

Module LoaderClaims.
Import ProxyManager Spec JSFacts LoaderFacts Scenario.

(** C6, as the source has it.  A line [host:port] with a non-empty host
    that holds no colon and the decimal text of a port in 1..65535 gives the
    descriptor of that host and port.  A line that is not of the URL form and
    has no colon, or a port field in which [parseInt] finds no number, or a
    port number outside 1..65535, gives no descriptor; in a file such a line
    is passed over without a log entry, the other lines are loaded and the
    reported count is the one of the file without it. *)
Theorem parseProxy_accepts_and_skips (newURL : string -> Completion URL) :
  (forall h p proto,
     h ≠ "" -> occurs ":" h = false -> 1 <= p <= 65535 ->
     parseProxy newURL (h +:+ ":" +:+ pretty p) proto
     = Returns (Some (mkProxy h p proto None))) /\
  (forall line proto,
     Malformed line -> parseProxy newURL line proto = Returns None) /\
  (forall path proto before bad after,
     occurs "010" bad = false -> Malformed (trim bad) ->
     loadProxiesFromFile newURL path
       (FileContent (before +:+ newline +:+ bad +:+ newline +:+ after)) proto
     = loadProxiesFromFile newURL path
         (FileContent (before +:+ newline +:+ after)) proto).
Proof.
  split; [|split].
  - intros h p proto. apply parseProxy_host_port.
  - intros line proto. apply parseProxy_malformed.
  - intros path proto before bad after Hline Hbad.
    change (before +:+ newline +:+ bad +:+ newline +:+ after)
      with (before +:+ String "010" (bad +:+ String "010" after)).
    change (before +:+ newline +:+ after)
      with (before +:+ String "010" after).
    unfold loadProxiesFromFile.
    rewrite contentLines_skip; [done|done|].
    by apply parseProxy_malformed.
Qed.

Lemma parseProxy_accepts_and_skips_witness :
  parseProxy noURL ("10.0.0.1" +:+ ":" +:+ pretty 8080) "socks5"
  = Returns (Some (mkProxy "10.0.0.1" 8080 "socks5" None)) /\
  parseProxy noURL "10.0.0.1:http" "socks5" = Returns None /\
  loadProxiesFromFile noURL "proxies.txt"
    (FileContent ("10.0.0.1:8080" +:+ newline +:+ "10.0.0.2:70000" +:+
                  newline +:+ "10.0.0.3:1080")) "http"
  = loadProxiesFromFile noURL "proxies.txt"
      (FileContent ("10.0.0.1:8080" +:+ newline +:+ "10.0.0.3:1080")) "http".
Proof.
  destruct (parseProxy_accepts_and_skips noURL) as (Hgood & Hbad & Hskip).
  split; [|split].
  - apply Hgood; [done|reflexivity|lia].
  - apply Hbad. by apply PortNotANumber with (h := "10.0.0.1") (f := "http").
  - apply Hskip; [reflexivity|].
    apply PortOutOfRange with (h := "10.0.0.2") (f := "70000") (n := 70000);
      [reflexivity|reflexivity|reflexivity|lia].
Defined.

(** C6 as it is worded fails on a port that is not numeric but starts with
    digits: [parseInt] reads the digits and the line is accepted. *)
Lemma parseProxy_nonnumeric_port_counterexample :
  JS.split ":" "1.2.3.4:80abc" = ["1.2.3.4"; "80abc"] /\
  isNumeric "80abc" = false /\
  parseProxy noURL "1.2.3.4:80abc" "http"
  = Returns (Some (mkProxy "1.2.3.4" 80 "http" None)).
Proof. by vm_compute. Qed.

(** Other port fields that are accepted for the number [parseInt] finds in
    them. *)
Example parseProxy_lenient_ports :
  parseProxy noURL "1.2.3.4:0x50" "http"
  = Returns (Some (mkProxy "1.2.3.4" 80 "http" None)) /\
  parseProxy noURL "1.2.3.4: 80" "http"
  = Returns (Some (mkProxy "1.2.3.4" 80 "http" None)) /\
  parseProxy noURL "1.2.3.4:80.5" "http"
  = Returns (Some (mkProxy "1.2.3.4" 80 "http" None)).
Proof. by vm_compute. Qed.

End LoaderClaims.

(** * The health scores *)

Module HealthFacts.
Import ProxyManager Spec MethodFacts.

Lemma Adjusted_trans (allowed : Delta -> Prop) (m1 m2 m3 : gmap string Z) :
  Adjusted allowed m1 m2 -> Adjusted allowed m2 m3 -> Adjusted allowed m1 m3.
Proof.
  induction 1 as [m|m m' d key Hd _ IH]; [done|].
  intros H3. eapply adjusted_step; [exact Hd|]. by apply IH.
Qed.

Lemma Adjusted_weaken (a b : Delta -> Prop) (m m' : gmap string Z) :
  (forall d, a d -> b d) -> Adjusted a m m' -> Adjusted b m m'.
Proof.
  intros Hab. induction 1 as [m|m m' d key Hd _ IH]; [constructor|].
  eapply adjusted_step; [apply Hab, Hd|exact IH].
Qed.

Global Instance adjusts_preorder (allowed : Delta -> Prop) :
  PreOrder (adjusts allowed).
Proof.
  split.
  - intros s. constructor.
  - intros s1 s2 s3. apply Adjusted_trans.
Qed.

Lemma applyDelta_nonneg (d : Delta) (score : Z) :
  0 <= score -> 0 <= applyDelta d score.
Proof. destruct d; simpl; lia. Qed.

Lemma scoreOf_nonneg (scores : gmap string Z) (key : string) :
  scoresNonNegative scores -> 0 <= scoreOf scores key.
Proof.
  intros H. unfold scoreOf. destruct (scores !! key) as [v|] eqn:E; simpl.
  - by apply (H key).
  - done.
Qed.

Lemma adjust_nonneg (d : Delta) (key : string) (scores : gmap string Z) :
  scoresNonNegative scores -> scoresNonNegative (adjust d key scores).
Proof.
  intros H k v. unfold adjust. rewrite lookup_insert. case_decide.
  - intros [= <-]. by apply applyDelta_nonneg, scoreOf_nonneg.
  - apply H.
Qed.

Lemma Adjusted_nonneg (allowed : Delta -> Prop) (m m' : gmap string Z) :
  Adjusted allowed m m' -> scoresNonNegative m -> scoresNonNegative m'.
Proof.
  induction 1 as [m|m m' d key _ _ IH]; [done|].
  intros H. by apply IH, adjust_nonneg.
Qed.

(** Nothing removes an entry. *)
Lemma Adjusted_stays (allowed : Delta -> Prop) (m m' : gmap string Z)
    (key : string) :
  Adjusted allowed m m' -> is_Some (m !! key) -> is_Some (m' !! key).
Proof.
  induction 1 as [m|m m' d k _ _ IH]; [done|].
  intros H. apply IH. unfold adjust. rewrite lookup_insert.
  by case_decide.
Qed.

Section Allowed.

Variable allowed : Delta -> Prop.

Lemma keeps_unscored {A : Type} (m : Method A) :
  (forall s, proxyHealthScores (after m s) = proxyHealthScores s) ->
  keeps (adjusts allowed) m.
Proof. intros H s. unfold adjusts. rewrite H. constructor. Qed.

Lemma keeps_logger (l : Level) (message : string) :
  keeps (adjusts allowed) (logger l message).
Proof. by apply keeps_unscored. Qed.

Lemma keeps_logAll (entries : list LogEntry) :
  keeps (adjusts allowed) (logAll entries).
Proof. by apply keeps_unscored. Qed.

Lemma keeps_ask : keeps (adjusts allowed) ask.
Proof. by apply keeps_unscored. Qed.

Lemma keeps_assign (f : State -> State) :
  (forall s, proxyHealthScores (f s) = proxyHealthScores s) ->
  keeps (adjusts allowed) (modify f).
Proof. intros H. by apply keeps_unscored. Qed.

Lemma keeps_setScore (d : Delta) (key : string) :
  allowed d -> keeps (adjusts allowed) (setScore key (applyDelta d)).
Proof.
  intros Hd s. unfold adjusts. eapply adjusted_step; [exact Hd|]. constructor.
Qed.

End Allowed.

Create HintDb keeps.
#[export] Hint Resolve keeps_logger keeps_logAll keeps_ask : keeps.

(** Splits [keeps (adjusts _) m] along [m]; closes the calls of the logger
    and of the oracle, and the assignments to other fields. *)
Ltac keeps_scores :=
  keeps_with ltac:(first [ assumption
                         | solve [auto with keeps]
                         | apply keeps_assign; reflexivity ]).

Section Calls.

Variable allowed : Delta -> Prop.
Variable w : World.

Lemma keeps_pingProxy (proxy : ProxyInfo) :
  keeps (adjusts allowed) (pingProxy w proxy).
Proof. unfold pingProxy. keeps_scores. Qed.

Lemma keeps_probeEach (testProxies results : list ProxyInfo) :
  keeps (adjusts allowed) (probeEach w testProxies results).
Proof.
  revert results. induction testProxies as [|p l IH]; intros results; simpl.
  - keeps_structure.
  - apply keeps_bind; [apply _|apply keeps_pingProxy|]. intros rt. apply IH.
Qed.

Lemma keeps_findBestProxy : keeps (adjusts allowed) (findBestProxy w).
Proof.
  unfold findBestProxy. pose proof keeps_probeEach. keeps_scores.
Qed.

Lemma keeps_getWorkingProxy : keeps (adjusts allowed) (getWorkingProxy w).
Proof.
  unfold getWorkingProxy. pose proof keeps_findBestProxy. keeps_scores.
Qed.

Lemma keeps_loadProxiesFromUrls (urls : list string) (protocol : string)
    (allProxies : list ProxyInfo) :
  keeps (adjusts allowed) (loadProxiesFromUrls w urls protocol allProxies).
Proof.
  revert allProxies. induction urls as [|u l IH]; intros allProxies; simpl.
  - keeps_structure.
  - destruct (loadProxiesFromUrl _ _ _ _) as [found entries].
    apply keeps_bind; [apply _|apply keeps_logAll|]. intros _. apply IH.
Qed.

Lemma keeps_loadProxies : keeps (adjusts allowed) (loadProxies w).
Proof.
  unfold loadProxies. pose proof keeps_loadProxiesFromUrls. keeps_scores.
Qed.

Lemma keeps_monitorConnectionHealth :
  keeps (adjusts allowed) (monitorConnectionHealth w).
Proof.
  unfold monitorConnectionHealth. pose proof keeps_pingProxy. keeps_scores.
Qed.

Lemma keeps_getConnectionAdaptiveTimeout (baseTimeout : Float64.Number) :
  keeps (adjusts allowed) (getConnectionAdaptiveTimeout w baseTimeout).
Proof.
  unfold getConnectionAdaptiveTimeout. pose proof keeps_pingProxy. keeps_scores.
Qed.

Lemma keeps_getConnectionQuality :
  keeps (adjusts allowed) (getConnectionQuality w).
Proof.
  unfold getConnectionQuality. pose proof keeps_pingProxy. keeps_scores.
Qed.

Lemma keeps_monitorConnectionSpeed :
  keeps (adjusts allowed) (monitorConnectionSpeed w).
Proof.
  unfold monitorConnectionSpeed. pose proof keeps_pingProxy. keeps_scores.
Qed.

Lemma keeps_testTcpConnectivity :
  keeps (adjusts allowed) (testTcpConnectivity w).
Proof. unfold testTcpConnectivity. keeps_scores. Qed.

Section Switch.

Hypothesis allowed_Plus10 : allowed Plus10.
Hypothesis allowed_Minus5 : allowed Minus5.

Lemma keeps_tryCandidates (candidates : list ProxyInfo) :
  keeps (adjusts allowed) (tryCandidates w candidates).
Proof.
  induction candidates as [|c l IH]; simpl.
  - keeps_scores.
  - pose proof keeps_pingProxy.
    pose proof (keeps_setScore allowed Plus10 (proxyKey c) allowed_Plus10).
    pose proof (keeps_setScore allowed Minus5 (proxyKey c) allowed_Minus5).
    keeps_scores.
Qed.

Lemma keeps_switchToNextProxy : keeps (adjusts allowed) (switchToNextProxy w).
Proof.
  unfold switchToNextProxy. pose proof keeps_tryCandidates. keeps_scores.
Qed.

End Switch.

Section Http.

Hypothesis allowed_Plus1 : allowed Plus1.
Hypothesis allowed_Minus2 : allowed Minus2.
Hypothesis allowed_Minus3 : allowed Minus3.

Lemma keeps_testHttpConnectivity :
  keeps (adjusts allowed) (testHttpConnectivity w).
Proof.
  unfold testHttpConnectivity.
  pose proof (fun key => keeps_setScore allowed Plus1 key allowed_Plus1).
  pose proof (fun key => keeps_setScore allowed Minus2 key allowed_Minus2).
  pose proof (fun key => keeps_setScore allowed Minus3 key allowed_Minus3).
  keeps_scores.
Qed.

Lemma keeps_performAggressiveKeepAlivePing :
  keeps (adjusts allowed) (performAggressiveKeepAlivePing w).
Proof.
  unfold performAggressiveKeepAlivePing.
  pose proof keeps_testTcpConnectivity. pose proof keeps_testHttpConnectivity.
  keeps_scores.
Qed.

Lemma keeps_pings (count : nat) : keeps (adjusts allowed) (pings w count).
Proof.
  induction count as [|n IH]; simpl.
  - keeps_scores.
  - pose proof keeps_performAggressiveKeepAlivePing. keeps_scores.
Qed.

Lemma keeps_warmUpConnection : keeps (adjusts allowed) (warmUpConnection w).
Proof. unfold warmUpConnection. pose proof keeps_pings. keeps_scores. Qed.

End Http.

End Calls.

(** Every call rewrites the scores by the five deltas and by nothing else. *)
Lemma perform_adjusts (w : World) (c : Call) (s : State) :
  adjusts anyDelta s (perform w c s).
Proof.
  assert (forall d, anyDelta d) as Hany by done.
  pose proof (keeps_switchToNextProxy anyDelta w (Hany _) (Hany _)) as Hswitch.
  pose proof (keeps_testHttpConnectivity anyDelta w (Hany _) (Hany _) (Hany _))
    as Hhttp.
  pose proof (keeps_warmUpConnection anyDelta w (Hany _) (Hany _) (Hany _))
    as Hwarm.
  pose proof (keeps_testTcpConnectivity anyDelta w) as Htcp.
  destruct c; unfold perform.
  - apply keeps_loadProxies.
  - apply keeps_getWorkingProxy.
  - apply Hswitch.
  - apply keeps_monitorConnectionHealth.
  - apply keeps_getConnectionAdaptiveTimeout.
  - revert s. change (keeps (adjusts anyDelta) (setCurrentProxy w proxy)).
    unfold setCurrentProxy, validateAndWarmUpProxy. keeps_scores.
  - revert s. change (keeps (adjusts anyDelta) (validateAndWarmUpProxy w)).
    unfold validateAndWarmUpProxy. keeps_scores.
  - apply Hwarm.
  - by apply keeps_performAggressiveKeepAlivePing.
  - apply Htcp.
  - apply Hhttp.
  - apply keeps_getConnectionQuality.
  - apply keeps_monitorConnectionSpeed.
  - by apply keeps_tryCandidates.
Qed.

Lemma performAll_adjusts (w : World) (calls : list Call) (s : State) :
  adjusts anyDelta s (performAll w calls s).
Proof.
  revert s. induction calls as [|c l IH]; intros s; simpl.
  - constructor.
  - etransitivity; [apply perform_adjusts|apply IH].
Qed.

End HealthFacts.

(** * Selection, adaptive timeout and quality *)

Module PoolFacts.
Import ProxyManager Spec MethodFacts.

Lemma sameFields_refl (s : State) : sameFields s s.
Proof. by repeat split. Qed.

Lemma sameFields_trans (s1 s2 s3 : State) :
  sameFields s1 s2 -> sameFields s2 s3 -> sameFields s1 s3.
Proof.
  unfold sameFields. intros (? & ? & ? & ? & ?) (? & ? & ? & ? & ?).
  repeat split; congruence.
Qed.

Global Instance sameFields_preorder : PreOrder sameFields.
Proof. split; [exact sameFields_refl|exact sameFields_trans]. Qed.

Lemma keeps_fields_logger (l : Level) (message : string) :
  keeps sameFields (logger l message).
Proof. intros s. by repeat split. Qed.

Lemma keeps_fields_ask : keeps sameFields ask.
Proof. intros s. by repeat split. Qed.

Lemma wp_ask (Q : Completion nat -> State -> Prop) (s : State) :
  Q (Returns (asked s)) (withAsked (S (asked s)) s) -> wp ask Q s.
Proof. done. Qed.

(** [pingProxy] never throws: it answers with the time of a successful
    probe or with -1, and touches no field. *)
Lemma wp_pingProxy (w : World) (proxy : ProxyInfo)
    (Q : Completion Z -> State -> Prop) (s : State) :
  (forall s', sameFields s s' ->
     Q (Returns (probeAnswer w (asked s) proxy)) s') ->
  wp (pingProxy w proxy) Q s.
Proof.
  intros HQ. unfold pingProxy. unfold probeAnswer, probeSucceeds in HQ.
  apply wp_bind, wp_ask. cbn beta iota.
  apply wp_tryCatch.
  destruct (axiosGet status2xx (replyTo w (asked s) proxy)) as [response|e].
  - destruct ((status response =? 200) && data response).
    + apply wp_ret, HQ. by repeat split.
    + apply wp_bind, wp_modify, wp_ret, HQ. by repeat split.
  - apply wp_throw. cbn beta iota.
    apply wp_bind, wp_modify. cbn beta iota.
    apply wp_bind, wp_modify, wp_ret, HQ. by repeat split.
Qed.

Lemma wp_probeEach (w : World) (testProxies results : list ProxyInfo)
    (Q : Completion (list ProxyInfo) -> State -> Prop) (s : State) :
  (forall s' found, sameFields s s' ->
     (allProbesFail w -> found = results) ->
     Q (Returns found) s') ->
  wp (probeEach w testProxies results) Q s.
Proof.
  revert results s Q. induction testProxies as [|p l IH]; intros results s Q HQ.
  - apply wp_ret, HQ; [apply sameFields_refl|done].
  - simpl. apply wp_bind, wp_pingProxy. intros s1 Hs1.
    apply IH. intros s2 found Hs2 Hfound. apply HQ.
    + by etransitivity.
    + intros Hfail. rewrite (Hfound Hfail).
      specialize (Hfail (asked s) p).
      by destruct (0 <? probeAnswer w (asked s) p) eqn:E;
        [apply Z.ltb_lt in E; lia|].
Qed.

(** [findBestProxy] leaves the pool alone, and the best relay too when no
    probe succeeds. *)
Lemma wp_findBestProxy (w : World) (Q : Completion unit -> State -> Prop)
    (s : State) :
  (forall s', proxies s' = proxies s ->
     (allProbesFail w -> bestProxy s' = bestProxy s) ->
     Q (Returns tt) s') ->
  wp (findBestProxy w) Q s.
Proof.
  intros HQ. unfold findBestProxy. apply wp_bind, wp_get. cbn beta iota.
  destruct (decide (length (proxies s) = 0%nat)); [by apply wp_ret, HQ|].
  apply wp_bind, wp_modify. cbn beta iota.
  apply wp_bind, wp_ask. cbn beta iota.
  apply wp_bind, wp_modify. cbn beta iota.
  apply wp_bind, wp_probeEach. intros s1 found (Hp & Hb & _) Hfound.
  destruct (JS.sort byResponseTime found) as [|best rest] eqn:Hsort.
  - apply wp_modify, HQ; simpl; [exact Hp|]. intros _. exact Hb.
  - apply wp_bind, wp_modify. cbn beta iota. apply wp_modify, HQ; simpl.
    + exact Hp.
    + intros Hfail. rewrite (Hfound Hfail) in Hsort. discriminate Hsort.
Qed.

End PoolFacts.

(** * The probes of a selection *)

Module SelectionFacts.
Import ProxyManager Spec PoolSpec MethodFacts PoolFacts.

Lemma wp_pingProxy_counted (w : World) (proxy : ProxyInfo)
    (Q : Completion Z -> State -> Prop) (s : State) :
  (forall s', sameFields s s' -> asked s' = S (asked s) ->
     Q (Returns (probeAnswer w (asked s) proxy)) s') ->
  wp (pingProxy w proxy) Q s.
Proof.
  intros HQ. unfold pingProxy. unfold probeAnswer, probeSucceeds in HQ.
  apply wp_bind, wp_ask. cbn beta iota.
  apply wp_tryCatch.
  destruct (axiosGet status2xx (replyTo w (asked s) proxy)) as [response|e].
  - destruct ((status response =? 200) && data response).
    + apply wp_ret, HQ; by repeat split.
    + apply wp_bind, wp_modify, wp_ret, HQ; by repeat split.
  - apply wp_throw. cbn beta iota.
    apply wp_bind, wp_modify. cbn beta iota.
    apply wp_bind, wp_modify, wp_ret, HQ; by repeat split.
Qed.

Lemma wp_probeEach_exact (w : World) (l acc : list ProxyInfo)
    (Q : Completion (list ProxyInfo) -> State -> Prop) (s : State) :
  (forall s', sameFields s s' -> asked s' = (asked s + length l)%nat ->
     Q (Returns (acc ++ probed w (asked s) l)) s') ->
  wp (probeEach w l acc) Q s.
Proof.
  revert acc s Q. induction l as [|p l IH]; intros acc s Q HQ; simpl.
  - apply wp_ret. specialize (HQ s ltac:(reflexivity) ltac:(simpl; lia)).
    simpl in HQ. by rewrite app_nil_r in HQ.
  - apply wp_bind, wp_pingProxy_counted. intros s1 Hs1 Hasked.
    apply IH. intros s2 Hs2 Hasked2. rewrite Hasked.
    replace ((if 0 <? probeAnswer w (asked s) p
              then acc ++ [withResponseTime p (probeAnswer w (asked s) p)]
              else acc) ++ probed w (S (asked s)) l)
      with (acc ++ probed w (asked s) (p :: l)).
    2:{ simpl. destruct (0 <? _); [by rewrite <- app_assoc|done]. }
    apply HQ; [by etransitivity|simpl; lia].
Qed.

Lemma tested_length (w : World) (s : State) :
  length (tested w s)
  = Z.to_nat (Z.min (testCount (options s)) (Z.of_nat (length (proxies s)))).
Proof.
  unfold tested. rewrite length_take.
  rewrite (Permutation_length (shuffled_perm w (asked s) (proxies s))). lia.
Qed.

Lemma tested_in_pool (w : World) (s : State) (p : ProxyInfo) :
  p ∈ tested w s -> p ∈ proxies s.
Proof.
  unfold tested. intros Hp.
  rewrite <- (shuffled_perm w (asked s) (proxies s)).
  eapply subseteq_take, Hp.
Qed.

Lemma probed_origin (w : World) (n : nat) (l : list ProxyInfo) (r : ProxyInfo) :
  r ∈ probed w n l ->
  exists p t, p ∈ l /\ r = withResponseTime p t /\ 0 < t.
Proof.
  revert n. induction l as [|p l IH]; intros n; simpl; [by intros ?%elem_of_nil|].
  intros [Hr|Hr]%elem_of_app.
  - destruct (0 <? probeAnswer w n p) eqn:Hpos; [|by apply elem_of_nil in Hr].
    apply list_elem_of_singleton in Hr as ->. apply Z.ltb_lt in Hpos.
    exists p, (probeAnswer w n p). split; [left|done].
  - destruct (IH _ Hr) as (q & t & Hq & -> & Ht).
    exists q, t. split; [by right|done].
Qed.

(** What a run of [findBestProxy] on a pool that is not empty comes to. *)
Lemma findBestProxy_run (w : World) (s : State) :
  proxies s ≠ [] ->
  wp (findBestProxy w)
    (fun c s' =>
       c = Returns tt /\ proxies s' = proxies s /\
       asked s' = (S (asked s) + length (tested w s))%nat /\
       bestProxy s'
       = match JS.sort byResponseTime (probed w (S (asked s)) (tested w s)) with
         | best :: _ => Some best
         | [] => bestProxy s
         end) s.
Proof.
  intros Hpool. unfold findBestProxy. apply wp_bind, wp_get. cbn beta iota.
  destruct (decide (length (proxies s) = 0%nat)) as [Hlen|_].
  { by apply length_zero_iff_nil in Hlen. }
  apply wp_bind, wp_modify. cbn beta iota.
  apply wp_bind, wp_ask. cbn beta iota.
  apply wp_bind, wp_modify. cbn beta iota.
  cbn [withLogged withAsked asked proxies options logged bestProxy].
  fold (tested w s).
  apply wp_bind, wp_probeEach_exact. intros s1 (Hp & Hb & _) Hasked.
  cbn [app]. cbn [withLogged withAsked asked proxies bestProxy] in *.
  destruct (JS.sort byResponseTime (probed w (S (asked s)) (tested w s)))
    as [|best rest].
  - apply wp_modify. by repeat split.
  - apply wp_bind, wp_modify. cbn beta iota. apply wp_modify. by repeat split.
Qed.

(** Relays whose probes all fail leave nothing to choose from. *)
Lemma probed_none (w : World) (n : nat) (l : list ProxyInfo) :
  (forall i p, l !! i = Some p -> probeAnswer w (n + i) p <= 0) ->
  probed w n l = [].
Proof.
  revert n. induction l as [|p l IH]; intros n Hfail; [done|].
  cbn [probed]. pose proof (Hfail 0%nat p eq_refl) as Hp.
  rewrite Nat.add_0_r in Hp.
  destruct (0 <? probeAnswer w n p) eqn:Hpos; [apply Z.ltb_lt in Hpos; lia|].
  cbn [app]. apply IH. intros i q Hq.
  replace (S n + i)%nat with (n + S i)%nat by lia. by apply Hfail.
Qed.

End SelectionFacts.

(** * The rewrites of health scores *)

Module RewriteFacts.
Import ProxyManager Spec PoolSpec ScoreSpec MethodFacts PoolFacts
  SelectionFacts.

Lemma applyAll_app (t1 t2 : list (string * Delta)) (scores : gmap string Z) :
  applyAll (t1 ++ t2) scores = applyAll t2 (applyAll t1 scores).
Proof. apply foldl_app. Qed.

Global Instance rewrites_preorder : PreOrder rewrites.
Proof.
  split.
  - intros s. split; [done|]. exists []. split; [simpl; lia|]. by split.
  - intros s1 s2 s3 (H12 & t1 & Hl1 & Ha1 & Hs1) (H23 & t2 & Hl2 & Ha2 & Hs2).
    split; [lia|]. exists (t1 ++ t2). split; [rewrite length_app; lia|].
    split; [by apply Forall_app|]. by rewrite applyAll_app, <- Hs1.
Qed.

Lemma keeps_rewrites_quiet {A : Type} (m : Method A) :
  (forall s, proxyHealthScores (after m s) = proxyHealthScores s /\
             (asked s <= asked (after m s))%nat) ->
  keeps rewrites m.
Proof.
  intros H s. destruct (H s) as [Hscores Hasked]. split; [done|].
  exists []. split; [simpl; lia|]. by split.
Qed.

Lemma keeps_rewrites_logger (l : Level) (message : string) :
  keeps rewrites (logger l message).
Proof. by apply keeps_rewrites_quiet. Qed.

Lemma keeps_rewrites_logAll (entries : list LogEntry) :
  keeps rewrites (logAll entries).
Proof. by apply keeps_rewrites_quiet. Qed.

Lemma keeps_rewrites_ask : keeps rewrites ask.
Proof. apply keeps_rewrites_quiet. intros s. split; [done|simpl; lia]. Qed.

Lemma keeps_rewrites_assign (f : State -> State) :
  (forall s, proxyHealthScores (f s) = proxyHealthScores s /\
             asked (f s) = asked s) ->
  keeps rewrites (modify f).
Proof.
  intros H. apply keeps_rewrites_quiet. intros s.
  destruct (H s) as [Hscores Hasked]. split; [done|].
  change (asked s <= asked (f s))%nat. lia.
Qed.

Create HintDb rewrites.
#[export] Hint Resolve keeps_rewrites_logger keeps_rewrites_logAll
  keeps_rewrites_ask : rewrites.

(** Splits [keeps rewrites m] along [m]; closes the calls of the logger and
    of the oracle, and the assignments to other fields. *)
Ltac keeps_rewrites :=
  keeps_with ltac:(first [ assumption
                         | solve [auto with rewrites]
                         | apply keeps_rewrites_assign; intros ?; by split ]).

Lemma switchTrace_applied (w : World) (n : nat) (l : list ProxyInfo) :
  Forall (fun r => appliedDelta r.2) (switchTrace w n l).
Proof.
  revert n. induction l as [|c l IH]; intros n; cbn [switchTrace];
    [constructor|].
  destruct (_ && _).
  - constructor; [|constructor]. by left.
  - constructor; [|apply IH]. right. by left.
Qed.

Section Calls.

Variable w : World.

Lemma keeps_rewrites_pingProxy (proxy : ProxyInfo) :
  keeps rewrites (pingProxy w proxy).
Proof. unfold pingProxy. keeps_rewrites. Qed.

Lemma keeps_rewrites_probeEach (testProxies results : list ProxyInfo) :
  keeps rewrites (probeEach w testProxies results).
Proof.
  revert results. induction testProxies as [|p l IH]; intros results; simpl.
  - keeps_structure.
  - apply keeps_bind; [apply _|apply keeps_rewrites_pingProxy|].
    intros rt. apply IH.
Qed.

Lemma keeps_rewrites_findBestProxy : keeps rewrites (findBestProxy w).
Proof.
  unfold findBestProxy. pose proof keeps_rewrites_probeEach. keeps_rewrites.
Qed.

Lemma keeps_rewrites_getWorkingProxy : keeps rewrites (getWorkingProxy w).
Proof.
  unfold getWorkingProxy. pose proof keeps_rewrites_findBestProxy.
  keeps_rewrites.
Qed.

Lemma keeps_rewrites_loadProxiesFromUrls (urls : list string)
    (protocol : string) (allProxies : list ProxyInfo) :
  keeps rewrites (loadProxiesFromUrls w urls protocol allProxies).
Proof.
  revert allProxies. induction urls as [|u l IH]; intros allProxies; simpl.
  - keeps_structure.
  - destruct (loadProxiesFromUrl _ _ _ _) as [found entries].
    apply keeps_bind; [apply _|apply keeps_rewrites_logAll|]. intros _.
    apply IH.
Qed.

Lemma keeps_rewrites_loadProxies : keeps rewrites (loadProxies w).
Proof.
  unfold loadProxies. pose proof keeps_rewrites_loadProxiesFromUrls.
  keeps_rewrites.
Qed.

Lemma keeps_rewrites_monitorConnectionHealth :
  keeps rewrites (monitorConnectionHealth w).
Proof.
  unfold monitorConnectionHealth. pose proof keeps_rewrites_pingProxy.
  keeps_rewrites.
Qed.

Lemma keeps_rewrites_getConnectionAdaptiveTimeout
    (baseTimeout : Float64.Number) :
  keeps rewrites (getConnectionAdaptiveTimeout w baseTimeout).
Proof.
  unfold getConnectionAdaptiveTimeout. pose proof keeps_rewrites_pingProxy.
  keeps_rewrites.
Qed.

Lemma keeps_rewrites_getConnectionQuality :
  keeps rewrites (getConnectionQuality w).
Proof.
  unfold getConnectionQuality. pose proof keeps_rewrites_pingProxy.
  keeps_rewrites.
Qed.

Lemma keeps_rewrites_monitorConnectionSpeed :
  keeps rewrites (monitorConnectionSpeed w).
Proof.
  unfold monitorConnectionSpeed. pose proof keeps_rewrites_pingProxy.
  keeps_rewrites.
Qed.

Lemma keeps_rewrites_testTcpConnectivity :
  keeps rewrites (testTcpConnectivity w).
Proof. unfold testTcpConnectivity. keeps_rewrites. Qed.

(** The loop of a switch rewrites one score per probe, as [switchTrace]
    lists them. *)
Lemma wp_tryCandidates_scores (candidates : list ProxyInfo)
    (Q : Completion (option ProxyInfo) -> State -> Prop) (s : State) :
  (forall r s',
     proxyHealthScores s'
     = applyAll (switchTrace w (asked s) candidates) (proxyHealthScores s) ->
     asked s' = (asked s + length (switchTrace w (asked s) candidates))%nat ->
     Q (Returns r) s') ->
  wp (tryCandidates w candidates) Q s.
Proof.
  revert s Q. induction candidates as [|c l IH]; intros s Q HQ;
    cbn [tryCandidates switchTrace] in *.
  - apply wp_bind, wp_modify, wp_ret. apply HQ; simpl; [done|lia].
  - apply wp_bind, wp_get. cbn beta iota.
    apply wp_bind, wp_modify. cbn beta iota.
    apply wp_bind, wp_pingProxy_counted. intros s1 (_ & _ & _ & Hsc & _) Hasked.
    cbn [withLogged asked proxyHealthScores] in *.
    destruct ((0 <? probeAnswer w (asked s) c)
              && (probeAnswer w (asked s) c <? 8000)).
    + apply wp_bind, wp_modify. cbn beta iota.
      apply wp_bind, wp_modify. cbn beta iota.
      apply wp_bind, wp_modify, wp_ret. apply HQ; simpl.
      * by rewrite Hsc.
      * lia.
    + apply wp_bind, wp_modify. cbn beta iota.
      apply IH. cbn [withScores asked proxyHealthScores].
      intros r s2 Hsc2 Hasked2. apply HQ.
      * rewrite Hsc2, Hasked, Hsc. reflexivity.
      * rewrite Hasked2, Hasked. simpl. lia.
Qed.

Lemma candidates_none (s : State) :
  filter (fun p => Some (proxyKey p) ≠ proxyKey <$> currentProxy s) (proxies s)
  = [] ->
  candidates s = [].
Proof. unfold candidates. by intros ->. Qed.

Lemma switchToNextProxy_scores (s : State) :
  proxyHealthScores (after (switchToNextProxy w) s)
  = applyAll (switchTrace w (asked s) (candidates s)) (proxyHealthScores s) /\
  asked (after (switchToNextProxy w) s)
  = (asked s + length (switchTrace w (asked s) (candidates s)))%nat.
Proof.
  change (wp (switchToNextProxy w)
            (fun _ s' =>
               proxyHealthScores s'
               = applyAll (switchTrace w (asked s) (candidates s))
                   (proxyHealthScores s) /\
               asked s'
               = (asked s + length (switchTrace w (asked s) (candidates s)))%nat)
            s).
  unfold switchToNextProxy. apply wp_bind, wp_get. cbn beta iota.
  destruct (decide (length (proxies s) = 0%nat)) as [Hempty|_].
  { apply length_zero_iff_nil in Hempty.
    rewrite candidates_none by (by rewrite Hempty).
    apply wp_bind, wp_modify, wp_ret. simpl. split; [done|lia]. }
  destruct (decide (length (filter _ (proxies s)) = 0%nat)) as [Hnone|_].
  { apply length_zero_iff_nil in Hnone. rewrite candidates_none by done.
    apply wp_bind, wp_modify, wp_ret. simpl. split; [done|lia]. }
  apply wp_tryCandidates_scores. by intros r s' Hsc Hasked.
Qed.

Lemma keeps_rewrites_tryCandidates (candidates : list ProxyInfo) :
  keeps rewrites (tryCandidates w candidates).
Proof.
  intros s.
  apply (wp_tryCandidates_scores candidates (fun _ s' => rewrites s s')).
  intros r s' Hsc Hasked. split; [lia|].
  exists (switchTrace w (asked s) candidates).
  split; [lia|]. split; [apply switchTrace_applied|done].
Qed.

Lemma keeps_rewrites_switchToNextProxy : keeps rewrites (switchToNextProxy w).
Proof.
  intros s. destruct (switchToNextProxy_scores s) as [Hsc Hasked].
  split; [lia|]. exists (switchTrace w (asked s) (candidates s)).
  split; [lia|]. split; [apply switchTrace_applied|done].
Qed.

(** The HTTP-level check asks one question and rewrites one score, the one
    of the current relay. *)
Lemma testHttpConnectivity_scores (s : State) :
  match currentProxy s with
  | Some proxy =>
      proxyHealthScores (after (testHttpConnectivity w) s)
      = applyAll (httpTrace w (asked s) proxy) (proxyHealthScores s) /\
      asked (after (testHttpConnectivity w) s) = S (asked s)
  | None =>
      proxyHealthScores (after (testHttpConnectivity w) s)
      = proxyHealthScores s /\
      asked (after (testHttpConnectivity w) s) = asked s
  end.
Proof.
  unfold testHttpConnectivity, after, httpTrace, httpOk, axiosGet, applyAll.
  repeat (progress unfold mbind, M_bind, mret, M_ret, tryCatch, throw,
            JS.get, modify, ask, setScore).
  cbn -[Z.ltb]. destruct (currentProxy s) as [p|] eqn:Hcur; cbn -[Z.ltb];
    [|by rewrite Hcur].
  destruct (replyTo w (asked s) p) as [st d|code message]; cbn -[Z.ltb].
  - destruct (st <? 400) eqn:Hst; cbn -[Z.ltb].
    + rewrite Hst. cbn. done.
    + rewrite Hcur. cbn. done.
  - rewrite Hcur. cbn. done.
Qed.

Lemma keeps_rewrites_testHttpConnectivity :
  keeps rewrites (testHttpConnectivity w).
Proof.
  intros s. pose proof (testHttpConnectivity_scores s) as H.
  destruct (currentProxy s) as [p|]; destruct H as [Hsc Hasked].
  - split; [lia|]. exists (httpTrace w (asked s) p).
    split; [simpl; lia|]. split; [|done].
    constructor; [|constructor]. simpl.
    destruct (httpOk _); [right; right; by left|right; right; by right].
  - split; [lia|]. exists []. split; [simpl; lia|]. by split.
Qed.

Lemma keeps_rewrites_keepAlivePing :
  keeps rewrites (performAggressiveKeepAlivePing w).
Proof.
  unfold performAggressiveKeepAlivePing.
  pose proof keeps_rewrites_testTcpConnectivity.
  pose proof keeps_rewrites_testHttpConnectivity. keeps_rewrites.
Qed.

Lemma keeps_rewrites_pings (count : nat) : keeps rewrites (pings w count).
Proof.
  induction count as [|n IH]; simpl.
  - keeps_rewrites.
  - pose proof keeps_rewrites_keepAlivePing. keeps_rewrites.
Qed.

Lemma keeps_rewrites_warmUpConnection : keeps rewrites (warmUpConnection w).
Proof. unfold warmUpConnection. pose proof keeps_rewrites_pings. keeps_rewrites. Qed.

Lemma perform_rewrites (c : Call) (s : State) : rewrites s (perform w c s).
Proof.
  pose proof keeps_rewrites_switchToNextProxy as Hswitch.
  pose proof keeps_rewrites_testHttpConnectivity as Hhttp.
  pose proof keeps_rewrites_warmUpConnection as Hwarm.
  pose proof keeps_rewrites_testTcpConnectivity as Htcp.
  destruct c; unfold perform.
  - apply keeps_rewrites_loadProxies.
  - apply keeps_rewrites_getWorkingProxy.
  - apply Hswitch.
  - apply keeps_rewrites_monitorConnectionHealth.
  - apply keeps_rewrites_getConnectionAdaptiveTimeout.
  - revert s. change (keeps rewrites (setCurrentProxy w proxy)).
    unfold setCurrentProxy, validateAndWarmUpProxy. keeps_rewrites.
  - revert s. change (keeps rewrites (validateAndWarmUpProxy w)).
    unfold validateAndWarmUpProxy. keeps_rewrites.
  - apply Hwarm.
  - apply keeps_rewrites_keepAlivePing.
  - apply Htcp.
  - apply Hhttp.
  - apply keeps_rewrites_getConnectionQuality.
  - apply keeps_rewrites_monitorConnectionSpeed.
  - apply keeps_rewrites_tryCandidates.
Qed.

Lemma performAll_rewrites (calls : list Call) (s : State) :
  rewrites s (performAll w calls s).
Proof.
  revert s. induction calls as [|c l IH]; intros s; simpl.
  - reflexivity.
  - etransitivity; [apply perform_rewrites|apply IH].
Qed.

End Calls.

End RewriteFacts.

Module PoolClaims.
Import ProxyManager Spec PoolSpec ScoreSpec MethodFacts HealthFacts PoolFacts
  SelectionFacts RewriteFacts Scenario.

(** C1.  [getWorkingProxy] never throws.  It returns [null] exactly when the
    pool is empty, and then logs the warning; on a pool that is not empty it
    returns a relay: the best relay when one is known; otherwise the fastest
    of the relays it probed with success, and the relay at index 0 of the
    pool when every relay it probed failed (whatever the relays it did not
    probe would have answered). *)
Theorem getWorkingProxy_returns_relay (w : World) (s : State) :
  exists r,
    result (getWorkingProxy w) s = Returns r /\
    (r = None <-> proxies s = []) /\
    (proxies s = [] ->
     logged (after (getWorkingProxy w) s)
     = logged s ++ [(Warn, "No proxies available")]) /\
    (bestProxy s = None ->
     (forall i p, tested w s !! i = Some p ->
                  probeAnswer w (S (asked s) + i) p <= 0) ->
     r = proxies s !! 0%nat) /\
    (bestProxy s = None -> proxies s ≠ [] ->
     r = match JS.sort byResponseTime (probed w (S (asked s)) (tested w s)) with
         | best :: _ => Some best
         | [] => proxies s !! 0%nat
         end) /\
    (forall best, bestProxy s = Some best -> proxies s ≠ [] -> r = Some best).
Proof.
  change (wp (getWorkingProxy w)
            (fun c s' => exists r, c = Returns r /\
               (r = None <-> proxies s = []) /\
               (proxies s = [] ->
                logged s' = logged s ++ [(Warn, "No proxies available")]) /\
               (bestProxy s = None ->
                (forall i p, tested w s !! i = Some p ->
                             probeAnswer w (S (asked s) + i) p <= 0) ->
                r = proxies s !! 0%nat) /\
               (bestProxy s = None -> proxies s ≠ [] ->
                r = match JS.sort byResponseTime
                              (probed w (S (asked s)) (tested w s)) with
                    | best :: _ => Some best
                    | [] => proxies s !! 0%nat
                    end) /\
               (forall best, bestProxy s = Some best -> proxies s ≠ [] ->
                             r = Some best)) s).
  unfold getWorkingProxy. apply wp_bind, wp_get. cbn beta iota.
  destruct (decide (length (proxies s) = 0%nat)) as [Hempty|Hpool].
  - apply length_zero_iff_nil in Hempty.
    apply wp_bind, wp_modify, wp_ret. exists None.
    rewrite Hempty. by repeat split.
  - assert (proxies s ≠ []) as Hne by (by intros Heq; rewrite Heq in Hpool).
    assert (exists first, proxies s !! 0%nat = Some first) as [first Hfirst].
    { apply lookup_lt_is_Some. lia. }
    apply wp_bind.
    apply wp_mono with
      (Q := fun c s1 =>
              c = Returns tt /\ proxies s1 = proxies s /\
              bestProxy s1
              = match bestProxy s with
                | Some best => Some best
                | None =>
                    match JS.sort byResponseTime
                            (probed w (S (asked s)) (tested w s)) with
                    | best :: _ => Some best
                    | [] => None
                    end
                end).
    { destruct (bestProxy s) as [best|] eqn:Hbest.
      - apply wp_ret. by repeat split.
      - eapply wp_mono; [by apply findBestProxy_run|].
        intros c s1 (-> & Hp & _ & Hb). by rewrite Hb, Hbest. }
    intros c s1 (-> & Hp1 & Hb1). apply wp_bind, wp_get. cbn beta iota.
    destruct (bestProxy s1) as [best|] eqn:Hbest1.
    + apply wp_bind, wp_modify. cbn beta iota.
      apply wp_bind, wp_modify, wp_ret. exists (Some best).
      split; [done|]. split; [done|]. split; [done|]. split; [|split].
      * intros Hnone Hfail. rewrite Hnone in Hb1.
        by rewrite (probed_none w _ _ Hfail) in Hb1.
      * intros Hnone _. rewrite Hnone in Hb1.
        by destruct (JS.sort byResponseTime _).
      * intros best' Hsome _. rewrite Hsome in Hb1. congruence.
    + apply wp_bind, wp_modify. cbn beta iota. cbn [withLogged proxies].
      rewrite Hp1, Hfirst.
      apply wp_bind, wp_modify. cbn beta iota.
      apply wp_bind, wp_modify, wp_ret. exists (Some first).
      split; [done|]. split; [done|]. split; [done|]. split; [done|]. split.
      * intros Hnone _. rewrite Hnone in Hb1.
        by destruct (JS.sort byResponseTime _).
      * intros best' Hsome _. rewrite Hsome in Hb1. congruence.
Qed.

(** With one relay tested per selection, [relayA] refused and [relayB]
    alive but not probed, the fallback is [relayA]; an empty pool gives
    [null]. *)
Lemma getWorkingProxy_returns_relay_witness :
  result (getWorkingProxy onlyRelayBAnswers) testsOne = Returns (Some relayA) /\
  result (getWorkingProxy deadWorld) (construct defaults) = Returns None.
Proof.
  split.
  - destruct (getWorkingProxy_returns_relay onlyRelayBAnswers testsOne)
      as (r & Hr & _ & _ & Hfallback & _).
    rewrite Hr. f_equal. apply Hfallback; [reflexivity|].
    assert (tested onlyRelayBAnswers testsOne = [relayA]) as ->
      by by vm_compute.
    intros [|i] p; [|by simpl].
    intros [= <-]. by vm_compute.
  - destruct (getWorkingProxy_returns_relay deadWorld (construct defaults))
      as (r & Hr & Hnull & _).
    rewrite Hr. f_equal. by apply Hnull.
Defined.

(** The selection of the specification's example: both probes succeed, the
    second relay is the faster one and is returned. *)
Example getWorkingProxy_picks_fastest :
  host <$> default None
    (match result (getWorkingProxy
                     (world (fun _ _ => HttpReply 200 true)
                            (fun n => if decide (n = 1%nat) then 500 else 200)))
                  (withProxies [relayA; relayB]
                     (construct (mkOptions 4 "" [] [] 2)))
     with Returns r => Some r | Throws _ => None end)
  = Some "10.0.0.2".
Proof. reflexivity. Qed.




(** C3, the defect.  With a current relay, a probe that fails is classified
    [excellent]: the sentinel -1 is below 2000, and [pingProxy] does not
    throw, so the handler that answers [critical] is never entered. *)
Theorem getConnectionQuality_failed_probe_excellent (w : World) (s : State)
    (proxy : ProxyInfo) :
  currentProxy s = Some proxy ->
  probeSucceeds w (asked s) proxy = false ->
  result (getConnectionQuality w) s = Returns excellent.
Proof.
  intros Hcurrent Hfail.
  change (wp (getConnectionQuality w) (fun c _ => c = Returns excellent) s).
  unfold getConnectionQuality. apply wp_bind, wp_get. cbn beta iota.
  rewrite Hcurrent. apply wp_tryCatch, wp_bind, wp_pingProxy. intros s1 _.
  unfold probeAnswer. rewrite Hfail. by apply wp_ret.
Qed.

Lemma getConnectionQuality_failed_probe_excellent_witness :
  result (getConnectionQuality deadWorld) onRelayA = Returns excellent.
Proof.
  apply (getConnectionQuality_failed_probe_excellent deadWorld onRelayA relayA);
    reflexivity.
Defined.

(** The classification of a probe that succeeds is the one of the
    specification. *)
Lemma getConnectionQuality_of_latency (w : World) (s : State)
    (proxy : ProxyInfo) :
  currentProxy s = Some proxy ->
  probeSucceeds w (asked s) proxy = true ->
  let t := elapsed w (asked s) in
  result (getConnectionQuality w) s
  = Returns (if t <? 2000 then excellent
             else if t <? 5000 then good
             else if t <? 10000 then poor
             else critical).
Proof.
  intros Hcurrent Hok t.
  change (wp (getConnectionQuality w)
            (fun c _ => c = Returns (if t <? 2000 then excellent
                                     else if t <? 5000 then good
                                     else if t <? 10000 then poor
                                     else critical)) s).
  unfold getConnectionQuality. apply wp_bind, wp_get. cbn beta iota.
  rewrite Hcurrent. apply wp_tryCatch, wp_bind, wp_pingProxy. intros s1 _.
  unfold probeAnswer. rewrite Hok. fold t.
  destruct (t <? 2000); [by apply wp_ret|].
  destruct (t <? 5000); [by apply wp_ret|].
  destruct (t <? 10000); by apply wp_ret.
Qed.

(** C4.  Whatever the pool, the world and the calls made since the manager
    was constructed, no stored health score is below 0. *)
Theorem health_score_never_negative (w : World) (o : Options)
    (pool : list ProxyInfo) (calls : list Call) (key : string) :
  let s := performAll w calls (withProxies pool (construct o)) in
  0 <= scoreOf (proxyHealthScores s) key /\
  forall score, proxyHealthScores s !! key = Some score -> 0 <= score.
Proof.
  intros s.
  assert (scoresNonNegative (proxyHealthScores s)) as Hnonneg.
  { eapply Adjusted_nonneg; [apply performAll_adjusts|].
    intros k v. simpl. by rewrite lookup_empty. }
  split; [by apply scoreOf_nonneg|]. apply Hnonneg.
Qed.

Lemma health_score_never_negative_witness :
  0 <= scoreOf (proxyHealthScores
                  (performAll deadWorld
                     [GetWorkingProxy; SwitchToNextProxy; TestHttpConnectivity]
                     twoRelays)) "10.0.0.2:1080" /\
  proxyHealthScores
    (performAll deadWorld
       [GetWorkingProxy; SwitchToNextProxy; TestHttpConnectivity] twoRelays)
    !! "10.0.0.2:1080" = Some 0.
Proof.
  destruct (health_score_never_negative deadWorld defaults [relayA; relayB]
              [GetWorkingProxy; SwitchToNextProxy; TestHttpConnectivity]
              "10.0.0.2:1080") as [Hscore Hstored].
  split; [exact Hscore|]. by vm_compute.
Defined.




End PoolClaims.

(** * The optimizer: stability score *)

Module StabilityFacts.
Import QuantumProxyManager QuantumSpec MethodFacts.

Lemma Qmax_lower (a b : Q) : (a <= Qmax a b)%Q.
Proof. unfold Qmax. destruct (Qlt_le_dec a b); lra. Qed.

Lemma Qmax_upper (a b c : Q) : (a <= c -> b <= c -> Qmax a b <= c)%Q.
Proof. unfold Qmax. destruct (Qlt_le_dec a b); lra. Qed.

(** [Math.round] keeps a number of 0..100 in 0..100. *)
Lemma round_percent (x : Q) : (0 <= x <= 100)%Q -> 0 <= round x <= 100.
Proof.
  intros [Hlo Hhi]. unfold round. split.
  - change 0 with (Qfloor 0). apply Qfloor_resp_le. lra.
  - change 100 with (Qfloor (100 + (1 # 2))). apply Qfloor_resp_le. lra.
Qed.

Lemma stabilityScore_percent (latency jitter packetLoss : Q) :
  (0 <= latency)%Q -> (0 <= jitter)%Q -> (0 <= packetLoss <= 100)%Q ->
  0 <= stabilityScore latency jitter packetLoss <= 100.
Proof.
  intros Hl Hj [Hp0 Hp100]. unfold stabilityScore. apply round_percent.
  assert (0 <= latency / 10)%Q as Hl10 by (apply Qle_shift_div_l; lra).
  set (tenth := (latency / 10)%Q) in *. clearbody tenth.
  set (mean := fun a b c : Q => ((a + b + c) / 3)%Q).
  change (0 <= mean (Qmax 0 (100 - tenth)) (Qmax 0 (100 - jitter * 10))
                    (100 - packetLoss) <= 100)%Q.
  assert (forall a b c : Q, 0 <= a <= 100 -> 0 <= b <= 100 -> 0 <= c <= 100 ->
                            0 <= mean a b c <= 100)%Q as Hmean.
  { intros a b c [] [] []. unfold mean. split.
    - apply Qle_shift_div_l; lra.
    - apply Qle_shift_div_r; lra. }
  apply Hmean; [split|split|lra].
  - apply Qmax_lower.
  - apply Qmax_upper; lra.
  - apply Qmax_lower.
  - apply Qmax_upper; lra.
Qed.

Lemma ratio_nonneg (a b : Z) : 0 <= a -> 0 < b -> (0 <= inject_Z a / inject_Z b)%Q.
Proof.
  intros Ha Hb. apply Qle_shift_div_l.
  - change 0%Q with (inject_Z 0). rewrite <- Zlt_Qlt. lia.
  - rewrite Qmult_0_l. change 0%Q with (inject_Z 0). rewrite <- Zle_Qle. lia.
Qed.

Lemma sumAbsDiffs_nonneg (previous : Z) (rest : list Z) :
  0 <= sumAbsDiffs previous rest.
Proof.
  revert previous. induction rest as [|x l IH]; intros previous; simpl; [lia|].
  specialize (IH x). lia.
Qed.

Lemma calculateJitter_nonneg (samples : list Z) :
  (0 <= calculateJitter samples)%Q.
Proof.
  unfold calculateJitter. destruct samples as [|first [|second rest]]; try lra.
  apply ratio_nonneg; [apply sumAbsDiffs_nonneg|]. simpl length. lia.
Qed.

Lemma sum_nonneg (samples : list Z) :
  Forall (fun t => 0 <= t) samples -> 0 <= foldr Z.add 0 samples.
Proof. induction 1; simpl; lia. Qed.


Global Instance quiet_preorder : PreOrder quiet.
Proof.
  split.
  - intros s. by repeat split.
  - intros s1 s2 s3 [(? & ? & ?) ?] [(? & ? & ?) ?].
    repeat split; try congruence. lia.
Qed.

Lemma keeps_quiet_modify (f : State -> State) :
  (forall s, heap (f s) = heap s /\ connections (f s) = connections s /\
             currentConnection (f s) = currentConnection s /\
             questions (f s) = questions s) ->
  keeps quiet (modify f).
Proof.
  intros H s. destruct (H s) as (? & ? & ? & Hq).
  repeat split; try done. unfold after. simpl. by rewrite Hq.
Qed.

Lemma keeps_quiet_ask (q : Question) : keeps quiet (ask q).
Proof.
  intros s. repeat split. unfold after. simpl. rewrite length_app. lia.
Qed.

(** Splits [keeps quiet m] along [m]; closes the questions and the
    assignments to fields outside the registry. *)
Ltac keeps_quiet :=
  keeps_with ltac:(first [ assumption
                         | apply keeps_quiet_ask
                         | apply keeps_quiet_modify; intros; by repeat split
                         | solve [auto] ]).

Section Quiet.

Variable w : World.

Lemma keeps_quiet_logger (l : Level) (message : string) :
  keeps quiet (logger l message).
Proof. unfold logger. keeps_quiet. Qed.

Lemma keeps_quiet_dateNow : keeps quiet (dateNow w).
Proof. unfold dateNow. keeps_quiet. Qed.

Lemma keeps_quiet_dnsLookup (domain : string) : keeps quiet (dnsLookup w domain).
Proof. unfold dnsLookup. keeps_quiet. Qed.

Lemma keeps_quiet_clientGet (client : Client) (url : string) :
  keeps quiet (clientGet w client url).
Proof. unfold clientGet. keeps_quiet. Qed.

Lemma keeps_quiet_quantumDNSResolve (domain : string) :
  keeps quiet (quantumDNSResolve w domain).
Proof.
  unfold quantumDNSResolve.
  pose proof keeps_quiet_dateNow. pose proof keeps_quiet_dnsLookup.
  pose proof keeps_quiet_logger. keeps_quiet.
Qed.

Lemma keeps_quiet_simulateThreeWayHandshake (proxy : QuantumProxyConfig) :
  keeps quiet (simulateThreeWayHandshake w proxy).
Proof. unfold simulateThreeWayHandshake. keeps_quiet. Qed.

Lemma keeps_quiet_createOptimizedAxiosInstance :
  keeps quiet createOptimizedAxiosInstance.
Proof. unfold createOptimizedAxiosInstance. keeps_quiet. Qed.

Lemma keeps_quiet_createSecureOptimizedAxiosInstance :
  keeps quiet createSecureOptimizedAxiosInstance.
Proof. unfold createSecureOptimizedAxiosInstance. keeps_quiet. Qed.

Lemma keeps_quiet_testHTTPConnectivity (proxy : QuantumProxyConfig) :
  keeps quiet (testHTTPConnectivity w proxy).
Proof.
  unfold testHTTPConnectivity.
  pose proof keeps_quiet_createOptimizedAxiosInstance.
  pose proof keeps_quiet_clientGet. keeps_quiet.
Qed.

Lemma keeps_quiet_sampleHttp (proxy : QuantumProxyConfig) (rounds : nat)
    (httpSamples : list Z) :
  keeps quiet (sampleHttp w proxy rounds httpSamples).
Proof.
  revert httpSamples. induction rounds as [|n IH]; intros httpSamples; simpl.
  - keeps_quiet.
  - pose proof keeps_quiet_dateNow.
    pose proof keeps_quiet_testHTTPConnectivity. keeps_quiet.
Qed.

Lemma keeps_quiet_measureConnectionQuality (proxy : QuantumProxyConfig) :
  keeps quiet (measureConnectionQuality w proxy).
Proof.
  unfold measureConnectionQuality, testTCPHandshake.
  pose proof keeps_quiet_dateNow.
  pose proof keeps_quiet_simulateThreeWayHandshake.
  pose proof keeps_quiet_sampleHttp. keeps_quiet.
Qed.

Lemma wp_dateNow (Q : Completion Z -> State -> Prop) (s : State) :
  Q (Returns (now w (length (questions s))))
    (withQuestions (questions s ++ [DateNow]) s) ->
  wp (dateNow w) Q s.
Proof. done. Qed.

(** A request of the measurement does not throw. *)
Lemma wp_testHTTPConnectivity (proxy : QuantumProxyConfig)
    (Q : Completion bool -> State -> Prop) (s : State) :
  (forall success s', quiet s s' -> Q (Returns success) s') ->
  wp (testHTTPConnectivity w proxy) Q s.
Proof.
  intros HQ. unfold wp.
  pose proof (keeps_quiet_testHTTPConnectivity proxy s) as Hquiet.
  destruct (tryCatch_returns
              (instance ← createOptimizedAxiosInstance;
               response ← clientGet w instance "http://httpbin.org/get";
               mret (status response =? 200)) false s) as [b Hb].
  unfold testHTTPConnectivity at 1. rewrite Hb. by apply HQ.
Qed.

Hypothesis clock : clockMonotone w.

(** Under a clock that does not run backwards the samples are durations:
    none is negative; and a round adds one sample at most. *)
Lemma wp_sampleHttp (proxy : QuantumProxyConfig) (rounds : nat)
    (httpSamples : list Z) (Q : Completion (list Z) -> State -> Prop)
    (s : State) :
  Forall (fun t => 0 <= t) httpSamples ->
  (forall samples s',
     Forall (fun t => 0 <= t) samples ->
     (length samples <= length httpSamples + rounds)%nat ->
     Q (Returns samples) s') ->
  wp (sampleHttp w proxy rounds httpSamples) Q s.
Proof.
  revert httpSamples s Q.
  induction rounds as [|n IH]; intros httpSamples s Q Hsamples HQ; simpl.
  - apply wp_ret, HQ; [done|lia].
  - apply wp_bind, wp_dateNow. cbn beta iota.
    apply wp_bind, wp_testHTTPConnectivity. intros success s1 [_ Hs1].
    apply wp_bind, wp_dateNow. cbn beta iota.
    assert (0 <= now w (length (questions s1)) - now w (length (questions s)))
      as Htime.
    { simpl in Hs1. rewrite length_app in Hs1. simpl in Hs1.
      pose proof (clock (length (questions s)) (length (questions s1))). lia. }
    apply IH.
    + destruct success; [|done]. apply Forall_app. split; [done|].
      by apply Forall_singleton.
    + intros samples s' Hall Hlen. apply HQ; [done|].
      destruct success; [|lia]. rewrite length_app in Hlen. simpl in Hlen. lia.
Qed.

End Quiet.

Section Samples.

Variable w : World.

Lemma stabilityScore_nonneg (latency jitter packetLoss : Q) :
  (packetLoss <= 100)%Q -> 0 <= stabilityScore latency jitter packetLoss.
Proof.
  intros Hp. unfold stabilityScore. cbv zeta.
  pose proof (Qmax_lower 0 (100 - latency / 10)) as Hl.
  pose proof (Qmax_lower 0 (100 - jitter * 10)) as Hj.
  set (a := Qmax 0 (100 - latency / 10)) in *. clearbody a.
  set (b := Qmax 0 (100 - jitter * 10)) in *. clearbody b.
  assert (0 <= (a + b + (100 - packetLoss)) / 3)%Q
    by (apply Qle_shift_div_l; lra).
  set (mean := ((a + b + (100 - packetLoss)) / 3)%Q) in *. clearbody mean.
  unfold round. change 0 with (Qfloor 0). apply Qfloor_resp_le. lra.
Qed.

Lemma sampled_length (n c rounds : nat) :
  (length (sampled w n c rounds) <= rounds)%nat.
Proof.
  revert n c. induction rounds as [|r IH]; intros n c; simpl; [lia|].
  rewrite length_app. specialize (IH (S (S (S n))) (S c)).
  destruct (sampleOk w (S n) c); simpl; lia.
Qed.

(** Under a clock that does not run backwards no sample is negative. *)
Lemma sampled_durations (n c rounds : nat) :
  clockMonotone w -> Forall (fun t => 0 <= t) (sampled w n c rounds).
Proof.
  intros Hclock. revert n c.
  induction rounds as [|r IH]; intros n c; simpl; [constructor|].
  apply Forall_app. split; [|apply IH].
  destruct (sampleOk w (S n) c); [|constructor].
  apply Forall_singleton. pose proof (Hclock n (S (S n))). lia.
Qed.

Lemma wp_testTCPHandshake_counted (proxy : QuantumProxyConfig)
    (Q : Completion bool -> State -> Prop) (s : State) :
  (forall s',
     length (questions s') = S (length (questions s)) ->
     clients s' = clients s ->
     Q (Returns (handshakes w (length (questions s)))) s') ->
  wp (testTCPHandshake w proxy) Q s.
Proof.
  intros HQ. unfold handshakes in HQ.
  unfold wp, result, after, testTCPHandshake, simulateThreeWayHandshake,
    ask, mbind, M_bind. simpl.
  destruct (connected w (length (questions s))); simpl; apply HQ; simpl;
    rewrite ?length_app; simpl; lia.
Qed.

Lemma wp_testHTTPConnectivity_counted (proxy : QuantumProxyConfig)
    (Q : Completion bool -> State -> Prop) (s : State) :
  (forall s',
     length (questions s') = S (length (questions s)) ->
     clients s' = S (clients s) ->
     Q (Returns (sampleOk w (length (questions s)) (clients s))) s') ->
  wp (testHTTPConnectivity w proxy) Q s.
Proof.
  intros HQ. unfold sampleOk in HQ.
  unfold wp, result, after, testHTTPConnectivity, tryCatch,
    createOptimizedAxiosInstance, clientGet, ask, mbind, M_bind,
    JS.get, modify, mret, M_ret, throw.
  simpl.
  destruct (axiosGet _ _); simpl; apply HQ; simpl;
    rewrite ?length_app; simpl; lia.
Qed.

(** The loop of the measurement returns the samples that [sampled] lists,
    whatever the clock and the network do. *)
Lemma wp_sampleHttp_sampled (proxy : QuantumProxyConfig) (rounds : nat)
    (httpSamples : list Z) (Q : Completion (list Z) -> State -> Prop)
    (s : State) :
  (forall s',
     Q (Returns (httpSamples
                 ++ sampled w (length (questions s)) (clients s) rounds)) s') ->
  wp (sampleHttp w proxy rounds httpSamples) Q s.
Proof.
  revert httpSamples s Q.
  induction rounds as [|r IH]; intros httpSamples s Q HQ;
    cbn [sampleHttp sampled].
  - apply wp_ret. specialize (HQ s). by rewrite app_nil_r in HQ.
  - apply wp_bind, wp_dateNow. cbn beta iota.
    apply wp_bind, wp_testHTTPConnectivity_counted. intros s1 Hq1 Hc1.
    apply wp_bind, wp_dateNow. cbn beta iota.
    apply IH. intros s'. specialize (HQ s'). cbn [sampled] in HQ.
    set (n := length (questions s)) in *.
    assert (length (questions (withQuestions (questions s ++ [DateNow]) s))
            = S n) as E0 by (simpl; rewrite length_app; simpl; lia).
    rewrite E0 in *.
    assert (length (questions (withQuestions (questions s1 ++ [DateNow]) s1))
            = S (S (S n))) as E2
      by (simpl; rewrite length_app, Hq1; simpl; lia).
    rewrite E2, Hq1.
    change (clients (withQuestions (questions s1 ++ [DateNow]) s1))
      with (clients s1).
    rewrite Hc1.
    change (clients (withQuestions (questions s ++ [DateNow]) s))
      with (clients s).
    destruct (sampleOk w (S n) (clients s)); [rewrite <- app_assoc|]; exact HQ.
Qed.

End Samples.

End StabilityFacts.

Module StabilityClaims.
Import QuantumProxyManager QuantumSpec QuantumScenario MethodFacts StabilityFacts.

(** C9, as the source has it.  The measurement never throws, and the
    stability it reports is an integer that is never negative.  It is at
    most 100 when none of its samples is negative, and so under a clock that
    does not run backwards; the samples are differences of two readings of
    [Date.now()], which the code does not clamp.  It is 0 when the TCP check
    fails, and 10, with a reported loss of 0, when the TCP check succeeds
    and every sample fails.  The score computed from any latency and jitter
    that are not negative and any loss of 0..100 percent is in 0..100. *)
Theorem stability_within_percent (w : World) (proxy : QuantumProxyConfig)
    (s : State) :
  (exists m,
     result (measureConnectionQuality w proxy) s = Returns m /\
     0 <= stability m /\
     (Forall (fun t => 0 <= t) (measured w s) -> stability m <= 100) /\
     (clockMonotone w -> stability m <= 100) /\
     (handshakes w (length (questions s) + 2) = false -> stability m = 0) /\
     (handshakes w (length (questions s) + 2) = true ->
      measured w s = [] ->
      stability m = 10 /\ packetLoss m = 0%Q)) /\
  (forall latency jitter packetLoss : Q,
     (0 <= latency)%Q -> (0 <= jitter)%Q -> (0 <= packetLoss <= 100)%Q ->
     0 <= stabilityScore latency jitter packetLoss <= 100).
Proof.
  split; [|apply stabilityScore_percent].
  change (wp (measureConnectionQuality w proxy)
            (fun c _ =>
               exists m, c = Returns m /\
                 0 <= stability m /\
                 (Forall (fun t => 0 <= t) (measured w s) ->
                  stability m <= 100) /\
                 (clockMonotone w -> stability m <= 100) /\
                 (handshakes w (length (questions s) + 2) = false ->
                  stability m = 0) /\
                 (handshakes w (length (questions s) + 2) = true ->
                  measured w s = [] ->
                  stability m = 10 /\ packetLoss m = 0%Q)) s).
  unfold measureConnectionQuality.
  apply wp_bind, wp_dateNow. cbn beta iota. apply wp_tryCatch.
  apply wp_bind, wp_dateNow. cbn beta iota.
  apply wp_bind, wp_testTCPHandshake_counted. intros s2 Hq2 Hc2.
  assert (length (questions s2) = (length (questions s) + 3)%nat) as Hasked.
  { rewrite Hq2. simpl. rewrite !length_app. simpl. lia. }
  assert (clients s2 = clients s) as Hclients by (by rewrite Hc2).
  replace (length (questions
             (withQuestions
                (questions (withQuestions (questions s ++ [DateNow]) s)
                 ++ [DateNow])
                (withQuestions (questions s ++ [DateNow]) s))))
    with (length (questions s) + 2)%nat
    by (simpl; rewrite !length_app; simpl; lia).
  clear Hq2 Hc2.
  apply wp_bind, wp_dateNow. cbn beta iota.
  destruct (handshakes w (length (questions s) + 2)); simpl negb; cbn iota.
  2:{ apply wp_ret. eexists. split; [reflexivity|]. simpl.
      repeat split; try lia; done. }
  apply wp_bind, wp_sampleHttp_sampled. intros s'.
  replace (length (questions (withQuestions (questions s2 ++ [DateNow]) s2)))
    with (length (questions s) + 4)%nat
    by (simpl; rewrite length_app, Hasked; simpl; lia).
  change (clients (withQuestions (questions s2 ++ [DateNow]) s2))
    with (clients s2).
  rewrite Hclients. rewrite app_nil_l. fold (measured w s).
  pose proof (sampled_length w (length (questions s) + 4) (clients s) 5)
    as Hlen.
  fold (measured w s) in Hlen.
  destruct (decide (length (measured w s) = 0%nat)) as [Hnone|Hsome].
  { apply wp_ret. eexists. split; [reflexivity|]. simpl.
    repeat split; try lia; done. }
  assert (0 <= (5 - inject_Z (Z.of_nat (length (measured w s)))) / 5 * 100
          <= 100)%Q as Hloss.
  { assert (1 <= inject_Z (Z.of_nat (length (measured w s))) <= 5)%Q
      as [Hlo Hhi].
    { split.
      - change 1%Q with (inject_Z 1). rewrite <- Zle_Qle. lia.
      - change 5%Q with (inject_Z 5). rewrite <- Zle_Qle. lia. }
    set (n := inject_Z (Z.of_nat (length (measured w s)))) in *. clearbody n.
    assert (0 <= (5 - n) / 5 <= 1)%Q as Hshare.
    { split; [apply Qle_shift_div_l|apply Qle_shift_div_r]; lra. }
    set (share := ((5 - n) / 5)%Q) in *. clearbody share. lra. }
  assert (Forall (fun t => 0 <= t) (measured w s) ->
          stabilityScore
            (inject_Z (foldr Z.add 0 (measured w s))
             / inject_Z (Z.of_nat (length (measured w s))))
            (calculateJitter (measured w s))
            ((5 - inject_Z (Z.of_nat (length (measured w s)))) / 5 * 100)
          <= 100) as Hupper.
  { intros Hall. apply stabilityScore_percent; [|apply calculateJitter_nonneg|done].
    apply ratio_nonneg; [by apply sum_nonneg|lia]. }
  apply wp_ret. eexists. split; [reflexivity|]. cbn [stability packetLoss].
  split; [apply stabilityScore_nonneg, Hloss|].
  split; [exact Hupper|].
  split; [intros Hclock; by apply Hupper, sampled_durations|].
  split; [done|].
  intros _ Hempty. by rewrite Hempty in Hsome.
Qed.

(** On a network where everything answers and the clock advances 40 ms per
    question the five samples are 80 ms each and the stability is 97; a
    relay that does not connect scores 0; a relay through which every
    request fails scores 10 and is reported with a loss of 0. *)
Lemma stability_within_percent_witness :
  (exists m,
     result (measureConnectionQuality allUp relay) fresh = Returns m /\
     0 <= stability m <= 100) /\
  (exists m,
     result (measureConnectionQuality relayDown relay) fresh = Returns m /\
     stability m = 0) /\
  (exists m,
     result (measureConnectionQuality requestsFail relay) fresh = Returns m /\
     stability m = 10 /\ packetLoss m = 0%Q) /\
  0 <= stabilityScore 80 0 0 <= 100.
Proof.
  destruct (stability_within_percent allUp relay fresh)
    as ((m1 & Hm1 & Hlow & Hupper & _) & Hformula).
  destruct (stability_within_percent relayDown relay fresh)
    as ((m2 & Hm2 & _ & _ & _ & Hdown & _) & _).
  destruct (stability_within_percent requestsFail relay fresh)
    as ((m3 & Hm3 & _ & _ & _ & _ & Hfail) & _).
  split; [|split; [|split]].
  - exists m1. split; [exact Hm1|]. split; [exact Hlow|].
    apply Hupper. by vm_compute; repeat constructor.
  - exists m2. split; [exact Hm2|]. by apply Hdown.
  - exists m3. split; [exact Hm3|]. by apply Hfail.
  - apply Hformula; lra.
Defined.

(** C9 as it is worded fails.  [Date.now()] is the wall clock: when it is
    set back by ten seconds during the first sample, that sample is
    -9920 ms, the mean latency is negative, and the stability reported is
    131.  And a relay through which all five requests fail is not reported
    with a loss of 100 percent: the measurement returns before it computes a
    loss, with the stability 10 and the loss 0. *)
Lemma stability_counterexample :
  (measured clockSetBack fresh = [-9920; 80; 80; 80; 80] /\
   (stability <$>
      match result (measureConnectionQuality clockSetBack relay) fresh with
      | Returns m => Some m
      | Throws _ => None
      end) = Some 131 /\
   100 < 131) /\
  (measured requestsFail fresh = [] /\
   (packetLoss <$>
      match result (measureConnectionQuality requestsFail relay) fresh with
      | Returns m => Some m
      | Throws _ => None
      end) = Some 0%Q).
Proof. by vm_compute. Qed.

(** The two early answers of the measurement: a relay that does not connect
    scores 0, a relay through which every sample fails scores 10. *)
Example stability_of_failed_checks :
  (stability <$>
     match result (measureConnectionQuality relayDown relay) fresh with
     | Returns m => Some m
     | Throws _ => None
     end) = Some 0 /\
  (stability <$>
     match result (measureConnectionQuality requestsFail relay) fresh with
     | Returns m => Some m
     | Throws _ => None
     end) = Some 10.
Proof. by vm_compute. Qed.

End StabilityClaims.

(** * The optimizer: audit report and name resolution *)

Module OptimizerClaims.
Import QuantumProxyManager QuantumSpec QuantumScenario MethodFacts.

(** C10.  [performSecurityAudit] asks nothing of the outside and changes
    nothing.  It throws when no connection is current and when the current
    connection has no security snapshot; otherwise it returns the score, the
    vulnerabilities and the recommendations of the snapshot, with the risk
    level LOW from 80, MEDIUM from 60, HIGH from 40 and CRITICAL below. *)
Theorem performSecurityAudit_reports_snapshot (s : State) :
  after performSecurityAudit s = s /\
  (currentConnection s = None ->
   result performSecurityAudit s
   = Throws (PlainError "No active connection to audit")) /\
  (forall ref connection,
     currentConnection s = Some ref -> heap s !! ref = Some connection ->
     securityMetrics connection = None ->
     result performSecurityAudit s
     = Throws (PlainError "No security metrics available")) /\
  (forall ref connection snapshot,
     currentConnection s = Some ref -> heap s !! ref = Some connection ->
     securityMetrics connection = Some snapshot ->
     exists level,
       result performSecurityAudit s
       = Returns (mkReport (securityScore snapshot) (vulnerabilities snapshot)
                    (recommendations snapshot) level) /\
       (80 <= securityScore snapshot -> level = "LOW") /\
       (60 <= securityScore snapshot < 80 -> level = "MEDIUM") /\
       (40 <= securityScore snapshot < 60 -> level = "HIGH") /\
       (securityScore snapshot < 40 -> level = "CRITICAL")).
Proof.
  unfold performSecurityAudit, result, after, mbind, M_bind, get. cbn.
  repeat split.
  - destruct (currentConnection s) as [ref|]; [|done].
    destruct (heap s !! ref) as [c|]; [|done].
    by destruct (securityMetrics c).
  - by intros ->.
  - intros ref c -> Hc Hnone. by rewrite Hc, Hnone.
  - intros ref c m -> Hc Hm. rewrite Hc, Hm. cbn.
    eexists. split; [reflexivity|].
    repeat split; intros H.
    + assert ((80 <=? securityScore m) = true) as -> by (apply Z.leb_le; lia).
      done.
    + assert ((80 <=? securityScore m) = false) as -> by (apply Z.leb_gt; lia).
      assert ((60 <=? securityScore m) = true) as -> by (apply Z.leb_le; lia).
      done.
    + assert ((80 <=? securityScore m) = false) as -> by (apply Z.leb_gt; lia).
      assert ((60 <=? securityScore m) = false) as -> by (apply Z.leb_gt; lia).
      assert ((40 <=? securityScore m) = true) as -> by (apply Z.leb_le; lia).
      done.
    + assert ((80 <=? securityScore m) = false) as -> by (apply Z.leb_gt; lia).
      assert ((60 <=? securityScore m) = false) as -> by (apply Z.leb_gt; lia).
      assert ((40 <=? securityScore m) = false) as -> by (apply Z.leb_gt; lia).
      done.
Qed.

Lemma performSecurityAudit_reports_snapshot_witness :
  result performSecurityAudit fresh
  = Throws (PlainError "No active connection to audit") /\
  result performSecurityAudit audited72
  = Returns (mkReport 72 ["weak cipher"] ["rotate certificate"] "MEDIUM").
Proof.
  split.
  - by apply (performSecurityAudit_reports_snapshot fresh).
  - destruct (performSecurityAudit_reports_snapshot audited72)
      as (_ & _ & _ & Hreport).
    destruct (Hreport 0%nat _ _ eq_refl eq_refl eq_refl)
      as (level & Hresult & _ & Hmedium & _).
    rewrite Hresult. rewrite Hmedium; [reflexivity|]. simpl. lia.
Defined.


(** Unfolds the sequencing of a method body applied to a state. *)
Ltac run_method :=
  unfold result, after;
  repeat (progress unfold mbind, M_bind, mret, M_ret, tryCatch, throw, get,
            modify, logger, dateNow, dnsLookup, ask, withQuestions,
            withDnsCache, withLogged);
  cbn -[Z.ltb].

(** C8.  While the cached entry of a domain expires after the clock reading,
    the cached address is returned and no lookup is made.  Once it has
    expired, or when there is none, a lookup is made: its address is returned
    and cached for [dnsCacheTTL]; when it fails, the address of the cached
    entry is returned if there is one, and the error is thrown if there is
    none.  A lookup that has just succeeded answers the next call from the
    cache. *)
Theorem quantumDNSResolve_uses_cache (w : World) (domain : string) (s : State) :
  let n := length (questions s) in
  let resolved := after (quantumDNSResolve w domain) s in
  (forall entry,
     dnsCache s !! domain = Some entry -> now w n < expires entry ->
     result (quantumDNSResolve w domain) s = Returns (ip entry) /\
     dnsCache resolved = dnsCache s /\
     questions resolved = questions s ++ [DateNow]) /\
  (forall entry address,
     dnsCache s !! domain = Some entry -> expires entry <= now w n ->
     lookedUp w (S n) = Returns address ->
     result (quantumDNSResolve w domain) s = Returns address /\
     dnsCache resolved
     = <[domain := mkDns address (now w (S (S n)) + dnsCacheTTL s)]> (dnsCache s) /\
     questions resolved = questions s ++ [DateNow; DnsLookup domain; DateNow]) /\
  (forall entry e,
     dnsCache s !! domain = Some entry -> expires entry <= now w n ->
     lookedUp w (S n) = Throws e ->
     result (quantumDNSResolve w domain) s = Returns (ip entry) /\
     dnsCache resolved = dnsCache s /\
     questions resolved = questions s ++ [DateNow; DnsLookup domain]) /\
  (forall address,
     dnsCache s !! domain = None -> lookedUp w n = Returns address ->
     result (quantumDNSResolve w domain) s = Returns address /\
     dnsCache resolved
     = <[domain := mkDns address (now w (S n) + dnsCacheTTL s)]> (dnsCache s) /\
     questions resolved = questions s ++ [DnsLookup domain; DateNow] /\
     (now w (S (S n)) < now w (S n) + dnsCacheTTL s ->
      result (quantumDNSResolve w domain) resolved = Returns address /\
      questions (after (quantumDNSResolve w domain) resolved)
      = questions resolved ++ [DateNow])) /\
  (forall e,
     dnsCache s !! domain = None -> lookedUp w n = Throws e ->
     result (quantumDNSResolve w domain) s = Throws e /\
     dnsCache resolved = dnsCache s /\
     questions resolved = questions s ++ [DnsLookup domain]).
Proof.
  intros n resolved. subst n resolved. unfold quantumDNSResolve.
  split; [|split; [|split; [|split]]].
  - intros entry Hcached Hfresh. apply Z.ltb_lt in Hfresh.
    run_method. rewrite Hcached. cbn -[Z.ltb]. by rewrite Hfresh.
  - intros entry address Hcached Hstale Hlookup. apply Z.ltb_ge in Hstale.
    run_method. rewrite Hcached. cbn -[Z.ltb]. rewrite Hstale. cbn -[Z.ltb].
    rewrite length_app, Nat.add_1_r. cbn -[Z.ltb]. rewrite Hlookup.
    cbn -[Z.ltb]. rewrite !length_app. cbn [length].
    rewrite !Nat.add_1_r, <- !app_assoc. done.
  - intros entry e Hcached Hstale Hlookup. apply Z.ltb_ge in Hstale.
    run_method. rewrite Hcached. cbn -[Z.ltb]. rewrite Hstale. cbn -[Z.ltb].
    rewrite length_app, Nat.add_1_r. cbn -[Z.ltb]. rewrite Hlookup.
    cbn -[Z.ltb]. rewrite <- !app_assoc. done.
  - intros address Hnone Hlookup.
    run_method. rewrite Hnone. cbn -[Z.ltb]. rewrite Hlookup. cbn -[Z.ltb].
    rewrite length_app, Nat.add_1_r, <- !app_assoc.
    split; [done|]. split; [done|]. split; [done|].
    intros Hfresh. apply Z.ltb_lt in Hfresh.
    rewrite lookup_insert_eq. cbn -[Z.ltb].
    rewrite !length_app. cbn [length].
    replace (length (questions s) + 2)%nat with (S (S (length (questions s))))
      by lia.
    rewrite Hfresh. cbn -[Z.ltb]. by rewrite <- !app_assoc.
  - intros e Hnone Hlookup.
    run_method. rewrite Hnone. cbn -[Z.ltb]. rewrite Hlookup. cbn -[Z.ltb].
    done.
Qed.


Lemma quantumDNSResolve_uses_cache_witness :
  result (quantumDNSResolve statusDown "act.playcfl.com") cachedUntil1000
  = Returns "203.0.113.7" /\
  questions (after (quantumDNSResolve statusDown "act.playcfl.com")
               cachedUntil1000) = [DateNow] /\
  result (quantumDNSResolve lateNoNames "act.playcfl.com") cachedUntil1000
  = Returns "203.0.113.7" /\
  questions (after (quantumDNSResolve lateNoNames "act.playcfl.com")
               cachedUntil1000) = [DateNow; DnsLookup "act.playcfl.com"] /\
  result (quantumDNSResolve noNames "act.playcfl.com") fresh
  = Throws notFound.
Proof.
  destruct (quantumDNSResolve_uses_cache statusDown "act.playcfl.com"
              cachedUntil1000) as (Hfresh & _).
  destruct (quantumDNSResolve_uses_cache lateNoNames "act.playcfl.com"
              cachedUntil1000) as (_ & _ & Hstale & _).
  destruct (quantumDNSResolve_uses_cache noNames "act.playcfl.com" fresh)
    as (_ & _ & _ & _ & Hnone).
  destruct (Hfresh (mkDns "203.0.113.7" 1000) eq_refl) as (H1 & _ & H2);
    [simpl; lia|].
  destruct (Hstale (mkDns "203.0.113.7" 1000) notFound eq_refl)
    as (H3 & _ & H4); [simpl; lia|reflexivity|].
  destruct (Hnone notFound eq_refl eq_refl) as (H5 & _).
  repeat split; assumption.
Defined.

End OptimizerClaims.

(** * The optimizer: initialization *)

Module InitFacts.
Import QuantumProxyManager QuantumSpec MethodFacts StabilityFacts.

Section Init.

Variable w : World.

Lemma keeps_quiet_establishSecureConnection (h : string) (p : Z) :
  keeps quiet (establishSecureConnection w h p).
Proof. unfold establishSecureConnection. keeps_quiet. Qed.

Lemma keeps_quiet_createConnectionPool_loop (proxy : QuantumProxyConfig)
    (remaining : nat) (pool : list Client) :
  keeps quiet (createConnectionPool_loop w proxy remaining pool).
Proof.
  revert pool. induction remaining as [|n IH]; intros pool; simpl.
  - keeps_quiet.
  - pose proof keeps_quiet_createOptimizedAxiosInstance.
    pose proof (keeps_quiet_clientGet w). keeps_quiet.
Qed.

Lemma keeps_quiet_createConnectionPool (proxy : QuantumProxyConfig)
    (poolSize : nat) :
  keeps quiet (createConnectionPool w proxy poolSize).
Proof.
  unfold createConnectionPool.
  pose proof keeps_quiet_createConnectionPool_loop.
  pose proof keeps_quiet_logger. keeps_quiet.
Qed.

Lemma keeps_quiet_performQuantumConnectivityTest (connection : SmartConnection) :
  keeps quiet (performQuantumConnectivityTest w connection).
Proof.
  unfold performQuantumConnectivityTest, testChunkedRequests,
    performConnectionSeeding, settled.
  pose proof (keeps_quiet_simulateThreeWayHandshake w).
  pose proof (keeps_quiet_clientGet w). keeps_quiet.
Qed.

(** With no cached entry, a lookup that fails makes the resolution throw. *)
Lemma quantumDNSResolve_fails (domain : string) (e : Error) (s : State) :
  dnsCache s !! domain = None ->
  lookedUp w (length (questions s)) = Throws e ->
  result (quantumDNSResolve w domain) s = Throws e.
Proof.
  intros Hnone Hlookup. unfold quantumDNSResolve, result.
  repeat (progress unfold mbind, M_bind, mret, M_ret, tryCatch, throw, get,
            modify, dnsLookup, ask).
  cbn. rewrite Hnone. cbn. by rewrite Hlookup.
Qed.

(** The acceptance test fails at its first stage when the handshake does. *)
Lemma performQuantumConnectivityTest_handshake (connection : SmartConnection)
    (s : State) :
  handshakeFails w ->
  result (performQuantumConnectivityTest w connection) s = Returns false.
Proof.
  intros Hfails. specialize (Hfails (length (questions s))).
  unfold performQuantumConnectivityTest, simulateThreeWayHandshake, result.
  repeat (progress unfold mbind, M_bind, mret, M_ret, tryCatch, ask).
  cbn -[Z.ltb]. destruct (connected w (length (questions s))) as [t|]; [|done].
  by assert ((t <? 3000) = false) as -> by (apply Z.ltb_ge; lia).
Qed.

Lemma wp_quiet {A : Type} (m : Method A) (Q : Completion A -> State -> Prop)
    (s0 s : State) :
  keeps quiet m -> quiet s0 s ->
  (forall r s', quiet s0 s' -> Q r s') ->
  wp m Q s.
Proof.
  intros Hm Hs HQ. apply HQ. etransitivity; [exact Hs|apply Hm].
Qed.

Lemma quiet_logged (s0 s : State) (l : list (Level * string)) :
  quiet s0 s -> quiet s0 (withLogged l s).
Proof. intros [(? & ? & ?) ?]. by repeat split. Qed.

End Init.

Create HintDb quiet.
#[export] Hint Resolve keeps_quiet_logger keeps_quiet_dateNow
  keeps_quiet_quantumDNSResolve keeps_quiet_establishSecureConnection
  keeps_quiet_measureConnectionQuality
  keeps_quiet_createSecureOptimizedAxiosInstance
  keeps_quiet_createConnectionPool
  keeps_quiet_performQuantumConnectivityTest : quiet.

End InitFacts.

Module InitClaims.
Import QuantumProxyManager QuantumSpec QuantumScenario MethodFacts
  StabilityFacts InitFacts.

(** The handler of the initialization, and the branch of a failed test:
    a log line, then [false]. *)
Ltac init_fails :=
  apply wp_bind, wp_modify; cbn beta iota; apply wp_ret; left;
  split; [reflexivity|by apply quiet_logged].

(** A call of the initialization that registers nothing: it either throws,
    which the handler turns into [false], or the body goes on. *)
Ltac init_step :=
  apply wp_bind;
  match goal with
  | Hq : quiet ?s0 ?s |- wp ?m _ ?s =>
      apply (wp_quiet m _ s0 s);
      [ keeps_with ltac:(solve [auto with quiet])
      | exact Hq
      | clear Hq; intros [?|?] ? Hq; cbn beta iota; [|init_fails] ]
  end.





End InitClaims.

(** * The loader: what enters the pool *)

Module LoaderExtras.
Import ProxyManager Spec PoolSpec JSFacts LoaderFacts MethodFacts Scenario.

Section Parsed.

Variable newURL : string -> Completion URL.

Lemma parseProxy_valid (line proto : string) (p : ProxyInfo) :
  parseProxy newURL line proto = Returns (Some p) -> validRelay p.
Proof.
  unfold parseProxy.
  destruct (if includes "://" line then _ else _) as [[[pr parts]|]|e];
    [|done|done].
  destruct (parseInt _) as [n|]; [|done].
  destruct (truthy (default "" (parts !! 0%nat))) eqn:Hhost; [|done].
  destruct (n <? 1) eqn:Hlo; [done|].
  destruct (65535 <? n) eqn:Hhi; [done|].
  cbn. intros [= <-]. split; simpl.
  - intros Heq. by rewrite Heq in Hhost.
  - apply Z.ltb_ge in Hlo. apply Z.ltb_ge in Hhi. lia.
Qed.

Lemma parseLines_valid (proto : string) (lines : list string)
    (acc : list ProxyInfo) :
  Forall validRelay acc ->
  Forall validRelay (parseLines newURL proto lines acc).1.
Proof.
  revert acc. induction lines as [|line l IH]; intros acc Hacc; simpl; [done|].
  destruct (parseProxy newURL (trim line) proto) as [[p|]|e] eqn:Hp;
    [|by apply IH|done].
  apply IH, Forall_app. split; [done|].
  apply Forall_singleton. by eapply parseProxy_valid.
Qed.

Lemma loadProxiesFromFile_valid (path : string) (file : FileRead)
    (proto : string) :
  Forall validRelay (loadProxiesFromFile newURL path file proto).1.
Proof.
  unfold loadProxiesFromFile. destruct file as [|e|content]; [done|done|].
  pose proof (parseLines_valid proto (contentLines content) [] ltac:(constructor)).
  by destruct (parseLines newURL proto (contentLines content) []) as [ps [e|]].
Qed.

Lemma loadProxiesFromUrl_valid (url : string) (fetched : Completion string)
    (proto : string) :
  Forall validRelay (loadProxiesFromUrl newURL url fetched proto).1.
Proof.
  unfold loadProxiesFromUrl. destruct fetched as [content|e]; [|done].
  pose proof (parseLines_valid proto (contentLines content) [] ltac:(constructor)).
  by destruct (parseLines newURL proto (contentLines content) []) as [ps [e|]].
Qed.

End Parsed.

Lemma wp_loadProxiesFromUrls (w : World) (urls : list string) (proto : string)
    (acc : list ProxyInfo) (Q : Completion (list ProxyInfo) -> State -> Prop)
    (s : State) :
  Forall validRelay acc ->
  (forall found s', Forall validRelay found -> Q (Returns found) s') ->
  wp (loadProxiesFromUrls w urls proto acc) Q s.
Proof.
  revert acc s. induction urls as [|url l IH]; intros acc s Hacc HQ; simpl.
  - by apply wp_ret, HQ.
  - pose proof (loadProxiesFromUrl_valid (newURL w) url (fetchList w url) proto)
      as Hfound.
    destruct (loadProxiesFromUrl _ _ _ _) as [found entries].
    apply wp_bind, wp_modify. cbn beta iota. apply IH; [|done].
    apply Forall_app. by split.
Qed.

(** X1.  [loadProxies] never throws, and every relay of the pool it leaves
    has a host that is not empty and a port of 1..65535, whatever the file,
    the list sources and the platform's URL parser hold. *)
Theorem loadProxies_pool_valid (w : World) (s : State) :
  result (loadProxies w) s = Returns tt /\
  Forall validRelay (proxies (after (loadProxies w) s)).
Proof.
  change (wp (loadProxies w)
            (fun c s' => c = Returns tt /\ Forall validRelay (proxies s')) s).
  unfold loadProxies. apply wp_bind, wp_get. cbn beta iota.
  apply wp_bind.
  apply wp_mono with
    (Q := fun c _ => exists found, c = Returns found /\ Forall validRelay found).
  - destruct ((proxyType (options s) =? 1) || (proxyType (options s) =? 2)).
    + destruct (truthy (proxyFile (options s))); [|apply wp_ret; by eexists].
      pose proof (loadProxiesFromFile_valid (newURL w) (proxyFile (options s))
                    (fileRead w)
                    (if proxyType (options s) =? 2 then "https" else "http"))
        as Hfound.
      destruct (loadProxiesFromFile _ _ _ _) as [found entries].
      apply wp_bind, wp_modify, wp_ret. by eexists.
    + destruct (proxyType (options s) =? 3);
        [apply wp_loadProxiesFromUrls; [done|]; intros; by eexists|].
      destruct (proxyType (options s) =? 4);
        [apply wp_loadProxiesFromUrls; [done|]; intros; by eexists|].
      apply wp_ret. by eexists.
  - intros c s1 (found & -> & Hfound).
    apply wp_bind, wp_modify. cbn beta iota. by apply wp_modify.
Qed.

End LoaderExtras.

Module LoaderAbort.
Import ProxyManager Spec PoolSpec JSFacts LoaderFacts MethodFacts Scenario.

Lemma parseLines_stops (newURL : string -> Completion URL) (proto : string)
    (before after : list string) (bad : string) (e : Error)
    (acc : list ProxyInfo) :
  parseProxy newURL (trim bad) proto = Throws e ->
  parseLines newURL proto (before ++ bad :: after) acc
  = match parseLines newURL proto before acc with
    | (found, None) => (found, Some e)
    | stopped => stopped
    end.
Proof.
  intros Hbad. rewrite parseLines_app.
  destruct (parseLines newURL proto before acc) as [found [e'|]]; [done|].
  simpl. by rewrite Hbad.
Qed.

(** X2.  A line on which the parser throws (a [scheme://] line that [new
    URL] refuses) ends the load of a file: the relays of the lines before it
    are returned, the lines after it are not read, and the error is logged in
    place of the count. *)
Theorem loadProxiesFromFile_stops_at_throw
    (newURL : string -> Completion URL) (path proto before bad after : string)
    (e : Error) (found : list ProxyInfo) :
  occurs "010" bad = false ->
  parseProxy newURL (trim bad) proto = Throws e ->
  parseLines newURL proto (contentLines before) [] = (found, None) ->
  loadProxiesFromFile newURL path
    (FileContent (before +:+ newline +:+ bad +:+ newline +:+ after)) proto
  = (found, [(LogError, "Error loading proxies from file: " +:+ errorText e)]).
Proof.
  intros Hline Hbad Hbefore.
  change (before +:+ newline +:+ bad +:+ newline +:+ after)
    with (before +:+ String "010" (bad +:+ String "010" after)).
  unfold loadProxiesFromFile, contentLines.
  rewrite !split_app, (split_occurs _ bad Hline), !filter_app.
  assert (truthy (trim bad) = true) as Htruthy.
  { destruct (trim bad) eqn:Hb; [|done]. discriminate Hbad. }
  rewrite (filter_cons_True _ bad []) by done. rewrite filter_nil.
  change ((filter (λ line : string, truthy (trim line) = true)
             (JS.split "010" before)
           ++ [bad] ++
           filter (λ line : string, truthy (trim line) = true)
             (JS.split "010" after)))
    with (contentLines before ++ bad :: contentLines after).
  rewrite (parseLines_stops _ _ _ _ _ e) by done. by rewrite Hbefore.
Qed.

Lemma loadProxiesFromFile_stops_at_throw_witness :
  loadProxiesFromFile noURL "proxies.txt"
    (FileContent ("10.0.0.1:8080" +:+ newline +:+ "socks5://10.0.0.2:1080" +:+
                  newline +:+ "10.0.0.3:1080")) "http"
  = ([mkProxy "10.0.0.1" 8080 "http" None],
     [(LogError, "Error loading proxies from file: TypeError: Invalid URL")]).
Proof.
  apply (loadProxiesFromFile_stops_at_throw noURL "proxies.txt" "http"
           "10.0.0.1:8080" "socks5://10.0.0.2:1080" "10.0.0.3:1080"
           (TypeError "Invalid URL")); reflexivity.
Defined.

Lemma pretty_no_colon (z : Z) : occurs ":" (pretty z) = false.
Proof.
  assert (forall x : positive, occurs ":" (pretty (N.pos x)) = false) as Hpos.
  { intros x. unfold pretty, pretty_N.
    destruct (decide (N.pos x = 0%N)); [done|].
    apply numeric_plain, pretty_N_go_digits. done. }
  destruct z as [|x|x]; [done|apply Hpos|].
  change (pretty (Z.neg x)) with ("-" +:+ pretty (N.pos x)).
  rewrite occurs_app, Hpos. done.
Qed.

(** The text after the last colon of a key is its port. *)
Lemma key_parts (h1 h2 r1 r2 : string) :
  occurs ":" r1 = false -> occurs ":" r2 = false ->
  h1 +:+ String ":" r1 = h2 +:+ String ":" r2 -> h1 = h2 /\ r1 = r2.
Proof.
  revert h2. induction h1 as [|a h1 IH]; intros [|b h2] H1 H2 Heq;
    simpl in *.
  - by injection Heq as ->.
  - injection Heq as <- Heq. rewrite Heq, occurs_app in H1. simpl in H1.
    destruct (decide (":"%char = ":"%char)); [|done].
    by rewrite orb_true_r in H1.
  - injection Heq as -> Heq. rewrite <- Heq, occurs_app in H2. simpl in H2.
    destruct (decide (":"%char = ":"%char)); [|done].
    by rewrite orb_true_r in H2.
  - injection Heq as -> Heq.
    destruct (IH h2 H1 H2 Heq) as [-> ->]. done.
Qed.

(** X3.  The key [host:port] under which health scores are stored tells
    relays apart: two relays with the same key have the same host and the
    same port, also when a host holds colons. *)
Theorem proxyKey_injective (p q : ProxyInfo) :
  proxyKey p = proxyKey q -> host p = host q /\ port p = port q.
Proof.
  intros Hkey. unfold proxyKey in Hkey.
  change (host p +:+ String ":" (pretty (port p))
          = host q +:+ String ":" (pretty (port q))) in Hkey.
  destruct (key_parts _ _ _ _ (pretty_no_colon _) (pretty_no_colon _) Hkey)
    as [Hhost Hport].
  split; [done|]. by apply (inj pretty).
Qed.

Lemma proxyKey_injective_witness :
  host relayA = host (withResponseTime relayA 120) /\
  port relayA = port (withResponseTime relayA 120).
Proof.
  apply (proxyKey_injective relayA (withResponseTime relayA 120)).
  reflexivity.
Defined.

End LoaderAbort.

(** * Sorting and ranking *)

Module SortFacts.

Section Sort.

Context {A : Type} (cmp : A -> A -> Z).

Lemma insertSorted_perm (x : A) (l : list A) :
  Permutation (insertSorted cmp x l) (x :: l).
Proof.
  induction l as [|y l IH]; simpl; [done|].
  destruct (cmp x y <=? 0); [done|].
  rewrite IH. apply perm_swap.
Qed.

Lemma sort_perm (l : list A) : Permutation (JS.sort cmp l) l.
Proof.
  induction l as [|x l IH]; simpl; [done|].
  rewrite insertSorted_perm. by constructor.
Qed.

Hypothesis cmp_trans :
  forall a b c, cmp a b <= 0 -> cmp b c <= 0 -> cmp a c <= 0.
Hypothesis cmp_total : forall a b, cmp a b <= 0 \/ cmp b a <= 0.

Lemma insertSorted_sorted (x : A) (l : list A) :
  StronglySorted (fun a b => cmp a b <= 0) l ->
  StronglySorted (fun a b => cmp a b <= 0) (insertSorted cmp x l).
Proof.
  induction 1 as [|y l Hl IH Hy]; simpl.
  - repeat constructor.
  - destruct (cmp x y <=? 0) eqn:Hxy.
    + apply Z.leb_le in Hxy. constructor; [by constructor|].
      constructor; [done|].
      eapply Forall_impl; [exact Hy|]. intros z Hz. by eapply cmp_trans.
    + apply Z.leb_gt in Hxy. constructor; [exact IH|].
      rewrite insertSorted_perm. constructor; [|done].
      destruct (cmp_total x y); [lia|done].
Qed.

Lemma sort_sorted (l : list A) :
  StronglySorted (fun a b => cmp a b <= 0) (JS.sort cmp l).
Proof.
  induction l as [|x l IH]; simpl; [constructor|].
  by apply insertSorted_sorted.
Qed.

End Sort.

Lemma StronglySorted_weaken {A : Type} (R R' : A -> A -> Prop) (l : list A) :
  (forall a b, R a b -> R' a b) -> StronglySorted R l -> StronglySorted R' l.
Proof.
  intros HR. induction 1 as [|x l Hl IH Hx]; constructor; [done|].
  eapply Forall_impl; [exact Hx|]. auto.
Qed.

End SortFacts.

Module RankingExtras.
Import ProxyManager Spec PoolSpec SortFacts Scenario.

Lemma byHealth_ranks (scores : gmap string Z) (a b : ProxyInfo) :
  byHealth scores a b <= 0 <-> ranksBefore scores a b.
Proof.
  unfold byHealth, ranksBefore, rankLatency.
  destruct (decide (scoreOf scores (proxyKey a) = scoreOf scores (proxyKey b)));
    lia.
Qed.

(** X4.  The ranking of the candidates of a switch keeps every candidate
    (it is a permutation of them) and puts them in order: each one has a
    higher health score than those after it, or the same score and a latency
    ([responseTime], 99999 when unknown or 0) that is not higher. *)
Theorem switch_ranking_sorted (scores : gmap string Z)
    (candidates : list ProxyInfo) :
  Permutation (JS.sort (byHealth scores) candidates) candidates /\
  StronglySorted (ranksBefore scores) (JS.sort (byHealth scores) candidates).
Proof.
  split; [apply sort_perm|].
  apply StronglySorted_weaken with (R := fun a b => byHealth scores a b <= 0);
    [intros a b; apply byHealth_ranks|].
  apply sort_sorted.
  - intros a b c Hab Hbc. apply byHealth_ranks in Hab, Hbc.
    apply byHealth_ranks. unfold ranksBefore in *. lia.
  - intros a b.
    destruct (decide (byHealth scores a b <= 0)) as [|Hn]; [by left|].
    right. apply byHealth_ranks. rewrite byHealth_ranks in Hn.
    unfold ranksBefore in *. lia.
Qed.

End RankingExtras.

(** * Selection and switching *)

Module SelectionExtras.
Import ProxyManager Spec PoolSpec MethodFacts PoolFacts SelectionFacts
  SortFacts Scenario.



(** X6.  When at least one probe of [findBestProxy] takes a positive time,
    the best relay becomes one of the relays so probed, with a measured time
    that no other successful probe undercuts; each such relay is a relay of
    the pool with its positive time attached.  When none does, the best relay
    is left as it was. *)
Theorem findBestProxy_selects_fastest (w : World) (s : State) :
  proxies s ≠ [] ->
  let found := probed w (S (asked s)) (tested w s) in
  let s' := after (findBestProxy w) s in
  (found = [] -> bestProxy s' = bestProxy s) /\
  (found ≠ [] ->
   exists best,
     bestProxy s' = Some best /\ best ∈ found /\
     forall r, r ∈ found ->
       default 0 (responseTime best) <= default 0 (responseTime r)) /\
  (forall r, r ∈ found ->
     exists p t, p ∈ proxies s /\ r = withResponseTime p t /\ 0 < t).
Proof.
  intros Hpool found s'.
  destruct (findBestProxy_run w s Hpool) as (_ & _ & _ & Hbest).
  fold found s' in Hbest.
  pose proof (sort_perm byResponseTime found) as Hperm.
  assert (StronglySorted (fun a b => byResponseTime a b <= 0)
            (JS.sort byResponseTime found)) as Hsorted.
  { apply sort_sorted; unfold byResponseTime; intros; lia. }
  split; [|split].
  - intros Hnone. rewrite Hnone in Hbest. exact Hbest.
  - intros Hsome. destruct (JS.sort byResponseTime found) as [|best rest].
    { apply Permutation_nil_l in Hperm. by symmetry in Hperm. }
    exists best. split; [exact Hbest|]. split.
    + rewrite <- Hperm. left.
    + intros r Hr. rewrite <- Hperm in Hr.
      apply StronglySorted_inv in Hsorted as [_ Hall].
      apply elem_of_cons in Hr as [->|Hr]; [done|].
      rewrite Forall_forall in Hall. specialize (Hall r).
      unfold byResponseTime in Hall. specialize (Hall Hr). lia.
  - intros r Hr. destruct (probed_origin _ _ _ _ Hr) as (p & t & Hp & -> & Ht).
    exists p, t. split; [by eapply tested_in_pool|done].
Qed.

Lemma findBestProxy_selects_fastest_witness :
  bestProxy (after (findBestProxy (liveWorld 250)) twoRelays)
  = Some (withResponseTime relayA 250).
Proof.
  assert (proxies twoRelays ≠ []) as Hpool by done.
  destruct (findBestProxy_selects_fastest (liveWorld 250) twoRelays Hpool)
    as (_ & Hfound & _).
  destruct Hfound as (best & Hbest & _); [done|].
  rewrite Hbest. vm_compute in Hbest. by injection Hbest as <-.
Defined.

(** X7.  Once a best relay is known, [getWorkingProxy] returns it and makes
    it current without a probe: it asks nothing of the world and changes no
    health score. *)
Theorem getWorkingProxy_reuses_best (w : World) (s : State) (best : ProxyInfo) :
  proxies s ≠ [] -> bestProxy s = Some best ->
  result (getWorkingProxy w) s = Returns (Some best) /\
  currentProxy (after (getWorkingProxy w) s) = Some best /\
  asked (after (getWorkingProxy w) s) = asked s /\
  proxyHealthScores (after (getWorkingProxy w) s) = proxyHealthScores s.
Proof.
  intros Hpool Hbest.
  change (wp (getWorkingProxy w)
            (fun c s' => c = Returns (Some best) /\
               currentProxy s' = Some best /\ asked s' = asked s /\
               proxyHealthScores s' = proxyHealthScores s) s).
  unfold getWorkingProxy. apply wp_bind, wp_get. cbn beta iota.
  destruct (decide (length (proxies s) = 0%nat)) as [Hlen|_].
  { by apply length_zero_iff_nil in Hlen. }
  rewrite Hbest. apply wp_bind, wp_ret. cbn beta iota.
  apply wp_bind, wp_get. cbn beta iota. rewrite Hbest.
  apply wp_bind, wp_modify. cbn beta iota.
  by apply wp_bind, wp_modify, wp_ret.
Qed.

Lemma getWorkingProxy_reuses_best_witness :
  result (getWorkingProxy deadWorld) (withBestProxy (Some relayB) twoRelays)
  = Returns (Some relayB) /\
  asked (after (getWorkingProxy deadWorld)
           (withBestProxy (Some relayB) twoRelays)) = 0%nat.
Proof.
  destruct (getWorkingProxy_reuses_best deadWorld
              (withBestProxy (Some relayB) twoRelays) relayB)
    as (Hr & _ & Ha & _); [done|reflexivity|].
  split; [exact Hr|exact Ha].
Defined.

End SelectionExtras.

Module SwitchExtras.
Import ProxyManager Spec PoolSpec MethodFacts PoolFacts SortFacts
  SelectionFacts Scenario.

Lemma wp_tryCandidates (w : World) (candidates : list ProxyInfo)
    (Q : Completion (option ProxyInfo) -> State -> Prop) (s : State) :
  (forall r s',
     proxies s' = proxies s ->
     (asked s' <= asked s + length candidates)%nat ->
     match r with
     | Some p => p ∈ candidates /\ currentProxy s' = Some p
     | None => currentProxy s' = currentProxy s
     end ->
     Q (Returns r) s') ->
  wp (tryCandidates w candidates) Q s.
Proof.
  revert s Q. induction candidates as [|c l IH]; intros s Q HQ; simpl.
  - apply wp_bind, wp_modify, wp_ret. apply HQ; [done|simpl; lia|done].
  - apply wp_bind, wp_get. cbn beta iota.
    apply wp_bind, wp_modify. cbn beta iota.
    apply wp_bind, wp_pingProxy_counted. intros s1 (Hp & _ & Hc & _) Hasked.
    cbn [withLogged asked proxies currentProxy] in *.
    destruct ((0 <? probeAnswer w (asked s) c)
              && (probeAnswer w (asked s) c <? 8000)).
    + apply wp_bind, wp_modify. cbn beta iota.
      apply wp_bind, wp_modify. cbn beta iota.
      apply wp_bind, wp_modify, wp_ret. apply HQ; simpl.
      * exact Hp.
      * lia.
      * split; [left|done].
    + apply wp_bind, wp_modify. cbn beta iota.
      apply IH. intros r s2 Hp2 Hasked2 Hr. simpl in *. apply HQ.
      * congruence.
      * lia.
      * destruct r as [p|]; [|congruence].
        destruct Hr as [Hin Hcur]. split; [by right|done].
Qed.

(** The switch never throws; what it returns is a relay of the pool under
    another key than the current one, which it made current. *)
Lemma wp_switchToNextProxy (w : World)
    (Q : Completion (option ProxyInfo) -> State -> Prop) (s : State) :
  (forall r s',
     proxies s' = proxies s ->
     (asked s' <= asked s + 3)%nat ->
     match r with
     | Some p =>
         p ∈ proxies s /\
         Some (proxyKey p) ≠ proxyKey <$> currentProxy s /\
         currentProxy s' = Some p
     | None => currentProxy s' = currentProxy s
     end ->
     Q (Returns r) s') ->
  wp (switchToNextProxy w) Q s.
Proof.
  intros HQ.
  unfold switchToNextProxy. apply wp_bind, wp_get. cbn beta iota.
  destruct (decide (length (proxies s) = 0%nat)).
  { apply wp_bind, wp_modify, wp_ret. apply HQ; [done|simpl; lia|done]. }
  destruct (decide (length (filter _ (proxies s)) = 0%nat)).
  { apply wp_bind, wp_modify, wp_ret. apply HQ; [done|simpl; lia|done]. }
  apply wp_tryCandidates. intros r s' Hp Hasked Hr.
  apply HQ; [done| |].
  { rewrite length_take in Hasked. lia. }
  destruct r as [p|]; [|done]. destruct Hr as [Hin Hcur].
  apply subseteq_take in Hin.
  rewrite (sort_perm (byHealth (proxyHealthScores s))) in Hin.
  apply list_elem_of_filter in Hin as [Hkey Hpool]. done.
Qed.

(** X8.  [switchToNextProxy] never throws, leaves the pool as it is and
    probes three relays at most.  The relay it returns is a relay of the pool
    whose key is not the key of the relay that was current, and it is made
    current; when it returns [null] the current relay is the one of before. *)
Theorem switchToNextProxy_alternative (w : World) (s : State) :
  exists r,
    result (switchToNextProxy w) s = Returns r /\
    proxies (after (switchToNextProxy w) s) = proxies s /\
    (asked (after (switchToNextProxy w) s) <= asked s + 3)%nat /\
    match r with
    | Some p =>
        p ∈ proxies s /\
        (Some (proxyKey p) = proxyKey <$> currentProxy s -> False) /\
        currentProxy (after (switchToNextProxy w) s) = Some p
    | None => currentProxy (after (switchToNextProxy w) s) = currentProxy s
    end.
Proof.
  apply (wp_switchToNextProxy w
           (fun c s' => exists r, c = Returns r /\ proxies s' = proxies s /\
              (asked s' <= asked s + 3)%nat /\
              match r with
              | Some p =>
                  p ∈ proxies s /\
                  (Some (proxyKey p) = proxyKey <$> currentProxy s -> False) /\
                  currentProxy s' = Some p
              | None => currentProxy s' = currentProxy s
              end)).
  intros r s' Hp Hasked Hr. exists r. repeat (split; [done|]).
  by destruct r.
Qed.

Lemma switchToNextProxy_alternative_witness :
  result (switchToNextProxy (liveWorld 300)) onRelayA = Returns (Some relayB) /\
  currentProxy (after (switchToNextProxy deadWorld) onRelayA) = Some relayA.
Proof.
  destruct (switchToNextProxy_alternative (liveWorld 300) onRelayA)
    as (r & Hr & _).
  destruct (switchToNextProxy_alternative deadWorld onRelayA)
    as (r' & Hr' & _ & _ & Hcur).
  split.
  - rewrite Hr. vm_compute in Hr. by injection Hr as <-.
  - vm_compute in Hr'. injection Hr' as <-. exact Hcur.
Defined.

(** X9.  With a current relay the HTTP-level check does not throw: it
    answers [true] and adds 1 to the score of the relay when the reply has a
    status below 400, and answers [false] and takes 3 from the score (not
    below 0) on any other reply or failure.  The penalty of 2 of its [else]
    branch is never applied, since axios rejects the statuses that would
    reach it. *)
Theorem testHttpConnectivity_outcome (w : World) (s : State) (p : ProxyInfo) :
  currentProxy s = Some p ->
  let ok := httpOk (replyTo w (asked s) p) in
  result (testHttpConnectivity w) s = Returns ok /\
  proxyHealthScores (after (testHttpConnectivity w) s)
  = adjust (if ok then Plus1 else Minus3) (proxyKey p) (proxyHealthScores s) /\
  asked (after (testHttpConnectivity w) s) = S (asked s).
Proof.
  intros Hcur ok. subst ok.
  unfold testHttpConnectivity, result, after, httpOk, axiosGet.
  repeat (progress unfold mbind, M_bind, mret, M_ret, tryCatch, throw,
            JS.get, modify, ask, setScore).
  cbn -[Z.ltb]. rewrite Hcur. cbn -[Z.ltb].
  destruct (replyTo w (asked s) p) as [st d|code message]; cbn -[Z.ltb].
  - destruct (st <? 400) eqn:Hst; cbn -[Z.ltb].
    + rewrite Hst. cbn. done.
    + rewrite Hcur. cbn. done.
  - rewrite Hcur. cbn. done.
Qed.

Lemma testHttpConnectivity_outcome_witness :
  result (testHttpConnectivity (liveWorld 40)) onRelayA = Returns true /\
  proxyHealthScores (after (testHttpConnectivity deadWorld) scoredOne)
  !! "10.0.0.1:8080" = Some 0.
Proof.
  destruct (testHttpConnectivity_outcome (liveWorld 40) onRelayA relayA eq_refl)
    as (Hr & _).
  destruct (testHttpConnectivity_outcome deadWorld scoredOne relayA eq_refl)
    as (_ & Hs & _).
  split; [exact Hr|]. rewrite Hs. by vm_compute.
Defined.

(** X10.  A keep-alive ping never throws.  With no current relay it answers
    [healthy] and asks nothing.  With one it answers [tcp_lost] when the
    relay does not connect, and then makes no HTTP-level check and changes no
    score; otherwise it answers [healthy] or [http_failed] as the HTTP-level
    check succeeds or fails. *)
Theorem keepAlivePing_outcome (w : World) (s : State) :
  let s' := after (performAggressiveKeepAlivePing w) s in
  match currentProxy s with
  | None =>
      result (performAggressiveKeepAlivePing w) s = Returns healthy /\ s' = s
  | Some p =>
      if tcpConnects w (asked s) p then
        result (performAggressiveKeepAlivePing w) s
        = Returns (if httpOk (replyTo w (S (asked s)) p)
                   then healthy else http_failed) /\
        asked s' = S (S (asked s))
      else
        result (performAggressiveKeepAlivePing w) s = Returns tcp_lost /\
        proxyHealthScores s' = proxyHealthScores s /\
        asked s' = S (asked s)
  end.
Proof.
  intros s'. subst s'.
  destruct (currentProxy s) as [p|] eqn:Hcur.
  - unfold performAggressiveKeepAlivePing, testTcpConnectivity.
    destruct (tcpConnects w (asked s) p) eqn:Htcp.
    + pose proof (testHttpConnectivity_outcome w (withAsked (S (asked s)) s) p
                    Hcur) as (Hr & _ & Ha).
      cbn [asked withAsked] in Hr, Ha.
      unfold result, after in *.
      repeat (progress unfold mbind, M_bind, mret, M_ret, tryCatch, throw,
                JS.get, ask).
      cbn. rewrite Hcur. cbn. rewrite Hcur. cbn. rewrite Htcp. cbn.
      destruct (testHttpConnectivity w (withAsked (S (asked s)) s))
        as [c s1]. simpl in Hr, Ha. subst c. cbn.
      by destruct (httpOk _).
    + unfold result, after.
      repeat (progress unfold mbind, M_bind, mret, M_ret, tryCatch, throw,
                JS.get, ask).
      cbn. rewrite Hcur. cbn. rewrite Hcur. cbn. rewrite Htcp. cbn. done.
  - unfold performAggressiveKeepAlivePing, result, after.
    repeat (progress unfold mbind, M_bind, mret, M_ret, JS.get).
    cbn. by rewrite Hcur.
Qed.

Lemma keepAlivePing_outcome_witness :
  result (performAggressiveKeepAlivePing deadWorld) onRelayA
  = Returns http_failed /\
  result (performAggressiveKeepAlivePing deadWorld) twoRelays
  = Returns healthy.
Proof.
  pose proof (keepAlivePing_outcome deadWorld onRelayA) as H1.
  pose proof (keepAlivePing_outcome deadWorld twoRelays) as H2.
  cbv zeta in H1, H2. split; [apply H1|apply H2].
Defined.

End SwitchExtras.

Module SettleExtras.
Import ProxyManager Spec PoolSpec MethodFacts PoolFacts SwitchExtras Scenario.

#[local] Instance sameSelection_preorder : PreOrder sameSelection.
Proof.
  split.
  - by intros s.
  - intros s1 s2 s3 (? & ? & ? & ?) (? & ? & ? & ?).
    repeat split; congruence.
Qed.

Lemma keeps_selection_assign (f : State -> State) :
  (forall s, sameSelection s (f s)) -> keeps sameSelection (modify f).
Proof. intros H s. apply H. Qed.

Ltac keeps_selection :=
  keeps_with ltac:(first [ assumption
                         | apply keeps_selection_assign; intros ?;
                           by repeat split ]).

Section Selection.

Variable w : World.

Lemma keeps_selection_ask : keeps sameSelection ask.
Proof. by intros s. Qed.

Lemma keeps_selection_testHttpConnectivity :
  keeps sameSelection (testHttpConnectivity w).
Proof.
  unfold testHttpConnectivity, setScore. pose proof keeps_selection_ask.
  keeps_selection.
Qed.

Lemma keeps_selection_testTcpConnectivity :
  keeps sameSelection (testTcpConnectivity w).
Proof.
  unfold testTcpConnectivity. pose proof keeps_selection_ask. keeps_selection.
Qed.

Lemma keeps_selection_keepAlivePing :
  keeps sameSelection (performAggressiveKeepAlivePing w).
Proof.
  unfold performAggressiveKeepAlivePing.
  pose proof keeps_selection_testTcpConnectivity.
  pose proof keeps_selection_testHttpConnectivity. keeps_selection.
Qed.

Lemma keeps_selection_pings (count : nat) : keeps sameSelection (pings w count).
Proof.
  induction count as [|n IH]; simpl.
  - keeps_selection.
  - pose proof keeps_selection_keepAlivePing. keeps_selection.
Qed.

Lemma keeps_selection_warmUpConnection :
  keeps sameSelection (warmUpConnection w).
Proof.
  unfold warmUpConnection, logger. pose proof keeps_selection_pings.
  keeps_selection.
Qed.

Lemma warmUpConnection_returns (s : State) :
  result (warmUpConnection w) s = Returns tt.
Proof.
  change (wp (warmUpConnection w) (fun r _ => r = Returns tt) s).
  unfold warmUpConnection. apply wp_bind, wp_get. cbn beta iota.
  destruct (currentProxy s); [|by apply wp_ret].
  apply wp_bind, wp_modify. cbn beta iota. apply wp_tryCatch, wp_bind.
  unfold wp at 1. destruct (result (pings w 5) _); reflexivity.
Qed.

Lemma testHttpConnectivity_returns (s : State) (p : ProxyInfo) :
  currentProxy s = Some p ->
  exists ok, result (testHttpConnectivity w) s = Returns ok.
Proof.
  intros Hcur.
  unfold testHttpConnectivity, result, axiosGet.
  repeat (progress unfold mbind, M_bind, mret, M_ret, tryCatch, throw,
            JS.get, modify, ask, setScore).
  cbn -[Z.ltb]. rewrite Hcur. cbn -[Z.ltb].
  destruct (replyTo w (asked s) p) as [st d|code message]; cbn -[Z.ltb].
  - destruct (st <? 400) eqn:Hst; cbn -[Z.ltb].
    + rewrite Hst. cbn. by eexists.
    + rewrite Hcur. cbn. by eexists.
  - rewrite Hcur. cbn. by eexists.
Qed.

End Selection.

(** X11.  [setCurrentProxy] never throws and leaves the pool as it is.
    When the relay it is given accepts the TCP connection, that relay is
    current afterwards, whatever the HTTP-level check and the warm-up found;
    when it does not, the current relay is the given one or a relay of the
    pool under another key, to which the validation switched. *)
Theorem setCurrentProxy_settles (w : World) (s : State) (p : ProxyInfo) :
  let s' := after (setCurrentProxy w p) s in
  result (setCurrentProxy w p) s = Returns tt /\
  proxies s' = proxies s /\
  (if tcpConnects w (asked s) p then currentProxy s' = Some p
   else currentProxy s' = Some p \/
        exists q, currentProxy s' = Some q /\ q ∈ proxies s /\
                  (proxyKey q = proxyKey p -> False)).
Proof.
  intros s'. subst s'.
  change (wp (setCurrentProxy w p)
            (fun r s' =>
               r = Returns tt /\ proxies s' = proxies s /\
               (if tcpConnects w (asked s) p then currentProxy s' = Some p
                else currentProxy s' = Some p \/
                     exists q, currentProxy s' = Some q /\ q ∈ proxies s /\
                               (proxyKey q = proxyKey p -> False))) s).
  unfold setCurrentProxy. apply wp_bind, wp_modify. cbn beta iota.
  apply wp_bind, wp_modify. cbn beta iota.
  unfold validateAndWarmUpProxy. apply wp_bind, wp_get.
  cbn [currentProxy withLogged withCurrentProxy].
  apply wp_bind, wp_modify. cbn beta iota. apply wp_tryCatch.
  apply wp_bind. unfold testTcpConnectivity. apply wp_bind, wp_get.
  cbn [currentProxy withLogged withCurrentProxy].
  apply wp_bind, wp_ask, wp_ret.
  cbn [asked withLogged withCurrentProxy].
  destruct (tcpConnects w (asked s) p); cbn [negb]; cbn iota.
  - apply wp_bind.
    match goal with
    | |- wp _ _ ?s1 =>
        pose proof (keeps_selection_testHttpConnectivity w s1) as Hkept;
        destruct (testHttpConnectivity_returns w s1 p eq_refl) as [ok Hok];
        unfold wp at 1; rewrite Hok
    end.
    apply wp_bind.
    match goal with
    | |- wp ?m _ ?s2 =>
        assert (keeps sameSelection m) as Hlog
          by (destruct ok; unfold logger; keeps_selection);
        assert (result m s2 = Returns tt) as Hlogged by (by destruct ok);
        specialize (Hlog s2); unfold wp at 1; rewrite Hlogged
    end.
    apply wp_bind, wp_modify. cbn beta iota.
    match goal with
    | |- wp _ _ ?s3 =>
        pose proof (keeps_selection_warmUpConnection w s3) as Hwarm;
        unfold wp; rewrite (warmUpConnection_returns w s3)
    end.
    split; [done|].
    destruct Hkept as (Hp1 & _ & Hc1 & _). destruct Hlog as (Hp2 & _ & Hc2 & _).
    destruct Hwarm as (Hp3 & _ & Hc3 & _).
    cbn [proxies currentProxy withLogged withCurrentProxy withAsked] in *.
    split; congruence.
  - apply wp_bind, wp_modify. cbn beta iota.
    apply wp_bind, wp_switchToNextProxy. intros r s2 Hp Hasked Hr.
    apply wp_ret.
    cbn [proxies currentProxy withLogged withCurrentProxy withAsked] in *.
    split; [done|]. split; [done|].
    destruct r as [q|]; [|by left].
    destruct Hr as (Hin & Hkey & Hcur). right. exists q.
    split; [done|]. split; [done|]. intros Heq. apply Hkey. simpl.
    by rewrite Heq.
Qed.

Lemma setCurrentProxy_settles_witness :
  currentProxy (after (setCurrentProxy deadWorld relayB) twoRelays)
  = Some relayB /\
  result (setCurrentProxy deadWorld relayB) twoRelays = Returns tt.
Proof.
  pose proof (setCurrentProxy_settles deadWorld twoRelays relayB) as H.
  cbv zeta in H. destruct H as (Hr & _ & Hcur). split; [exact Hcur|exact Hr].
Defined.

End SettleExtras.

Module MonitorExtras.
Import ProxyManager Spec PoolSpec MethodFacts PoolFacts Scenario.



End MonitorExtras.

(** * The optimizer: the registry of connections *)

Module RegistryFacts.
Import QuantumProxyManager QuantumSpec RegistrySpec MethodFacts.

Ltac run_registry :=
  unfold result, after;
  repeat (progress unfold mbind, M_bind, mret, M_ret, tryCatch, throw, JS.get,
            modify, logger, dateNow, ask, dangling, withQuestions, withHeap,
            withDnsCache, withConnections, withCurrentConnection, withLogged);
  cbn -[Z.ltb].

Lemma mapSet_keys {V : Type} (key : string) (v : V) (m : list (string * V)) :
  (mapSet key v m).*1 = if decide (key ∈ m.*1) then m.*1 else m.*1 ++ [key].
Proof.
  induction m as [|[k x] m IH].
  - destruct (decide (key ∈ [].*1)) as [Hin|]; [|done].
    by apply elem_of_nil in Hin.
  - cbn [mapSet]. destruct (decide (k = key)) as [->|Hk].
    + destruct (decide (key ∈ ((key, x) :: m).*1)) as [|Hout]; [done|].
      exfalso. apply Hout. by left.
    + rewrite fmap_cons, IH. cbn [fst].
      destruct (decide (key ∈ m.*1)) as [Hin|Hout].
      * destruct (decide (key ∈ ((k, x) :: m).*1)) as [|Hno]; [done|].
        exfalso. apply Hno. by right.
      * destruct (decide (key ∈ ((k, x) :: m).*1)) as [Hyes|]; [|done].
        apply elem_of_cons in Hyes as [Heq|Hin]; [by symmetry in Heq|done].
Qed.

Lemma mapSet_NoDup {V : Type} (key : string) (v : V) (m : list (string * V)) :
  NoDup m.*1 -> NoDup (mapSet key v m).*1.
Proof.
  intros Hm. rewrite mapSet_keys. destruct (decide (key ∈ m.*1)); [done|].
  apply NoDup_app. split; [done|]. split; [|apply NoDup_singleton].
  intros k Hk ->%list_elem_of_singleton. done.
Qed.

Lemma mapSet_entries {V : Type} (key : string) (v : V) (m : list (string * V))
    (entry : string * V) :
  entry ∈ mapSet key v m -> entry = (key, v) \/ entry ∈ m.
Proof.
  induction m as [|[k x] m IH]; simpl.
  - intros ->%list_elem_of_singleton. by left.
  - destruct (decide (k = key)) as [->|Hk].
    + intros [->|?]%elem_of_cons; [by left|]. right. by right.
    + intros [->|Hin]%elem_of_cons; [right; by left|].
      destruct (IH Hin) as [?|?]; [by left|]. right. by right.
Qed.

Lemma mapSet_value {V : Type} (key : string) (v : V) (m : list (string * V)) :
  (key, v) ∈ mapSet key v m.
Proof.
  induction m as [|[k x] m IH]; simpl.
  - by left.
  - destruct (decide (k = key)) as [->|Hk]; [by left|by right].
Qed.

(** The scan keeps the best score so far or moves to a registered
    connection of a higher score; no registered connection is more stable
    than the score it ends with. *)
Lemma bestOf_scan (h : list SmartConnection) (entries : list (string * nat))
    (bestConnection : option nat) (bestScore : Z) :
  let '(found, score) := bestOf h entries bestConnection bestScore in
  bestScore <= score /\
  Forall (fun entry =>
            forall connection, h !! entry.2 = Some connection ->
            stability (metrics connection) <= score) entries /\
  ((found = bestConnection /\ score = bestScore) \/
   (exists connection ref,
      found = Some ref /\ ref ∈ entries.*2 /\ h !! ref = Some connection /\
      score = stability (metrics connection) /\ bestScore < score)).
Proof.
  revert bestConnection bestScore.
  induction entries as [|[key ref] rest IH]; intros best sc; simpl.
  - split; [lia|]. split; [constructor|]. by left.
  - destruct (h !! ref) as [connection|] eqn:Href.
    + destruct (sc <? stability (metrics connection)) eqn:Hlt.
      * apply Z.ltb_lt in Hlt.
        specialize (IH (Some ref) (stability (metrics connection))).
        destruct (bestOf h rest _ _) as [found score].
        destruct IH as (Hle & Hall & Hfound).
        split; [lia|]. split.
        { constructor; [|done]. simpl. intros c Hc.
          rewrite Href in Hc. injection Hc as <-. done. }
        right. destruct Hfound as [[-> ->]|(c & r & -> & Hin & Hr & -> & Hlt')].
        -- exists connection, ref. repeat split; try done. by left.
        -- exists c, r. repeat split; try done; [by right|lia].
      * apply Z.ltb_ge in Hlt. specialize (IH best sc).
        destruct (bestOf h rest _ _) as [found score].
        destruct IH as (Hle & Hall & Hfound).
        split; [lia|]. split.
        { constructor; [|done]. simpl. intros c Hc.
          rewrite Href in Hc. injection Hc as <-. lia. }
        destruct Hfound as [?|(c & r & -> & Hin & Hr & -> & Hlt')];
          [by left|].
        right. exists c, r. repeat split; try done. by right.
    + specialize (IH best sc).
      destruct (bestOf h rest _ _) as [found score].
      destruct IH as (Hle & Hall & Hfound).
      split; [lia|]. split.
      { constructor; [|done]. simpl. intros c Hc. congruence. }
      destruct Hfound as [?|(c & r & -> & Hin & Hr & -> & Hlt')];
        [by left|].
      right. exists c, r. repeat split; try done. by right.
Qed.

(** One call with a pool that is not empty: the head of the pool is handed
    out and moved to the end of the pool. *)
Lemma getOptimizedConnection_head (w : World) (s : State) (ref : nat)
    (c : SmartConnection) (x : Client) (rest : list Client) :
  currentConnection s = Some ref ->
  heap s !! ref = Some c ->
  connectionPool c = x :: rest ->
  getOptimizedConnection w s
  = (Returns (Some x),
     withHeap (<[ref := withConnectionPool (rest ++ [x])
                          (withLastUsed (now w (length (questions s))) c)]>
                 (heap s))
       (withQuestions (questions s ++ [DateNow]) s)).
Proof.
  intros Hcur Href Hpool. unfold getOptimizedConnection.
  run_registry. rewrite Hcur. cbn. rewrite Href. cbn. rewrite Hpool. cbn.
  rewrite ?Hcur. reflexivity.
Qed.

(** What the switch does, by the connection the scan ends with. *)
Lemma switchToBestProxy_run (s : State) :
  switchToBestProxy s
  = match (bestOf (heap s) (connections s) None (-1)).1 with
    | Some ref =>
        if decide (connections s ≠ [] /\ Some ref ≠ currentConnection s)
        then (Returns true,
              withLogged
                (logged s ++
                 [(Info, "Switched to best proxy: stability " +:+
                         pretty (bestOf (heap s) (connections s) None (-1)).2
                         +:+ "/100")])
                (withCurrentConnection (Some ref) s))
        else (Returns false, s)
    | None => (Returns false, s)
    end.
Proof.
  unfold switchToBestProxy. run_registry.
  destruct (connections s) as [|entry rest] eqn:Hconn.
  - reflexivity.
  - cbn [length]. destruct (decide (S (length rest) = 0%nat)); [lia|].
    destruct (bestOf (heap s) (entry :: rest) None (-1)) as [[ref|] score];
      [|done].
    cbn. destruct (decide (Some ref ≠ currentConnection s)) as [Hne|Heq].
    + rewrite decide_True by done. by rewrite ?Hconn.
    + rewrite decide_False; [done|]. by intros [_ ?].
Qed.

End RegistryFacts.

Module RegistryExtras.
Import QuantumProxyManager QuantumSpec QuantumScenario RegistrySpec
  RegistryScenario MethodFacts StabilityFacts InitFacts RegistryFacts.

(** X13.  The pool of the current connection is handed out in turn: as many
    calls of [getOptimizedConnection] as a prefix of the pool is long return
    the clients of that prefix in their order and move them behind the rest
    of the pool, so that a full round returns every client once and leaves
    the pool in its order.  The calls change this one connection object
    only, and of it the pool order and the time of last use. *)
Theorem getOptimizedConnection_round_robin (w : World) (s : State) (ref : nat)
    (c : SmartConnection) (xs ys : list Client) :
  currentConnection s = Some ref ->
  heap s !! ref = Some c ->
  connectionPool c = xs ++ ys ->
  let s' := after (handOut w (length xs)) s in
  result (handOut w (length xs)) s = Returns (Some <$> xs) /\
  currentConnection s' = Some ref /\
  connections s' = connections s /\
  length (questions s') = (length (questions s) + length xs)%nat /\
  exists c',
    heap s' = <[ref := c']> (heap s) /\
    connectionPool c' = ys ++ xs /\
    proxy c' = proxy c /\ metrics c' = metrics c /\
    axiosInstance c' = axiosInstance c /\
    securityMetrics c' = securityMetrics c.
Proof.
  revert s c ys. induction xs as [|x xs IH]; intros s c ys Hcur Href Hpool s'.
  - subst s'. unfold result, after. cbn. split; [done|]. split; [done|].
    split; [done|]. split; [lia|].
    exists c. rewrite list_insert_id by done. rewrite app_nil_r.
    by repeat split.
  - subst s'. cbn [length handOut]. unfold result, after.
    unfold mbind at 1 3 5 7 9, M_bind.
    rewrite (getOptimizedConnection_head w s ref c x (xs ++ ys)) by done.
    set (c1 := withConnectionPool ((xs ++ ys) ++ [x])
                 (withLastUsed (now w (length (questions s))) c)).
    set (s1 := withHeap _ _).
    assert (ref < length (heap s))%nat as Hlt by by eapply lookup_lt_Some.
    destruct (IH s1 c1 (ys ++ [x])) as (Hr & Hc & Hk & Hq & c' & Hh & Hp & Hrest).
    { done. }
    { subst s1. cbn. by apply list_lookup_insert_eq. }
    { subst c1. cbn. by rewrite <- app_assoc. }
    unfold result, after in *.
    unfold mbind, M_bind, mret, M_ret in *.
    destruct (handOut w (length xs) s1) as [r s2]. simpl in *. subst r.
    cbn. split; [done|]. split; [done|]. split; [done|]. split.
    { rewrite Hq. subst s1. cbn. rewrite length_app. simpl. lia. }
    exists c'. split.
    { rewrite Hh. subst s1. cbn. by rewrite list_insert_insert_eq. }
    split; [by rewrite Hp, <- app_assoc|]. by destruct Hrest as (-> & -> & -> & ->).
Qed.

Lemma getOptimizedConnection_round_robin_witness :
  result (handOut allUp 3) pooled
  = Returns [Some (Optimized 1); Some (Optimized 2); Some (Optimized 3)] /\
  result (handOut allUp 2) pooled
  = Returns [Some (Optimized 1); Some (Optimized 2)] /\
  (connectionPool <$> heap (after (handOut allUp 2) pooled) !! 0%nat)
  = Some [Optimized 3; Optimized 1; Optimized 2].
Proof.
  destruct (getOptimizedConnection_round_robin allUp pooled 0 _
              [Optimized 1; Optimized 2; Optimized 3] [] eq_refl eq_refl eq_refl)
    as (H3 & _).
  destruct (getOptimizedConnection_round_robin allUp pooled 0 _
              [Optimized 1; Optimized 2] [Optimized 3] eq_refl eq_refl eq_refl)
    as (H2 & _ & _ & _ & c' & Hheap & Hpool & _).
  split; [exact H3|]. split; [exact H2|].
  cbn [length] in Hheap. rewrite Hheap. simpl. by rewrite Hpool.
Defined.

End RegistryExtras.

Module BestExtras.
Import QuantumProxyManager QuantumSpec QuantumScenario RegistrySpec
  RegistryScenario MethodFacts RegistryFacts.

(** X14.  [switchToBestProxy] never throws and leaves the registry as it
    is.  When it answers [true] the connection it made current is a
    registered one, is not the one that was current, and no registered
    connection is more stable; when it answers [false] the current
    connection is the one of before.  Called again at once it answers
    [false]. *)
Theorem switchToBestProxy_most_stable (s : State) :
  let s' := after switchToBestProxy s in
  exists switched,
    result switchToBestProxy s = Returns switched /\
    heap s' = heap s /\ connections s' = connections s /\
    (if (switched : bool) then
       exists ref best,
         currentConnection s' = Some ref /\
         (Some ref = currentConnection s -> False) /\
         ref ∈ (connections s).*2 /\
         stabilityAt s ref = Some best /\
         Forall (fun entry =>
                   forall score, stabilityAt s entry.2 = Some score ->
                   score <= best) (connections s)
     else currentConnection s' = currentConnection s) /\
    result switchToBestProxy s' = Returns false.
Proof.
  intros s'. subst s'. unfold result, after.
  pose proof (switchToBestProxy_run s) as Hrun.
  pose proof (bestOf_scan (heap s) (connections s) None (-1)) as Hscan.
  destruct (bestOf (heap s) (connections s) None (-1)) as [found score]
    eqn:Hbest.
  destruct Hscan as (_ & Hall & Hfound). cbn [fst snd] in Hrun.
  destruct found as [ref|].
  2:{ rewrite Hrun. exists false. cbn [fst snd]. rewrite Hrun. done. }
  destruct Hfound as [[? _]|(connection & r & Hr & Hin & Hconn & -> & _)];
    [done|].
  injection Hr as <-.
  destruct (decide (connections s ≠ [] /\ Some ref ≠ currentConnection s))
    as [[Hsome Hne]|Hsame].
  - rewrite Hrun. exists true. cbn [fst snd]. split; [done|]. split; [done|].
    split; [done|]. split.
    + exists ref, (stability (metrics connection)). split; [done|].
      split; [done|]. split; [done|]. split.
      * unfold stabilityAt. by rewrite Hconn.
      * eapply Forall_impl; [exact Hall|]. intros entry Hentry sc Hsc.
        unfold stabilityAt in Hsc.
        destruct (heap s !! entry.2) as [c|] eqn:Hc; [|done].
        injection Hsc as <-. by apply Hentry.
    + set (s1 := withLogged _ _). rewrite (switchToBestProxy_run s1).
      subst s1. cbn [heap connections currentConnection withLogged
                     withCurrentConnection].
      rewrite Hbest. cbn [fst].
      rewrite decide_False; [done|]. by intros [_ ?].
  - rewrite Hrun. exists false. cbn [fst snd]. rewrite Hrun. done.
Qed.

Lemma switchToBestProxy_most_stable_witness :
  result switchToBestProxy twoRegistered = Returns true /\
  currentConnection (after switchToBestProxy twoRegistered) = Some 1%nat /\
  result switchToBestProxy (after switchToBestProxy twoRegistered)
  = Returns false.
Proof.
  destruct (switchToBestProxy_most_stable twoRegistered)
    as (switched & Hr & _ & _ & Hcur & Hagain).
  assert (switched = true) as ->.
  { vm_compute in Hr. by injection Hr as <-. }
  split; [exact Hr|]. split; [|exact Hagain].
  destruct Hcur as (ref & best & Hcur & _ & _ & Hbest & Hall).
  rewrite Hcur. f_equal.
  vm_compute in Hcur. by injection Hcur as <-.
Defined.

(** X15.  [cleanup] forgets every connection and every resolved name: after
    it no connection is handed out or audited, a switch finds nothing, and
    the next resolution of a name asks the name service first. *)
Theorem cleanup_forgets (w : World) (s : State) (domain : string) :
  let s' := after cleanup s in
  result cleanup s = Returns tt /\
  dnsCache s' = ∅ /\ connections s' = [] /\ currentConnection s' = None /\
  result (getOptimizedConnection w) s' = Returns None /\
  result switchToBestProxy s' = Returns false /\
  result getConnectionMetrics s' = Returns None /\
  result getSecurityMetrics s' = Returns None /\
  result performSecurityAudit s'
  = Throws (PlainError "No active connection to audit") /\
  questions (after (quantumDNSResolve w domain) s') !! length (questions s)
  = Some (DnsLookup domain).
Proof.
  intros s'. subst s'.
  repeat (split; [reflexivity|]).
  unfold quantumDNSResolve, cleanup. run_registry.
  rewrite lookup_empty. unfold dnsLookup. run_registry.
  destruct (lookedUp w (length (questions s))) as [address|e]; cbn.
  - rewrite <- app_assoc. cbn [app]. by apply list_lookup_middle.
  - by apply list_lookup_middle.
Qed.

End BestExtras.

Module WellFormedExtras.
Import QuantumProxyManager QuantumSpec QuantumScenario RegistrySpec
  RegistryScenario MethodFacts StabilityFacts InitFacts RegistryFacts.

(** The handler of the initialization, and the branch of a failed test. *)
Ltac registers_nothing :=
  apply wp_bind, wp_modify; cbn beta iota; apply wp_ret; left;
  split; [reflexivity|by apply quiet_logged].

Ltac registers_step :=
  apply wp_bind;
  match goal with
  | Hq : quiet ?s0 ?s |- wp ?m _ ?s =>
      apply (wp_quiet m _ s0 s);
      [ keeps_with ltac:(solve [auto with quiet])
      | exact Hq
      | clear Hq; intros [?|?] ? Hq; cbn beta iota; [|registers_nothing] ]
  end.

Lemma wp_initializeQuantumConnection (w : World)
    (proxyConfig : QuantumProxyConfig) (s : State) :
  wp (initializeQuantumConnection w proxyConfig) (registers proxyConfig s) s.
Proof.
  assert (quiet s s) as Hq by reflexivity. revert Hq.
  generalize s at 2 4. intros s0 Hq.
  unfold initializeQuantumConnection, registers. apply wp_tryCatch.
  registers_step. apply wp_bind, wp_get. cbn beta iota.
  registers_step. registers_step. registers_step. registers_step.
  registers_step. registers_step. registers_step.
  apply wp_bind, wp_get. cbn beta iota.
  registers_step. apply wp_bind.
  match goal with
  | Hq : quiet s ?s1 |- wp (performQuantumConnectivityTest w ?c) _ ?s1 =>
      pose proof (keeps_quiet_performQuantumConnectivityTest w c s1) as Htest;
      unfold wp at 1;
      destruct (result (performQuantumConnectivityTest w c) s1)
        as [[|]|e] eqn:Hresult
  end.
  - cbn [negb]. cbn iota. apply wp_bind, wp_modify. cbn beta iota.
    apply wp_bind, wp_modify. cbn beta iota. apply wp_ret. right.
    split; [reflexivity|]. eexists (mkConnection _ _ _ _ _ _).
    split; [reflexivity|]. split; [by eexists|].
    assert (quiet s (after (performQuantumConnectivityTest w _) _)) as Hs
      by (etransitivity; [exact Hq|exact Htest]).
    destruct Hs as [(Hheap & Hconn & _) _]. cbn.
    by rewrite Hheap, Hconn.
  - cbn [negb]. cbn iota.
    assert (quiet s (after (performQuantumConnectivityTest w _) _)) as Hs
      by (etransitivity; [exact Hq|exact Htest]).
    clear Hq. rename Hs into Hq. registers_nothing.
  - assert (quiet s (after (performQuantumConnectivityTest w _) _)) as Hs
      by (etransitivity; [exact Hq|exact Htest]).
    clear Hq. rename Hs into Hq. registers_nothing.
Qed.


Lemma wellFormed_same (s s' : State) :
  sameRegistry s s' -> wellFormed s -> wellFormed s'.
Proof.
  intros (Hheap & Hconn & Hcur) Hwf. unfold wellFormed.
  by rewrite Hheap, Hconn, Hcur.
Qed.

Lemma wellFormed_registers (proxyConfig : QuantumProxyConfig) (s s' : State)
    (c : Completion bool) :
  registers proxyConfig s c s' -> wellFormed s -> wellFormed s'.
Proof.
  intros [[_ [Hsame _]]|[_ (connection & _ & Hsec & Hheap & Hconn & Hcur)]]
    (Hkeys & Hrefs & Hcurrent & Hsnap).
  { by eapply wellFormed_same. }
  unfold wellFormed. rewrite Hheap, Hconn, Hcur.
  split; [by apply mapSet_NoDup|]. split; [|split].
  - apply Forall_forall. intros entry [->|Hin]%mapSet_entries.
    + simpl. rewrite list_lookup_middle by done. by eexists.
    + rewrite Forall_forall in Hrefs. destruct (Hrefs _ Hin) as [x Hx].
      exists x. by apply lookup_app_l_Some.
  - intros ref [= <-].
    apply (list_elem_of_fmap_2' snd _ (connectionKey proxyConfig, length (heap s)));
      [apply mapSet_value|done].
  - apply Forall_app. split; [done|]. by constructor.
Qed.

(** A call of [getOptimizedConnection] rewrites at most the connection
    object that is current, and keeps its audit snapshot. *)
Lemma getOptimizedConnection_rewrites (w : World) (s : State) :
  let s' := after (getOptimizedConnection w) s in
  connections s' = connections s /\
  currentConnection s' = currentConnection s /\
  (heap s' = heap s \/
   exists ref c c',
     heap s !! ref = Some c /\ heap s' = <[ref := c']> (heap s) /\
     securityMetrics c' = securityMetrics c).
Proof.
  intros s'. subst s'. unfold getOptimizedConnection. run_registry.
  destruct (currentConnection s) as [ref|] eqn:Hcur; cbn; [|by auto].
  destruct (heap s !! ref) as [c|] eqn:Href; cbn; [|by auto].
  destruct (connectionPool c) as [|x rest] eqn:Hpool; cbn.
  - split; [done|]. split; [done|]. right. by eexists ref, c, _.
  - split; [done|]. split; [done|]. right. by eexists ref, c, _.
Qed.

Lemma wellFormed_getOptimizedConnection (w : World) (s : State) :
  wellFormed s -> wellFormed (after (getOptimizedConnection w) s).
Proof.
  intros (Hkeys & Hrefs & Hcurrent & Hsnap).
  destruct (getOptimizedConnection_rewrites w s)
    as (Hconn & Hcur & [Hheap|(ref & c & c' & Href & Hheap & Hsec)]).
  { by apply (wellFormed_same s). }
  unfold wellFormed. rewrite Hconn, Hcur, Hheap.
  split; [done|]. split; [|split; [done|]].
  - eapply Forall_impl; [exact Hrefs|]. intros entry Hentry. simpl in *.
    apply lookup_lt_is_Some. rewrite length_insert.
    by apply lookup_lt_is_Some.
  - apply Forall_insert; [done|]. rewrite Hsec.
    rewrite Forall_lookup in Hsnap. by apply (Hsnap ref).
Qed.

Lemma wellFormed_switchToBestProxy (s : State) :
  wellFormed s -> wellFormed (after switchToBestProxy s).
Proof.
  intros (Hkeys & Hrefs & Hcurrent & Hsnap). unfold after.
  rewrite switchToBestProxy_run.
  pose proof (bestOf_scan (heap s) (connections s) None (-1)) as Hscan.
  destruct (bestOf (heap s) (connections s) None (-1)) as [[ref|] score];
    cbn [fst snd]; [|done].
  destruct (decide _); [|done]. cbn.
  destruct Hscan as (_ & _ & [[? _]|(c & r & [= <-] & Hin & _)]); [done|].
  unfold wellFormed. cbn. split; [done|]. split; [done|].
  split; [|done]. by intros ? [= <-].
Qed.

Lemma wellFormed_perform (w : World) (c : Call) (s : State) :
  wellFormed s -> wellFormed (perform w c s).
Proof.
  intros Hwf. destruct c; cbn [perform].
  - eapply wellFormed_registers; [|exact Hwf].
    apply wp_initializeQuantumConnection.
  - by apply wellFormed_getOptimizedConnection.
  - by apply wellFormed_switchToBestProxy.
  - done.
  - done.
  - unfold after, performSecurityAudit. run_registry.
    destruct (currentConnection s) as [ref|]; cbn; [|done].
    destruct (heap s !! ref) as [c|]; cbn; [|done].
    by destruct (securityMetrics c).
  - unfold wellFormed. cbn. split; [constructor|]. split; [constructor|].
    split; [done|]. by destruct Hwf as (_ & _ & _ & ?).
Qed.

(** X16.  Whatever calls were made on a manager since its construction, its
    registry is well formed, and so no call meets a reference without an
    object or a connection without an audit snapshot: with no current
    connection the audit throws "No active connection to audit" and no
    client is handed out; with one, the audit returns the score of its
    snapshot and the client handed out is its main client or one of its
    pool. *)
Theorem registry_stays_well_formed (w : World) (targetDomain : string)
    (calls : list Call) :
  let s := performAll w calls (construct targetDomain) in
  wellFormed s /\
  match currentConnection s with
  | None =>
      result performSecurityAudit s
      = Throws (PlainError "No active connection to audit") /\
      result (getOptimizedConnection w) s = Returns None
  | Some ref =>
      exists connection snapshot report client,
        heap s !! ref = Some connection /\
        securityMetrics connection = Some snapshot /\
        result performSecurityAudit s = Returns report /\
        score report = securityScore snapshot /\
        result (getOptimizedConnection w) s = Returns (Some client) /\
        (client = axiosInstance connection \/
         client ∈ connectionPool connection)
  end.
Proof.
  intros s.
  assert (wellFormed s) as Hwf.
  { subst s. unfold performAll.
    assert (wellFormed (construct targetDomain)) as Hstart.
    { unfold wellFormed. cbn. split; [constructor|]. split; [constructor|].
      split; [done|constructor]. }
    revert Hstart. generalize (construct targetDomain).
    induction calls as [|c calls IH]; intros s0 Hs0; [done|].
    cbn [foldl]. by apply IH, wellFormed_perform. }
  split; [done|]. clearbody s.
  destruct Hwf as (_ & Hrefs & Hcurrent & Hsnap).
  destruct (currentConnection s) as [ref|] eqn:Hcur.
  - destruct (list_elem_of_fmap_1 _ _ _ (Hcurrent ref eq_refl))
      as (entry & -> & Hentry).
    rewrite Forall_forall in Hrefs.
    destruct (Hrefs _ Hentry) as [connection Hconnection].
    rewrite Forall_lookup in Hsnap.
    destruct (Hsnap _ _ Hconnection) as [snapshot Hsnapshot].
    unfold performSecurityAudit, getOptimizedConnection. run_registry.
    rewrite Hcur. cbn. rewrite Hconnection. cbn. rewrite Hsnapshot. cbn.
    destruct (connectionPool connection) as [|x rest] eqn:Hpool;
      eexists connection, snapshot, _, _;
      (split; [done|]; split; [done|]; split; [reflexivity|];
       split; [reflexivity|]; split; [reflexivity|]).
    + by left.
    + right. rewrite Hpool. by left.
  - unfold performSecurityAudit, getOptimizedConnection. run_registry.
    by rewrite Hcur.
Qed.

Lemma registry_stays_well_formed_witness :
  currentConnection
    (performAll allUp
       [InitializeQuantumConnection relay; GetOptimizedConnection;
        InitializeQuantumConnection relay; SwitchToBestProxy]
       (construct "act.playcfl.com")) = Some 1%nat /\
  (connections
     (performAll allUp
        [InitializeQuantumConnection relay; GetOptimizedConnection;
         InitializeQuantumConnection relay; SwitchToBestProxy]
        (construct "act.playcfl.com"))).*1 = ["socks5://10.0.0.1:1080"] /\
  currentConnection
    (performAll allUp [InitializeQuantumConnection relay; Cleanup]
       (construct "act.playcfl.com")) = None /\
  result performSecurityAudit
    (performAll allUp [InitializeQuantumConnection relay; Cleanup]
       (construct "act.playcfl.com"))
  = Throws (PlainError "No active connection to audit").
Proof.
  pose proof (registry_stays_well_formed allUp "act.playcfl.com"
                [InitializeQuantumConnection relay; Cleanup]) as Hclean.
  cbv zeta in Hclean. destruct Hclean as (_ & Hclean).
  assert (currentConnection
            (performAll allUp [InitializeQuantumConnection relay; Cleanup]
               (construct "act.playcfl.com")) = None) as Hnone
    by by vm_compute.
  rewrite Hnone in Hclean. destruct Hclean as (Haudit & _).
  split; [by vm_compute|]. split; [by vm_compute|].
  split; [exact Hnone|exact Haudit].
Defined.

End WellFormedExtras.

Module PoolBuildExtras.
Import QuantumProxyManager QuantumSpec QuantumScenario RegistrySpec
  RegistryScenario MethodFacts StabilityFacts RegistryFacts.

Lemma createConnectionPool_loop_step (w : World) (proxy : QuantumProxyConfig)
    (n : nat) (pool : list Client) (s : State) :
  createConnectionPool_loop w proxy (S n) pool s
  = createConnectionPool_loop w proxy n
      (pool ++
       match axiosGet status2xx
               (replied w (length (questions s)) (Optimized (clients s))
                  "http://httpbin.org/status/200") with
       | Returns _ => [Optimized (clients s)]
       | Throws _ => []
       end)
      (withQuestions
         (questions s ++
          [Get (Optimized (clients s)) "http://httpbin.org/status/200"])
         (withClients (S (clients s)) s)).
Proof.
  cbn [createConnectionPool_loop].
  unfold createOptimizedAxiosInstance, clientGet. run_registry.
  unfold withClients. cbn.
  destruct (axiosGet _ _) as [response|e]; cbn; [done|].
  by rewrite app_nil_r.
Qed.

Lemma createConnectionPool_loop_run (w : World) (proxy : QuantumProxyConfig)
    (n : nat) (pool : list Client) (s : State) :
  result (createConnectionPool_loop w proxy n pool) s
  = Returns (pool ++ validated w (length (questions s)) (clients s) n) /\
  sameRegistry s (after (createConnectionPool_loop w proxy n pool) s) /\
  clients (after (createConnectionPool_loop w proxy n pool) s)
  = (clients s + n)%nat /\
  length (questions (after (createConnectionPool_loop w proxy n pool) s))
  = (length (questions s) + n)%nat /\
  logged (after (createConnectionPool_loop w proxy n pool) s) = logged s.
Proof.
  revert pool s. induction n as [|n IH]; intros pool s.
  - unfold result, after. cbn. rewrite app_nil_r.
    repeat split; lia.
  - unfold result, after. rewrite createConnectionPool_loop_step.
    set (s1 := withQuestions _ _). set (pool1 := pool ++ _).
    destruct (IH pool1 s1) as (Hr & (Hh & Hc & Hcur) & Hcl & Hq & Hlog).
    unfold result, after in *. rewrite Hr, Hcl, Hq, Hlog.
    subst s1 pool1. cbn in *. rewrite length_app, Nat.add_1_r.
    split; [by rewrite <- app_assoc|].
    split; [split; [|split]; by etransitivity|].
    split; [lia|]. split; [lia|done].
Qed.

Lemma validated_created (w : World) (q c n : nat) :
  Forall (fun client => exists k, client = Optimized k /\ (c <= k < c + n)%nat)
         (validated w q c n) /\
  NoDup (validated w q c n) /\
  (length (validated w q c n) <= n)%nat.
Proof.
  revert q c. induction n as [|n IH]; intros q c; cbn [validated].
  - split; [constructor|]. split; [constructor|]. simpl. lia.
  - destruct (IH (S q) (S c)) as (Hall & Hnd & Hlen).
    assert (Forall (fun client =>
                      exists k, client = Optimized k /\ (c <= k < c + S n)%nat)
                   (validated w (S q) (S c) n)) as Hall'.
    { eapply Forall_impl; [exact Hall|].
      intros client (k & -> & Hk). exists k. split; [done|lia]. }
    destruct (axiosGet _ _); cbn [app].
    + split; [|split].
      * constructor; [|done]. exists c. split; [done|lia].
      * constructor; [|done]. intros Hin.
        rewrite Forall_forall in Hall.
        destruct (Hall _ Hin) as (k & [= <-] & Hk). lia.
      * simpl. lia.
    + split; [done|]. split; [done|]. lia.
Qed.

(** X17.  [createConnectionPool] never throws.  It creates [poolSize]
    clients and asks one request of each; the pool it returns holds, in the
    order of their creation, the clients whose request was answered with a
    status of 200..299: at most [poolSize] clients, no client twice, none
    that existed before the call.  It registers nothing. *)
Theorem createConnectionPool_validated (w : World) (proxy : QuantumProxyConfig)
    (poolSize : nat) (s : State) :
  let s' := after (createConnectionPool w proxy poolSize) s in
  let pool := validated w (length (questions s)) (clients s) poolSize in
  result (createConnectionPool w proxy poolSize) s = Returns pool /\
  (length pool <= poolSize)%nat /\
  NoDup pool /\
  Forall (fun client =>
            exists k, client = Optimized k /\
                      (clients s <= k < clients s + poolSize)%nat) pool /\
  clients s' = (clients s + poolSize)%nat /\
  length (questions s') = (length (questions s) + poolSize)%nat /\
  sameRegistry s s'.
Proof.
  intros s' pool. subst s' pool.
  destruct (createConnectionPool_loop_run w proxy poolSize [] s)
    as (Hr & Hsame & Hcl & Hq & _).
  destruct (validated_created w (length (questions s)) (clients s) poolSize)
    as (Hall & Hnd & Hlen).
  unfold createConnectionPool, result, after in *.
  unfold mbind, M_bind, mret, M_ret, logger, modify in *.
  destruct (createConnectionPool_loop w proxy poolSize [] s) as [r s1].
  simpl in Hr, Hcl, Hq, Hsame. subst r. cbn.
  repeat (split; [done|]). done.
Qed.

Lemma createConnectionPool_validated_witness :
  result (createConnectionPool allUp relay 3) fresh
  = Returns [Optimized 0; Optimized 1; Optimized 2] /\
  result (createConnectionPool statusDown relay 3) fresh = Returns [].
Proof.
  destruct (createConnectionPool_validated allUp relay 3 fresh) as (H1 & _).
  destruct (createConnectionPool_validated statusDown relay 3 fresh)
    as (H2 & _).
  split; [exact H1|exact H2].
Defined.

Lemma sumAbsDiffs_spread (lo hi previous : Z) (rest : list Z) :
  lo <= previous <= hi ->
  Forall (fun x => lo <= x <= hi) rest ->
  sumAbsDiffs previous rest <= Z.of_nat (length rest) * (hi - lo).
Proof.
  revert previous. induction rest as [|x rest IH]; intros previous Hp Hall.
  - simpl. lia.
  - inversion Hall as [|? ? Hx Hrest]; subst.
    specialize (IH x Hx Hrest). cbn [sumAbsDiffs length]. lia.
Qed.

Lemma sumAbsDiffs_shift (d previous : Z) (rest : list Z) :
  sumAbsDiffs (previous + d) ((fun x => x + d) <$> rest)
  = sumAbsDiffs previous rest.
Proof.
  revert previous. induction rest as [|x rest IH]; intros previous; [done|].
  cbn [fmap list_fmap sumAbsDiffs]. rewrite <- (IH x). f_equal. f_equal. lia.
Qed.

(** X18.  The jitter of samples that all lie between [lo] and [hi] lies
    between 0 and [hi - lo]; and it is the same when every sample is moved
    by the same amount. *)
Theorem calculateJitter_within_spread (samples : list Z) (lo hi d : Z) :
  lo <= hi ->
  Forall (fun x => lo <= x <= hi) samples ->
  (0 <= calculateJitter samples <= inject_Z (hi - lo))%Q /\
  calculateJitter ((fun x => x + d) <$> samples) = calculateJitter samples.
Proof.
  intros Hlohi Hall. split; [split; [apply calculateJitter_nonneg|]|].
  - destruct samples as [|first [|second rest]].
    + simpl. change 0%Q with (inject_Z 0). rewrite <- Zle_Qle. lia.
    + simpl. change 0%Q with (inject_Z 0). rewrite <- Zle_Qle. lia.
    + inversion Hall as [|? ? Hfirst Hrest]; subst.
      pose proof (sumAbsDiffs_spread lo hi first (second :: rest) Hfirst Hrest)
        as Hsum.
      unfold calculateJitter.
      apply Qle_shift_div_r.
      * change 0%Q with (inject_Z 0). rewrite <- Zlt_Qlt.
        cbn [length]. lia.
      * rewrite <- inject_Z_mult, <- Zle_Qle.
        cbn [length] in *. lia.
  - destruct samples as [|first [|second rest]]; [done|done|].
    pose proof (sumAbsDiffs_shift d first (second :: rest)) as Hshift.
    pose proof (length_fmap (fun x => x + d) rest) as Hlength.
    unfold calculateJitter. cbn [fmap list_fmap length] in *.
    by rewrite Hshift, Hlength.
Qed.

Lemma calculateJitter_within_spread_witness :
  (0 <= calculateJitter [120; 180; 150]%Z <= inject_Z (180 - 120))%Q /\
  calculateJitter ((fun x => x + 1000) <$> [120; 180; 150])
  = calculateJitter [120; 180; 150].
Proof.
  apply (calculateJitter_within_spread [120; 180; 150] 120 180 1000).
  - lia.
  - repeat constructor; lia.
Defined.

End PoolBuildExtras.

Module AcceptanceExtras.
Import QuantumProxyManager QuantumSpec QuantumScenario RegistrySpec
  RegistryScenario MethodFacts StabilityFacts RegistryFacts.

(** X19.  The acceptance test never throws and stops at the first stage
    that fails: it asks for the handshake only when that fails, for the
    handshake and the streamed request when the latter fails, and for all
    five otherwise; it answers [true] exactly when the handshake took less
    than 3000 ms, the streamed request was answered with 200 and two at
    least of the three seeding requests were answered with 200.  Every
    request goes through the main client of the connection, none through its
    pool. *)
Theorem performQuantumConnectivityTest_stages (w : World)
    (connection : SmartConnection) (s : State) :
  let n := length (questions s) in
  let s' := after (performQuantumConnectivityTest w connection) s in
  let client := axiosInstance connection in
  result (performQuantumConnectivityTest w connection) s
  = Returns (handshakeStage w n && chunkedStage w n connection
             && seedingStage w n connection) /\
  questions s'
  = questions s ++
    [Connect (host (proxy connection)) (port (proxy connection))] ++
    (if handshakeStage w n
     then [Get client "http://httpbin.org/stream/5"] ++
          (if chunkedStage w n connection
           then [Get client "http://httpbin.org/status/200";
                 Get client "http://httpbin.org/json";
                 Get client "http://httpbin.org/headers"]
           else [])
     else []).
Proof.
  intros n s' client. subst n s' client.
  unfold performQuantumConnectivityTest, simulateThreeWayHandshake,
    testChunkedRequests, performConnectionSeeding, settled, clientGet,
    handshakeStage, chunkedStage, seedingStage, answers200.
  run_registry.
  destruct (connected w (length (questions s))) as [t|]; cbn -[Z.ltb];
    [|done].
  destruct (t <? 3000); cbn -[Z.ltb]; [|done].
  rewrite !length_app. cbn [length]. rewrite !Nat.add_1_r.
  destruct (axiosGet _ (replied w (S (length (questions s))) _ _))
    as [r1|e1]; cbn -[Z.ltb]; [|by rewrite <- !app_assoc].
  destruct (status r1 =? 200); cbn -[Z.ltb]; [|by rewrite <- !app_assoc].
  rewrite !length_app. cbn [length]. rewrite !Nat.add_1_r.
  destruct (axiosGet _ (replied w (S (S (length (questions s)))) _ _))
    as [r2|e2]; cbn -[Z.ltb];
    rewrite ?length_app; cbn [length]; rewrite ?Nat.add_1_r;
    (destruct (axiosGet _ (replied w (S (S (S (length (questions s))))) _ _))
      as [r3|e3]; cbn -[Z.ltb];
     rewrite ?length_app; cbn [length]; rewrite ?Nat.add_1_r;
     (destruct (axiosGet _
                  (replied w (S (S (S (S (length (questions s)))))) _ _))
        as [r4|e4]; cbn -[Z.ltb]));
    rewrite <- ?app_assoc; cbn [app];
    repeat match goal with
           | |- context [?x =? 200] => destruct (x =? 200)
           end; done.
Qed.

Lemma performQuantumConnectivityTest_stages_witness :
  result (performQuantumConnectivityTest statusDown
            (mkConnection relay (mkMetrics 0 0 0 0 0 97) (SecureOptimized 0) 0
               [] None)) fresh = Returns true /\
  questions (after (performQuantumConnectivityTest relayDown
                      (mkConnection relay (mkMetrics 0 0 0 0 0 97)
                         (SecureOptimized 0) 0 [] None)) fresh)
  = [Connect "10.0.0.1" 1080].
Proof.
  destruct (performQuantumConnectivityTest_stages statusDown
              (mkConnection relay (mkMetrics 0 0 0 0 0 97) (SecureOptimized 0)
                 0 [] None) fresh) as (H1 & _).
  destruct (performQuantumConnectivityTest_stages relayDown
              (mkConnection relay (mkMetrics 0 0 0 0 0 97) (SecureOptimized 0)
                 0 [] None) fresh) as (_ & H2).
  split; [exact H1|exact H2].
Defined.

(** X20.  Under a clock that does not run backwards the measurement
    returns metrics whose latency and jitter are not negative, whose packet
    loss lies between 0 and 80 percent (a relay through which all five
    requests fail is reported with a loss of 0 and the stability 10), whose
    bandwidth is 0 (none is measured) and whose time of test is the clock
    reading at the start; and it registers nothing. *)
Theorem measureConnectionQuality_reports (w : World)
    (proxy : QuantumProxyConfig) (s : State) :
  clockMonotone w ->
  exists m,
    result (measureConnectionQuality w proxy) s = Returns m /\
    bandwidth m = 0%Q /\
    lastTested m = now w (length (questions s)) /\
    (0 <= latency m)%Q /\ (0 <= jitter m)%Q /\
    (0 <= packetLoss m <= 80)%Q /\
    sameRegistry s (after (measureConnectionQuality w proxy) s).
Proof.
  intros Hclock.
  pose proof (keeps_quiet_measureConnectionQuality w proxy s) as [Hsame _].
  revert Hsame.
  change (wp (measureConnectionQuality w proxy)
            (fun c s' =>
               sameRegistry s s' ->
               exists m, c = Returns m /\ bandwidth m = 0%Q /\
                 lastTested m = now w (length (questions s)) /\
                 (0 <= latency m)%Q /\ (0 <= jitter m)%Q /\
                 (0 <= packetLoss m <= 80)%Q /\ sameRegistry s s') s).
  assert (forall t s',
            sameRegistry s s' ->
            exists m, Returns (withStability t (mkMetrics 0 0 0 0
                                 (now w (length (questions s))) 0))
                      = Returns m /\ bandwidth m = 0%Q /\
              lastTested m = now w (length (questions s)) /\
              (0 <= latency m)%Q /\ (0 <= jitter m)%Q /\
              (0 <= packetLoss m <= 80)%Q /\ sameRegistry s s') as Hearly.
  { intros t s' Hs'. eexists. split; [reflexivity|].
    cbn [bandwidth lastTested latency jitter packetLoss withStability].
    split; [done|]. split; [done|]. split; [lra|]. split; [lra|].
    split; [lra|done]. }
  unfold measureConnectionQuality.
  apply wp_bind, wp_dateNow. cbn beta iota. apply wp_tryCatch.
  apply wp_bind, wp_dateNow. cbn beta iota.
  apply wp_bind. unfold wp at 1.
  destruct (result (testTCPHandshake w proxy) _) as [tcpSuccess|e].
  2:{ apply wp_ret. apply Hearly. }
  apply wp_bind, wp_dateNow. cbn beta iota.
  destruct tcpSuccess; simpl negb; cbn iota.
  2:{ apply wp_ret. apply Hearly. }
  apply wp_bind, wp_sampleHttp; [done|done|].
  intros samples s' Hall Hlen. simpl in Hlen.
  destruct (decide (length samples = 0%nat)) as [Hnone|Hsome].
  { apply wp_ret. apply Hearly. }
  apply wp_ret. intros Hs'. eexists. split; [reflexivity|].
  cbn [bandwidth lastTested latency jitter packetLoss].
  split; [done|]. split; [done|]. split; [|split; [|split; [|done]]].
  - apply ratio_nonneg; [by apply sum_nonneg|lia].
  - apply calculateJitter_nonneg.
  - assert (1 <= inject_Z (Z.of_nat (length samples)) <= 5)%Q as [Hlo Hhi].
    { split.
      - change 1%Q with (inject_Z 1). rewrite <- Zle_Qle. lia.
      - change 5%Q with (inject_Z 5). rewrite <- Zle_Qle. lia. }
    set (n := inject_Z (Z.of_nat (length samples))) in *. clearbody n.
    assert (0 <= (5 - n) / 5 <= 4 # 5)%Q as Hshare.
    { split; [apply Qle_shift_div_l|apply Qle_shift_div_r]; lra. }
    set (share := ((5 - n) / 5)%Q) in *. clearbody share. lra.
Qed.

Lemma measureConnectionQuality_reports_witness :
  (packetLoss <$>
     match result (measureConnectionQuality requestsFail relay) fresh with
     | Returns m => Some m
     | Throws _ => None
     end) = Some 0%Q /\
  (bandwidth <$>
     match result (measureConnectionQuality allUp relay) fresh with
     | Returns m => Some m
     | Throws _ => None
     end) = Some 0%Q.
Proof.
  assert (clockMonotone allUp) as Hclock.
  { intros i j Hij. simpl. lia. }
  destruct (measureConnectionQuality_reports allUp relay fresh Hclock)
    as (m & Hm & Hband & _).
  split; [by vm_compute|]. rewrite Hm. simpl. by rewrite Hband.
Defined.

End AcceptanceExtras.

(** * The keep-alive timers *)

Module KeepAliveExtras.
Import KeepAliveTimers.

Lemma oneTimer_stopKeepAlive (t : Timers) :
  oneTimer t -> oneTimer (stopKeepAlive t) /\ running (stopKeepAlive t) = [].
Proof.
  intros [Hrun Hfresh]. unfold stopKeepAlive, oneTimer.
  destruct (keepAliveInterval t) as [h|] eqn:Hh; cbn.
  - rewrite Hrun. cbn. rewrite decide_False by (by intros ?). done.
  - rewrite Hh. done.
Qed.

Lemma oneTimer_startKeepAlive (keepAliveEnabled : bool) (t : Timers) :
  oneTimer t -> oneTimer (startKeepAlive keepAliveEnabled t).
Proof.
  intros [Hrun Hfresh]. unfold startKeepAlive.
  destruct keepAliveEnabled; cbn [negb orb]; [|done].
  destruct (keepAliveInterval t) as [h|] eqn:Hh.
  - rewrite bool_decide_true by by eexists. unfold oneTimer. by rewrite Hh.
  - rewrite bool_decide_false by by intros [? ?].
    unfold oneTimer. cbn. rewrite Hrun. cbn. split; [done|lia].
Qed.

Lemma oneTimer_quantumStartKeepAlive (t : Timers) :
  oneTimer t ->
  oneTimer (quantumStartKeepAlive t) /\
  keepAliveInterval (quantumStartKeepAlive t) = Some (created t).
Proof.
  intros [Hrun Hfresh]. unfold quantumStartKeepAlive, oneTimer.
  destruct (keepAliveInterval t) as [h|] eqn:Hh; cbn.
  - rewrite Hrun. cbn. rewrite decide_False by (by intros ?). cbn.
    split; [split; [done|lia]|done].
  - rewrite Hrun. cbn. split; [split; [done|lia]|done].
Qed.

Lemma oneTimer_performed (keepAliveEnabled : bool) (calls : list Call)
    (t : Timers) :
  oneTimer t -> oneTimer (foldl (perform keepAliveEnabled) t calls).
Proof.
  revert t. induction calls as [|c calls IH]; intros t Ht; [done|].
  cbn [foldl]. apply IH. destruct c; cbn [perform];
    [by apply oneTimer_startKeepAlive|by apply oneTimer_stopKeepAlive].
Qed.

Lemma oneTimer_quantumPerformed (calls : list Call) (t : Timers) :
  oneTimer t -> oneTimer (foldl quantumPerform t calls).
Proof.
  revert t. induction calls as [|c calls IH]; intros t Ht; [done|].
  cbn [foldl]. apply IH. destruct c; cbn [quantumPerform];
    [by apply oneTimer_quantumStartKeepAlive|by apply oneTimer_stopKeepAlive].
Qed.

Lemma disabled_holds_no_handle (calls : list Call) (t : Timers) :
  keepAliveInterval t = None ->
  keepAliveInterval (foldl (perform false) t calls) = None.
Proof.
  revert t. induction calls as [|c calls IH]; intros t Ht; [done|].
  cbn [foldl]. apply IH. destruct c; cbn [perform]; [done|].
  unfold stopKeepAlive. by rewrite Ht.
Qed.

(** X21.  Whatever sequence of [startKeepAlive] and [stopKeepAlive] calls a
    manager has seen, one timer at most ticks and it is the one whose handle
    the manager holds; after [stopKeepAlive] none ticks.  The two managers
    differ in a second [startKeepAlive]: the relay pool keeps the timer it
    has, the optimizer clears it and starts a new one.  A relay pool built
    with [keepAliveEnabled] off never starts a timer. *)
Theorem keepAlive_one_timer (keepAliveEnabled : bool) (calls : list Call) :
  let pool := foldl (perform keepAliveEnabled) construct calls in
  let optimizer := foldl quantumPerform construct calls in
  oneTimer pool /\ oneTimer optimizer /\
  running (stopKeepAlive pool) = [] /\
  running (stopKeepAlive optimizer) = [] /\
  startKeepAlive keepAliveEnabled (startKeepAlive keepAliveEnabled pool)
  = startKeepAlive keepAliveEnabled pool /\
  keepAliveInterval (quantumStartKeepAlive optimizer)
  = Some (created optimizer) /\
  (if keepAliveEnabled then True else running pool = []).
Proof.
  intros pool optimizer.
  assert (oneTimer construct) as Hstart by (by split).
  pose proof (oneTimer_performed keepAliveEnabled calls _ Hstart) as Hpool.
  pose proof (oneTimer_quantumPerformed calls _ Hstart) as Hoptimizer.
  fold pool in Hpool. fold optimizer in Hoptimizer.
  split; [done|]. split; [done|].
  split; [by apply oneTimer_stopKeepAlive|].
  split; [by apply oneTimer_stopKeepAlive|].
  split; [|split; [by apply oneTimer_quantumStartKeepAlive|]].
  - clearbody pool. destruct keepAliveEnabled; [|done].
    unfold startKeepAlive. cbn [negb orb].
    destruct (keepAliveInterval pool) as [h|] eqn:Hh; cbn; by rewrite ?Hh.
  - destruct keepAliveEnabled; [done|].
    destruct Hpool as [-> _]. subst pool.
    by rewrite disabled_holds_no_handle.
Qed.

Lemma keepAlive_one_timer_witness :
  running (foldl (perform true) construct
             [StartKeepAlive; StartKeepAlive; StartKeepAlive]) = [0%nat] /\
  running (foldl quantumPerform construct
             [StartKeepAlive; StartKeepAlive; StartKeepAlive]) = [2%nat] /\
  running (foldl (perform false) construct [StartKeepAlive]) = [].
Proof.
  pose proof (keepAlive_one_timer false [StartKeepAlive]) as Hoff.
  cbv zeta in Hoff. destruct Hoff as (_ & _ & _ & _ & _ & _ & Hoff).
  split; [by vm_compute|]. split; [by vm_compute|exact Hoff].
Defined.

End KeepAliveExtras.

(** * The probe *)

Module ProbeExtras.
Import ProxyManager Spec PoolSpec MethodFacts PoolFacts Scenario.

(** X22.  [pingProxy] never throws and asks one question.  It returns the
    elapsed time when the reply is a 200 with a body, and -1 otherwise; it
    touches no field but the log, to which a success adds nothing, another
    status of 200..299 or an empty body adds the line of the failed test,
    and a refused status or a transport failure adds a warning and then that
    line. *)
Theorem pingProxy_contract (w : World) (proxy : ProxyInfo) (s : State) :
  let s' := after (pingProxy w proxy) s in
  let t := probeAnswer w (asked s) proxy in
  let failed :=
    (LogError, "Proxy " +:+ proxyKey proxy +:+ " failed " +:+
               protocol proxy +:+ " test") in
  result (pingProxy w proxy) s = Returns t /\
  asked s' = S (asked s) /\
  sameFields s s' /\
  match replyTo w (asked s) proxy with
  | HttpReply st body =>
      if status2xx st then
        if (st =? 200) && body
        then t = elapsed w (asked s) /\ logged s' = logged s
        else t = -1 /\ logged s' = logged s ++ [failed]
      else t = -1 /\
           exists warning, logged s' = logged s ++ [(Warn, warning); failed]
  | NetFailure code message =>
      t = -1 /\
      exists warning, logged s' = logged s ++ [(Warn, warning); failed]
  end.
Proof.
  intros s' t failed. subst s' t failed.
  unfold pingProxy, probeAnswer, probeSucceeds, result, after, axiosGet.
  repeat (progress unfold mbind, M_bind, mret, M_ret, tryCatch, throw,
            JS.get, modify, ask, logger).
  cbn -[Z.eqb status2xx].
  destruct (replyTo w (asked s) proxy) as [st body|code message];
    cbn -[Z.eqb status2xx].
  - destruct (status2xx st); cbn -[Z.eqb].
    + destruct ((st =? 200) && body); cbn; by repeat split.
    + rewrite <- app_assoc. repeat split. by eexists.
  - rewrite <- app_assoc. repeat split. by eexists.
Qed.

Lemma pingProxy_contract_witness :
  result (pingProxy (liveWorld 250) relayA) twoRelays = Returns 250 /\
  result (pingProxy deadWorld relayA) twoRelays = Returns (-1) /\
  length (logged (after (pingProxy deadWorld relayA) twoRelays)) = 2%nat.
Proof.
  pose proof (pingProxy_contract (liveWorld 250) relayA twoRelays) as Hlive.
  pose proof (pingProxy_contract deadWorld relayA twoRelays) as Hdead.
  cbv zeta in Hlive, Hdead.
  destruct Hlive as (Hr & _). destruct Hdead as (Hr' & _ & _ & _ & warning & Hlog).
  split; [exact Hr|]. split; [exact Hr'|]. by rewrite Hlog.
Defined.

End ProbeExtras.

(** * The optimizer: the entry of a relay *)

Module RegisterExtras.
Import QuantumProxyManager QuantumSpec QuantumScenario RegistrySpec
  RegistryScenario MethodFacts RegistryFacts WellFormedExtras.

Lemma mapSet_others {V : Type} (key k : string) (v x : V)
    (m : list (string * V)) :
  k ≠ key -> (k, x) ∈ mapSet key v m <-> (k, x) ∈ m.
Proof.
  intros Hk. split.
  - intros [[= ? ?]|?]%mapSet_entries; [done|done].
  - induction m as [|[k' x'] m IH]; [by intros ?%elem_of_nil|].
    cbn [mapSet]. intros [Heq|Hin]%elem_of_cons.
    + injection Heq as <- <-. destruct (decide (k = key)); [done|by left].
    + destruct (decide (k' = key)); [by right|]. right. by apply IH.
Qed.

(** X23.  A successful [initializeQuantumConnection] registers the new
    connection under the key [protocol://host:port] of the relay: a key
    that was registered keeps its place and now leads to the new
    connection, a new key goes to the end, and the entries of the other
    keys are the ones of before.  The connection is current, and
    [getConnectionMetrics] and [getSecurityMetrics] answer with its metrics
    and its audit snapshot. *)
Theorem initializeQuantumConnection_replaces_entry (w : World)
    (proxyConfig : QuantumProxyConfig) (s : State) :
  result (initializeQuantumConnection w proxyConfig) s = Returns true ->
  let s' := after (initializeQuantumConnection w proxyConfig) s in
  let key := connectionKey proxyConfig in
  let ref := length (heap s) in
  (connections s').*1
  = (if decide (key ∈ (connections s).*1) then (connections s).*1
     else (connections s).*1 ++ [key]) /\
  (key, ref) ∈ connections s' /\
  (forall k r, k ≠ key -> (k, r) ∈ connections s' <-> (k, r) ∈ connections s) /\
  currentConnection s' = Some ref /\
  exists connection,
    heap s' = heap s ++ [connection] /\
    proxy connection = proxyConfig /\
    result getConnectionMetrics s' = Returns (Some (metrics connection)) /\
    result getSecurityMetrics s' = Returns (securityMetrics connection).
Proof.
  intros Htrue s' key ref.
  pose proof (wp_initializeQuantumConnection w proxyConfig s) as Hrun.
  unfold wp, registers in Hrun. rewrite Htrue in Hrun. fold s' in Hrun.
  destruct Hrun as [[Hfalse _]|[_ Hregistered]]; [done|].
  destruct Hregistered as (connection & Hproxy & _ & Hheap & Hconn & Hcur).
  fold key ref in Hconn, Hcur. rewrite Hconn.
  split; [apply mapSet_keys|]. split; [apply mapSet_value|].
  split; [intros k r Hk; by apply mapSet_others|]. split; [done|].
  exists connection. split; [done|]. split; [done|].
  unfold getConnectionMetrics, getSecurityMetrics, result.
  unfold mbind at 1 3, M_bind, mret, M_ret, JS.get. cbn [fst].
  rewrite Hcur, Hheap. cbn. subst ref.
  rewrite list_lookup_middle by done. done.
Qed.

Lemma initializeQuantumConnection_replaces_entry_witness :
  (connections (after (initializeQuantumConnection allUp relay) audited72)).*1
  = ["socks5://10.0.0.1:1080"] /\
  currentConnection (after (initializeQuantumConnection allUp relay) audited72)
  = Some 1%nat.
Proof.
  assert (result (initializeQuantumConnection allUp relay) audited72
          = Returns true) as Htrue by by vm_compute.
  pose proof (initializeQuantumConnection_replaces_entry allUp relay audited72
                Htrue) as H.
  cbv zeta in H. destruct H as (Hkeys & _ & _ & Hcur & _).
  split; [|exact Hcur]. rewrite Hkeys. by vm_compute.
Defined.

End RegisterExtras.
